(** * Gateway Device SDK (C++): the client engine, embedded and verified

    A shallow embedding of the C++ SDK under [sdk/cpp]: the subject
    matchers, the protocol codec, the authentication manager, the reconnect
    policy, the WebSocket transport's state and the [GatewayClient::Impl]
    engine, followed by the properties of the specification that concern
    them.

    Conventions of the embedding.
    - [std::string] is [string]; [std::vector] is [list]; [std::optional] is
      [option]; [Result<T>] is [Result].
    - [Duration] is a count of milliseconds in [Z]; a [Timestamp]
      ([system_clock::time_point]) is a count of milliseconds since the epoch;
      a [steady_clock::time_point] is a count of milliseconds, [0] being the
      default-constructed time point.
    - [uint32_t] and [uint64_t] are [N] with the wrap-around written out.
    - A finite [double] is represented by the rational it denotes; the
      result of an operation on doubles is rounded to binary64 ([round64]).
      The infinities and NaN are not represented.
    - [std::map] iterated in key order is a list of entries sorted by key;
      a [std::map] that is only looked up is a [gmap].
    - The JSON text layer (nlohmann's [dump] and [parse]) is represented by
      the JSON tree it prints and reads; [dump] throws on a string that is
      not valid UTF-8 ([Json.dump], [Protocol.serialize_throws]), and the
      operations that serialize a caller's data have the exception as an
      outcome ([Outcome]).
    - Every engine operation threads the client state explicitly and appends
      what it does to the outside (transport calls, user callbacks, handler
      invocations) to a trace, oldest first.  Each operation runs to
      completion before the next one starts. *)

From Stdlib Require Import ZArith NArith QArith Bool List String Ascii Lia.
From Stdlib Require Import DecimalString Sorted.
Set Warnings "-register-all".
From stdpp Require Import base option list strings gmap.
Import ListNotations.
Local Open Scope string_scope.
Local Open Scope Z_scope.

(* ===================================================================== *)
(** * Part I: the embedding *)
(* ===================================================================== *)

(** ** types.h *)

Definition Duration := Z.
Definition Timestamp := Z.
Definition SteadyTime := Z.
Definition SubscriptionId := N.
(** A [double] is given by the rational it denotes: the embedding covers
    the finite values; the infinities and NaN are outside it.  Not every
    rational is a binary64 value: where the code does arithmetic on a field
    or an argument of type [double], the embedding reads it through
    [round64], the identity on binary64 values, so that a rational such as
    12/10 stands for the double of the literal [1.2]. *)
Definition double := Q.

Definition wrap_u32 (n : N) : N := (n mod 2 ^ 32)%N.
Definition wrap_u64 (n : N) : N := (n mod 2 ^ 64)%N.
(** [static_cast<int>] of a wider integer: reduction into [-2^31, 2^31). *)
Definition wrap_i32 (z : Z) : Z := (z + 2 ^ 31) mod 2 ^ 32 - 2 ^ 31.
Definition wrap_i64 (z : Z) : Z := (z + 2 ^ 63) mod 2 ^ 64 - 2 ^ 63.
(** [std::min] on doubles: the second argument when it is smaller. *)
Definition std_min (a b : double) : double := if Qle_bool a b then a else b.
(** [static_cast<long long>] of a [double]: truncation toward zero. *)
Definition trunc (q : Q) : Z := Z.quot (Qnum q) (Z.pos (Qden q)).

(** *** Rounding to binary64

    The result of an operation on doubles is the value nearest to the exact
    result that has a 53-bit significand, ties going to the even
    significand; below [2^-1022] the spacing stays at [2^-1074].  Overflow
    to infinity is not modelled. *)

(** For [q > 0], the exponent [e] with [2^e <= q < 2^(e+1)]. *)
Definition floor_log2 (q : Q) : Z :=
  let k := Z.log2 (Qnum q) - Z.log2 (Z.pos (Qden q)) in
  if Qle_bool (2 ^ k) q then k else k - 1.

(** For [q >= 0], the nearest integer, ties to even. *)
Definition round_half_even (q : Q) : Z :=
  let below := Qnum q / Z.pos (Qden q) in
  match Qcompare (q - inject_Z below) (1 # 2) with
  | Lt => below
  | Gt => below + 1
  | Eq => if Z.even below then below else below + 1
  end.

Definition round64 (q : Q) : double :=
  if Qeq_bool q 0 then 0%Q
  else
    let a := if Qle_bool 0 q then q else (- q)%Q in
    let e := Z.max (floor_log2 a) (- 1022) in
    let ulp := (2 ^ (e - 52))%Q in
    let r := (inject_Z (round_half_even (a / ulp)) * ulp)%Q in
    if Qle_bool 0 q then r else (- r)%Q.

(** [static_cast<double>] of a [long long]: exact up to [2^53] in absolute
    value, rounded beyond. *)
Definition to_double (z : Z) : double :=
  if Z.abs z <=? 2 ^ 53 then inject_Z z else round64 (inject_Z z).

(** What a call does: it returns a value, or an exception leaves it. *)
Inductive Outcome (A : Type) : Type :=
| Returns (a : A)
| Throws.
Arguments Returns {A} a.
Arguments Throws {A}.

Module MessageType.
(** [enum class MessageType : int].  An enumeration with a fixed underlying
    type holds every value of that type; [Other v] is a value outside the
    enumerators, as [static_cast<MessageType>(v)] produces. *)
Inductive t : Type :=
| Publish | Subscribe | Unsubscribe | Message | Request | Reply
| Ack | Error | Auth | Ping | Pong
| Other (v : Z).

Definition to_int (m : t) : Z :=
  match m with
  | Publish => 0 | Subscribe => 1 | Unsubscribe => 2 | Message => 3
  | Request => 4 | Reply => 5 | Ack => 6 | Error => 7 | Auth => 8
  | Ping => 9 | Pong => 10
  | Other v => v
  end.

Definition of_int (v : Z) : t :=
  match v with
  | 0 => Publish | 1 => Subscribe | 2 => Unsubscribe | 3 => Message
  | 4 => Request | 5 => Reply | 6 => Ack | 7 => Error | 8 => Auth
  | 9 => Ping | 10 => Pong
  | _ => Other v
  end.

Definition eqb (a b : t) : bool := to_int a =? to_int b.

(** The enumerators of the protocol, [Publish = 0] through [Pong = 10]. *)
Definition defined (m : t) : bool :=
  match m with Other _ => false | _ => true end.

Definition messageTypeToString (m : t) : string :=
  match m with
  | Publish => "Publish" | Subscribe => "Subscribe"
  | Unsubscribe => "Unsubscribe" | Message => "Message"
  | Request => "Request" | Reply => "Reply" | Ack => "Ack"
  | Error => "Error" | Auth => "Auth" | Ping => "Ping" | Pong => "Pong"
  | Other _ => "Unknown"
  end.
End MessageType.

Module ConnectionState.
Inductive t : Type :=
| Disconnected | Connecting | Authenticating | Connected
| Reconnecting | Closing | Closed.

Definition eqb (a b : t) : bool :=
  match a, b with
  | Disconnected, Disconnected | Connecting, Connecting
  | Authenticating, Authenticating | Connected, Connected
  | Reconnecting, Reconnecting | Closing, Closing | Closed, Closed => true
  | _, _ => false
  end.
End ConnectionState.

Module ErrorCode.
Inductive t : Type :=
| Success
| ConnectionFailed | ConnectionTimeout | ConnectionClosed | ConnectionLost
| AuthenticationFailed | AuthenticationTimeout
| InvalidMessageType | InvalidSubject | MalformedJson
| AlreadyConnected | NotConnected | NotSubscribed
| InternalError.
End ErrorCode.

(** ** error.h: [Result<T>] *)

Inductive Result (A : Type) : Type :=
| Ok (value : A)
| Err (error : ErrorCode.t) (errorMessage : string).
Arguments Ok {A} value.
Arguments Err {A} error errorMessage.

Definition failed {A} (r : Result A) : bool :=
  match r with Ok _ => false | Err _ _ => true end.

Record DeviceInfo : Type := mkDeviceInfo {
  deviceId : string;
  deviceType : string;
  isConnected : bool;
  di_connectedAt : Timestamp;
  di_lastActivityAt : Timestamp;
  allowedPublishTopics : list string;
  allowedSubscribeTopics : list string
}.

(** ** message.h *)

(** [JsonValue]: the tag and the member the tag selects. *)
Inductive JsonValue : Type :=
| JNull
| JBool (b : bool)
| JInt (i : Z)
| JDouble (d : double)
| JString (s : string)
| JArray (items : list JsonValue)
| JObject (members : list (string * JsonValue)).

Module JsonValue.
Definition isNull (v : JsonValue) : bool :=
  match v with JNull => true | _ => false end.
Definition isObject (v : JsonValue) : bool :=
  match v with JObject _ => true | _ => false end.
Definition isArray (v : JsonValue) : bool :=
  match v with JArray _ => true | _ => false end.
Definition isString (v : JsonValue) : bool :=
  match v with JString _ => true | _ => false end.

(** The accessors return the member whatever the tag; a member that the
    tag does not select holds its initial value. *)
Definition asBool (v : JsonValue) : bool :=
  match v with JBool b => b | _ => false end.
Definition asString (v : JsonValue) : string :=
  match v with JString s => s | _ => "" end.
Definition asArray (v : JsonValue) : list JsonValue :=
  match v with JArray a => a | _ => [] end.

Fixpoint find (key : string) (o : list (string * JsonValue)) : option JsonValue :=
  match o with
  | [] => None
  | (k, v) :: rest => if String.eqb k key then Some v else find key rest
  end.

Definition contains (v : JsonValue) (key : string) : bool :=
  match v with
  | JObject o => match find key o with Some _ => true | None => false end
  | _ => false
  end.

(** [operator[](key) const]: the member, or a null value. *)
Definition at_key (v : JsonValue) (key : string) : JsonValue :=
  match v with
  | JObject o => match find key o with Some x => x | None => JNull end
  | _ => JNull
  end.
End JsonValue.

Record Message : Type := mkMessage {
  type : MessageType.t;
  subject : string;
  payload : JsonValue;
  correlationId : option string;
  timestamp : option Timestamp;
  msg_deviceId : option string
}.

Module Message.
(** [Message()] *)
Definition default : Message :=
  mkMessage MessageType.Publish "" JNull None None None.

Definition with_type (t : MessageType.t) (m : Message) : Message :=
  mkMessage t (subject m) (payload m) (correlationId m) (timestamp m) (msg_deviceId m).
Definition with_subject (s : string) (m : Message) : Message :=
  mkMessage (type m) s (payload m) (correlationId m) (timestamp m) (msg_deviceId m).
Definition with_payload (p : JsonValue) (m : Message) : Message :=
  mkMessage (type m) (subject m) p (correlationId m) (timestamp m) (msg_deviceId m).
Definition with_correlationId (c : option string) (m : Message) : Message :=
  mkMessage (type m) (subject m) (payload m) c (timestamp m) (msg_deviceId m).
Definition with_timestamp (t : option Timestamp) (m : Message) : Message :=
  mkMessage (type m) (subject m) (payload m) (correlationId m) t (msg_deviceId m).
Definition with_deviceId (d : option string) (m : Message) : Message :=
  mkMessage (type m) (subject m) (payload m) (correlationId m) (timestamp m) d.

Definition publish (subject : string) (payload : JsonValue) : Message :=
  with_payload payload (with_subject subject (with_type MessageType.Publish default)).
Definition subscribe (subject : string) : Message :=
  with_subject subject (with_type MessageType.Subscribe default).
Definition unsubscribe (subject : string) : Message :=
  with_subject subject (with_type MessageType.Unsubscribe default).
Definition ping : Message := with_type MessageType.Ping default.
Definition pong : Message := with_type MessageType.Pong default.
End Message.

(** A [SubscriptionHandler] is a closure of the user; the embedding names it
    by a number and records its invocations.  [None] is an empty
    [std::function]. *)
Definition HandlerRef := nat.

Record Subscription : Type := mkSubscription {
  sub_id : SubscriptionId;
  sub_subject : string;
  sub_handler : option HandlerRef;
  sub_active : bool
}.

(** ** The C library's calendar functions used by the codec

    [std::gmtime], [std::put_time], [std::get_time] and [std::mktime] belong
    to the C and C++ libraries; they are given here by their documented
    behaviour on the proleptic Gregorian calendar.  [mktime] reads its
    argument as local time: [utc_offset] is the number of seconds local time
    is ahead of UTC (no daylight saving). *)
Module CTime.
Record tm : Type := mkTm {
  tm_year : Z;   (* calendar year *)
  tm_mon : Z;    (* 1 .. 12 *)
  tm_mday : Z;   (* 1 .. 31 *)
  tm_hour : Z;
  tm_min : Z;
  tm_sec : Z
}.

Definition civil_from_days (days : Z) : Z * Z * Z :=
  let z := days + 719468 in
  let era := z / 146097 in
  let doe := z - era * 146097 in
  let yoe := (doe - doe / 1460 + doe / 36524 - doe / 146096) / 365 in
  let y := yoe + era * 400 in
  let doy := doe - (365 * yoe + yoe / 4 - yoe / 100) in
  let mp := (5 * doy + 2) / 153 in
  let d := doy - (153 * mp + 2) / 5 + 1 in
  let m := if mp <? 10 then mp + 3 else mp - 9 in
  (if m <=? 2 then y + 1 else y, m, d).

Definition days_from_civil (y m d : Z) : Z :=
  let y := if m <=? 2 then y - 1 else y in
  let era := y / 400 in
  let yoe := y - era * 400 in
  let doy := (153 * (if 2 <? m then m - 3 else m + 9) + 2) / 5 + d - 1 in
  let doe := yoe * 365 + yoe / 4 - yoe / 100 + doy in
  era * 146097 + doe - 719468.

Definition gmtime (time : Z) : tm :=
  let days := time / 86400 in
  let rem := time mod 86400 in
  let '(y, m, d) := civil_from_days days in
  mkTm y m d (rem / 3600) (rem mod 3600 / 60) (rem mod 60).

Definition timegm (t : tm) : Z :=
  days_from_civil (tm_year t) (tm_mon t) (tm_mday t) * 86400
  + tm_hour t * 3600 + tm_min t * 60 + tm_sec t.

Definition mktime (utc_offset : Z) (t : tm) : Z := timegm t - utc_offset.

Definition show_Z (z : Z) : string := NilZero.string_of_int (Z.to_int z).

(** [std::setfill('0') << std::setw(width)]: zeros in front, up to the
    width. *)
Fixpoint zeros (n : nat) : string :=
  match n with
  | O => ""
  | S n' => String "0" (zeros n')
  end.

Definition pad_left (width : nat) (s : string) : string :=
  zeros (width - String.length s) ++ s.

Definition two (z : Z) : string := pad_left 2 (show_Z z).

(** [put_time(t, "%Y-%m-%dT%H:%M:%S")] *)
Definition put_time (t : tm) : string :=
  show_Z (tm_year t) ++ "-" ++ two (tm_mon t) ++ "-" ++ two (tm_mday t)
  ++ "T" ++ two (tm_hour t) ++ ":" ++ two (tm_min t) ++ ":" ++ two (tm_sec t).

Definition digit_of (c : ascii) : option Z :=
  let n := Z.of_N (N_of_ascii c) in
  if (48 <=? n) && (n <=? 57) then Some (n - 48) else None.

(** Read one to [max] decimal digits. *)
Fixpoint read_digits (max : nat) (acc : Z) (seen : bool) (s : string)
  : option (Z * string) :=
  match max with
  | O => if seen then Some (acc, s) else None
  | S max' =>
      match s with
      | String c rest =>
          match digit_of c with
          | Some d => read_digits max' (acc * 10 + d) true rest
          | None => if seen then Some (acc, s) else None
          end
      | EmptyString => if seen then Some (acc, s) else None
      end
  end.

Definition read_field (max : nat) (lo hi : Z) (s : string) : option (Z * string) :=
  match read_digits max 0 false s with
  | Some (v, rest) => if (lo <=? v) && (v <=? hi) then Some (v, rest) else None
  | None => None
  end.

Definition expect (c : ascii) (s : string) : option string :=
  match s with
  | String c' rest => if Ascii.eqb c c' then Some rest else None
  | EmptyString => None
  end.

(** [get_time(&tm, "%Y-%m-%dT%H:%M:%S")]; [None] when the stream fails.
    What follows the seconds is left unread. *)
Definition get_time (s : string) : option tm :=
  '(y, s) ← read_field 4 0 9999 s;
  s ← expect "-" s;
  '(mo, s) ← read_field 2 1 12 s;
  s ← expect "-" s;
  '(d, s) ← read_field 2 1 31 s;
  s ← expect "T" s;
  '(h, s) ← read_field 2 0 23 s;
  s ← expect ":" s;
  '(mi, s) ← read_field 2 0 59 s;
  s ← expect ":" s;
  '(se, _) ← read_field 2 0 60 s;
  Some (mkTm y mo d h mi se).

(** [system_clock::to_time_t] and [from_time_t] on millisecond counts. *)
Definition to_time_t (t : Timestamp) : Z := Z.quot t 1000.
Definition from_time_t (time : Z) : Timestamp := time * 1000.
End CTime.

(** ** UTF-8, as [dump()] checks it

    [nlohmann::json::dump()] decodes every string and every key it prints
    and, with its default error handler, throws [type_error.316] on a byte
    sequence that is not well-formed UTF-8 or that ends inside a character.
    [valid] is the acceptance of its decoder: one to four bytes per
    character, no overlong form, no surrogate, nothing above U+10FFFF. *)
Module Utf8.
Inductive State : Type :=
| Accept                 (* between characters *)
| Tail1 | Tail2 | Tail3  (* that many bytes 80..BF to come *)
| AfterE0                (* A0..BF, then one more *)
| AfterED                (* 80..9F, then one more *)
| AfterF0                (* 90..BF, then two more *)
| AfterF4.               (* 80..8F, then two more *)

Definition between (lo hi b : N) : bool := ((lo <=? b) && (b <=? hi))%N.

Definition step (st : State) (b : N) : option State :=
  match st with
  | Accept =>
      if between 0 127 b then Some Accept
      else if between 194 223 b then Some Tail1
      else if (b =? 224)%N then Some AfterE0
      else if between 225 236 b || between 238 239 b then Some Tail2
      else if (b =? 237)%N then Some AfterED
      else if (b =? 240)%N then Some AfterF0
      else if between 241 243 b then Some Tail3
      else if (b =? 244)%N then Some AfterF4
      else None
  | Tail1 => if between 128 191 b then Some Accept else None
  | Tail2 => if between 128 191 b then Some Tail1 else None
  | Tail3 => if between 128 191 b then Some Tail2 else None
  | AfterE0 => if between 160 191 b then Some Tail1 else None
  | AfterED => if between 128 159 b then Some Tail1 else None
  | AfterF0 => if between 144 191 b then Some Tail2 else None
  | AfterF4 => if between 128 143 b then Some Tail2 else None
  end.

Fixpoint run (st : State) (s : string) : bool :=
  match s with
  | EmptyString => match st with Accept => true | _ => false end
  | String c rest =>
      match step st (N_of_ascii c) with
      | Some st' => run st' rest
      | None => false
      end
  end.

Definition valid (s : string) : bool := run Accept s.
End Utf8.

(** ** nlohmann::json, as far as the codec uses it *)

Inductive json : Type :=
| j_null
| j_boolean (b : bool)
| j_number_integer (i : Z)      (* number_integer and number_unsigned *)
| j_number_float (d : double)
| j_string (s : string)
| j_array (items : list json)
| j_object (members : list (string * json)).

Module Json.
Fixpoint find (key : string) (o : list (string * json)) : option json :=
  match o with
  | [] => None
  | (k, v) :: rest => if String.eqb k key then Some v else find key rest
  end.

(** [j.contains(key)]: false on anything but an object. *)
Definition contains (j : json) (key : string) : bool :=
  match j with
  | j_object o => match find key o with Some _ => true | None => false end
  | _ => false
  end.

(** Insertion into the key-ordered [std::map] of an object. *)
Fixpoint insert (key : string) (v : json) (o : list (string * json))
  : list (string * json) :=
  match o with
  | [] => [(key, v)]
  | (k, x) :: rest =>
      if String.eqb k key then (k, v) :: rest
      else if String.ltb key k then (key, v) :: (k, x) :: rest
      else (k, x) :: insert key v rest
  end.

(** [j[key] = v]; a null value becomes an object first.  The codec only
    assigns into a null or an object. *)
Definition set (key : string) (v : json) (j : json) : json :=
  match j with
  | j_object o => j_object (insert key v o)
  | _ => j_object [(key, v)]
  end.

(** [j.get<int>()]: numbers and booleans convert, anything else throws
    [type_error] ([None]). *)
Definition get_int (j : json) : option Z :=
  match j with
  | j_number_integer i => Some (wrap_i32 i)
  | j_number_float d => Some (wrap_i32 (trunc d))
  | j_boolean b => Some (if b then 1 else 0)
  | _ => None
  end.

(** [j.get<std::string>()] *)
Definition get_string (j : json) : option string :=
  match j with
  | j_string s => Some s
  | _ => None
  end.

(** Whether [j.dump()] returns: every string and every key is valid UTF-8.
    Otherwise it throws [type_error.316]. *)
Fixpoint dumps (j : json) : bool :=
  match j with
  | j_string s => Utf8.valid s
  | j_array items => forallb dumps items
  | j_object members =>
      (fix all (ms : list (string * json)) : bool :=
         match ms with
         | [] => true
         | (k, v) :: rest => Utf8.valid k && dumps v && all rest
         end) members
  | _ => true
  end.

(** [j.dump()], the text being given by the value it denotes. *)
Definition dump (j : json) : Outcome json :=
  if dumps j then Returns j else Throws.
End Json.

(** ** protocol.cpp *)

Module Protocol.

Fixpoint jsonValueToNlohmann (value : JsonValue) : json :=
  match value with
  | JNull => j_null
  | JBool b => j_boolean b
  | JInt i => j_number_integer i
  | JDouble d => j_number_float d
  | JString s => j_string s
  | JArray items => j_array (List.map jsonValueToNlohmann items)
  | JObject members =>
      let converted :=
        (fix go (ms : list (string * JsonValue)) : list (string * json) :=
           match ms with
           | [] => []
           | (k, v) :: rest => (k, jsonValueToNlohmann v) :: go rest
           end) members in
      j_object (fold_left (fun obj kv => Json.insert (fst kv) (snd kv) obj) converted [])
  end.

Fixpoint nlohmannToJsonValue (j : json) : JsonValue :=
  match j with
  | j_null => JNull
  | j_boolean b => JBool b
  | j_number_integer i => JInt (wrap_i64 i)
  | j_number_float d => JDouble d
  | j_string s => JString s
  | j_array items => JArray (List.map nlohmannToJsonValue items)
  | j_object members =>
      JObject
        ((fix go (ms : list (string * json)) : list (string * JsonValue) :=
            match ms with
            | [] => []
            | (k, v) :: rest => (k, nlohmannToJsonValue v) :: go rest
            end) members)
  end.

Definition pad3 (z : Z) : string := CTime.pad_left 3 (CTime.show_Z z).

(** [getTimestamp()], [now] being the system clock's reading. *)
Definition getTimestamp (now : Timestamp) : string :=
  let time := CTime.to_time_t now in
  let ms := Z.rem now 1000 in
  CTime.put_time (CTime.gmtime time) ++ "." ++ pad3 ms ++ "Z".

(** [serialize].  What it returns is the text of [j.dump()], given here by
    the JSON value [j] that the text denotes; when [dump()] throws instead
    is [serialize_throws] below. *)
Definition serialize (now : Timestamp) (message : Message) : json :=
  let j := j_null in
  let j := Json.set "type" (j_number_integer (MessageType.to_int (type message))) j in
  let j := if String.eqb (subject message) "" then j
           else Json.set "subject" (j_string (subject message)) j in
  let j := if JsonValue.isNull (payload message) then j
           else Json.set "payload" (jsonValueToNlohmann (payload message)) j in
  let j := match correlationId message with
           | Some c => Json.set "correlationId" (j_string c) j
           | None => j
           end in
  let j := match timestamp message with
           | Some ts =>
               let time := CTime.to_time_t ts in
               Json.set "timestamp" (j_string (CTime.put_time (CTime.gmtime time) ++ "Z")) j
           | None => Json.set "timestamp" (j_string (getTimestamp now)) j
           end in
  let j := match msg_deviceId message with
           | Some d => Json.set "deviceId" (j_string d) j
           | None => j
           end in
  j.

(** [serialize] does not return: [j.dump()] throws [type_error.316], which
    nothing in [serialize] catches. *)
Definition serialize_throws (now : Timestamp) (message : Message) : bool :=
  negb (Json.dumps (serialize now message)).

Definition parseTimestamp (utc_offset : Z) (timestamp : string) : Result Timestamp :=
  match CTime.get_time timestamp with
  | None => Err ErrorCode.MalformedJson "Invalid timestamp format"
  | Some tm => Ok (CTime.from_time_t (CTime.mktime utc_offset tm))
  end.

Definition at_key (j : json) (key : string) : json :=
  match j with
  | j_object o => match Json.find key o with Some v => v | None => j_null end
  | _ => j_null
  end.

Definition json_exception : Result Message :=
  Err ErrorCode.MalformedJson "JSON parse error".

(** [deserialize], from the outcome of [json::parse(jsonStr)] on: [None]
    is a [parse_error].  Every [get] that throws ends in the [catch]. *)
Definition deserialize (utc_offset : Z) (parsed : option json) : Result Message :=
  match parsed with
  | None => json_exception
  | Some j =>
      let step (field : string) (k : Message -> json -> option Message)
               (acc : option Message) : option Message :=
        match acc with
        | None => None
        | Some msg => if Json.contains j field then k msg (at_key j field) else Some msg
        end in
      let r := Some Message.default in
      let r := step "type" (fun msg v =>
                 i ← Json.get_int v; Some (Message.with_type (MessageType.of_int i) msg)) r in
      let r := step "subject" (fun msg v =>
                 s ← Json.get_string v; Some (Message.with_subject s msg)) r in
      let r := step "payload" (fun msg v =>
                 Some (Message.with_payload (nlohmannToJsonValue v) msg)) r in
      let r := step "correlationId" (fun msg v =>
                 s ← Json.get_string v; Some (Message.with_correlationId (Some s) msg)) r in
      let r := step "timestamp" (fun msg v =>
                 s ← Json.get_string v;
                 match parseTimestamp utc_offset s with
                 | Ok ts => Some (Message.with_timestamp (Some ts) msg)
                 | Err _ _ => Some msg
                 end) r in
      let r := step "deviceId" (fun msg v =>
                 s ← Json.get_string v; Some (Message.with_deviceId (Some s) msg)) r in
      match r with
      | Some msg => Ok msg
      | None => json_exception
      end
  end.

Definition is_allowed_char (c : ascii) : bool :=
  let n := N_of_ascii c in
  ((97 <=? n) && (n <=? 122) || (65 <=? n) && (n <=? 90)
   || (48 <=? n) && (n <=? 57)
   || (n =? 46) || (n =? 42) || (n =? 62) || (n =? 95) || (n =? 45))%N.

(** [std::regex_match(subject, "^[a-zA-Z0-9.*>_-]+$")] *)
Definition matches_valid_pattern (s : string) : bool :=
  negb (String.eqb s "") && forallb is_allowed_char (list_ascii_of_string s).

Definition front (s : string) : option ascii := String.get 0 s.
Definition back (s : string) : option ascii := String.get (String.length s - 1) s.

Definition find_substring (needle s : string) : option nat :=
  match String.index 0 needle s with Some i => Some i | None => None end.

Definition isValidSubject (subject : string) : bool :=
  if String.eqb subject "" then false
  else if (256 <? String.length subject)%nat then false
  else if bool_decide (front subject = Some "."%char)
          || bool_decide (back subject = Some "."%char) then false
  else if bool_decide (is_Some (find_substring ".." subject)) then false
  else if negb (matches_valid_pattern subject) then false
  else match find_substring ">" subject with
       | Some gtPos =>
           if negb (gtPos =? String.length subject - 1)%nat then false
           else if (0 <? gtPos)%nat
                   && negb (bool_decide (String.get (gtPos - 1) subject = Some "."%char))
           then false
           else true
       | None => true
       end.
End Protocol.

(** ** config.h *)

Module ReconnectConfig.
Record t : Type := mk {
  enabled : bool;
  initialDelay : Duration;
  maxDelay : Duration;
  backoffMultiplier : double;
  jitterEnabled : bool;
  maxJitterFraction : double;
  maxAttempts : N;
  resubscribeOnReconnect : bool
}.
Definition default : t := mk true 1000 30000 2%Q true (1 # 4)%Q 0 true.
End ReconnectConfig.

Module HeartbeatConfig.
Record t : Type := mk {
  enabled : bool;
  interval : Duration;
  timeout : Duration;
  missedPongsBeforeDisconnect : N
}.
Definition default : t := mk true 30000 10000 2.
End HeartbeatConfig.

Module GatewayConfig.
Record t : Type := mk {
  gatewayUrl : string;
  deviceId : string;
  authToken : string;
  deviceTypeString : string;     (* the value of [getDeviceTypeString()] *)
  connectTimeout : Duration;
  authTimeout : Duration;
  reconnect : ReconnectConfig.t;
  heartbeat : HeartbeatConfig.t
}.
End GatewayConfig.

(** ** auth.h, auth.cpp *)

Module AuthState.
Inductive t : Type := NotAuthenticated | Authenticating | Authenticated | Failed.
End AuthState.

Module AuthResult.
Record t : Type := mk {
  success : bool;
  error : ErrorCode.t;
  message : string;
  deviceInfo : option DeviceInfo
}.
End AuthResult.

Module AuthManager.
Record t : Type := mk {
  state_ : AuthState.t;
  deviceInfo_ : option DeviceInfo;
  callback_ : bool        (* whether a completion callback is held *)
}.

Definition init : t := mk AuthState.NotAuthenticated None false.

Definition createAuthRequest (config : GatewayConfig.t) : Message :=
  Message.with_payload
    (JObject [("deviceId", JString (GatewayConfig.deviceId config));
              ("deviceType", JString (GatewayConfig.deviceTypeString config));
              ("token", JString (GatewayConfig.authToken config))])
    (Message.with_type MessageType.Auth Message.default).

(** The string elements of an array member, in order. *)
Definition topics_of (deviceObj : JsonValue) (key : string) : list string :=
  if JsonValue.contains deviceObj key && JsonValue.isArray (JsonValue.at_key deviceObj key)
  then List.map JsonValue.asString
         (List.filter JsonValue.isString (JsonValue.asArray (JsonValue.at_key deviceObj key)))
  else [].

Definition processAuthResponse (message : Message) : AuthResult.t :=
  if negb (MessageType.eqb (type message) MessageType.Auth) then
    AuthResult.mk false ErrorCode.InvalidMessageType "Expected Auth message type" None
  else
    let payload := payload message in
    let success := if JsonValue.contains payload "success"
                   then JsonValue.asBool (JsonValue.at_key payload "success")
                   else false in
    let message := if JsonValue.contains payload "message"
                   then JsonValue.asString (JsonValue.at_key payload "message")
                   else "" in
    let deviceInfo :=
      if success && JsonValue.contains payload "device"
         && JsonValue.isObject (JsonValue.at_key payload "device")
      then
        let deviceObj := JsonValue.at_key payload "device" in
        Some (mkDeviceInfo
                (if JsonValue.contains deviceObj "deviceId"
                 then JsonValue.asString (JsonValue.at_key deviceObj "deviceId") else "")
                (if JsonValue.contains deviceObj "deviceType"
                 then JsonValue.asString (JsonValue.at_key deviceObj "deviceType") else "")
                (if JsonValue.contains deviceObj "isConnected"
                 then JsonValue.asBool (JsonValue.at_key deviceObj "isConnected") else false)
                0 0
                (topics_of deviceObj "allowedPublishTopics")
                (topics_of deviceObj "allowedSubscribeTopics"))
      else None in
    AuthResult.mk success
      (if success then ErrorCode.Success else ErrorCode.AuthenticationFailed)
      message deviceInfo.

Definition isAuthenticated (a : t) : bool :=
  match state_ a with AuthState.Authenticated => true | _ => false end.

Definition startAuth (a : t) : t :=
  mk AuthState.Authenticating (deviceInfo_ a) true.

(** [handleMessage]: whether the message was handled, and the manager
    afterwards. *)
Definition handleMessage (message : Message) (a : t) : bool * t :=
  match state_ a with
  | AuthState.Authenticating =>
      if negb (MessageType.eqb (type message) MessageType.Auth) then (false, a)
      else
        let result := processAuthResponse message in
        if AuthResult.success result
        then (true, mk AuthState.Authenticated (AuthResult.deviceInfo result) false)
        else (true, mk AuthState.Failed (deviceInfo_ a) false)
  | _ => (false, a)
  end.

Definition reset (a : t) : t := mk AuthState.NotAuthenticated None false.

(** [std::getline(iss, token, delim)] on the unread rest of a stream:
    [None] when nothing is left to extract, otherwise the token and what
    follows its delimiter. *)
Fixpoint getline_from (delim : ascii) (s : string) : string * string :=
  match s with
  | EmptyString => (EmptyString, EmptyString)
  | String c rest =>
      if Ascii.eqb c delim then (EmptyString, rest)
      else let '(token, rest') := getline_from delim rest in (String c token, rest')
  end.

Definition getline (delim : ascii) (iss : string) : option (string * string) :=
  match iss with
  | EmptyString => None
  | _ => Some (getline_from delim iss)
  end.

(** The [while (std::getline(iss, token, '.'))] loop; every round consumes
    at least one character, so [fuel] above the length never runs out. *)
Fixpoint splitTokens_loop (fuel : nat) (iss : string) (tokens : list string)
  : list string :=
  match fuel with
  | O => tokens
  | S fuel' =>
      match getline "." iss with
      | None => tokens
      | Some (token, iss') => splitTokens_loop fuel' iss' (tokens ++ [token])
      end
  end.

Definition splitTokens (s : string) : list string :=
  splitTokens_loop (S (String.length s)) s [].

(** The [while (pi < patternTokens.size() && si < subjectTokens.size())]
    loop on the tokens from [pi] and from [si] on, and the final test that
    both are exhausted. *)
Fixpoint walk (patternTokens subjectTokens : list string) : bool :=
  match patternTokens, subjectTokens with
  | pt :: patternRest, st :: subjectRest =>
      if String.eqb pt ">" then true
      else if String.eqb pt "*" then walk patternRest subjectRest
      else if String.eqb pt st then walk patternRest subjectRest
      else false
  | [], [] => true
  | _, _ => false
  end.

Definition matchesPattern (pattern subject : string) : bool :=
  if String.eqb pattern subject then true
  else walk (splitTokens pattern) (splitTokens subject).

Definition allowed (topics : list string) (subject : string) : bool :=
  match topics with
  | [] => false
  | _ => existsb (fun pattern => matchesPattern pattern subject) topics
  end.

Definition canPublish (a : t) (subject : string) : bool :=
  match deviceInfo_ a with
  | None => false
  | Some info => allowed (allowedPublishTopics info) subject
  end.

Definition canSubscribe (a : t) (subject : string) : bool :=
  match deviceInfo_ a with
  | None => false
  | Some info => allowed (allowedSubscribeTopics info) subject
  end.
End AuthManager.

(** ** reconnect_policy.h, reconnect_policy.cpp *)

Module ReconnectPolicy.
Record t : Type := mk {
  enabled_ : bool;
  initialDelay_ : Duration;
  maxDelay_ : Duration;
  backoffMultiplier_ : double;
  jitterEnabled_ : bool;
  maxJitterFraction_ : double;
  maxAttempts_ : N;
  resubscribe_ : bool;
  attemptCount_ : N
}.

Definition of_config (config : ReconnectConfig.t) : t :=
  mk (ReconnectConfig.enabled config)
     (ReconnectConfig.initialDelay config)
     (ReconnectConfig.maxDelay config)
     (ReconnectConfig.backoffMultiplier config)
     (ReconnectConfig.jitterEnabled config)
     (ReconnectConfig.maxJitterFraction config)
     (ReconnectConfig.maxAttempts config)
     (ReconnectConfig.resubscribeOnReconnect config)
     0.

Definition with_attemptCount (n : N) (p : t) : t :=
  mk (enabled_ p) (initialDelay_ p) (maxDelay_ p) (backoffMultiplier_ p)
     (jitterEnabled_ p) (maxJitterFraction_ p) (maxAttempts_ p) (resubscribe_ p) n.

Definition setEnabled (enabled : bool) (p : t) : t :=
  mk enabled (initialDelay_ p) (maxDelay_ p) (backoffMultiplier_ p)
     (jitterEnabled_ p) (maxJitterFraction_ p) (maxAttempts_ p) (resubscribe_ p)
     (attemptCount_ p).

Definition isEnabled (p : t) : bool := enabled_ p.
Definition getAttemptCount (p : t) : N := attemptCount_ p.
Definition shouldResubscribe (p : t) : bool := resubscribe_ p.

Definition shouldReconnect (p : t) : bool :=
  if negb (enabled_ p) then false
  else if (0 <? maxAttempts_ p)%N && (maxAttempts_ p <=? attemptCount_ p)%N then false
  else true.

Definition reset (p : t) : t := with_attemptCount 0 p.

(** [calculateDelay].  The product and the power are rounded to binary64;
    [std::pow] is taken as correctly rounded, which the C library does not
    promise in the last bit. *)
Definition calculateDelay (p : t) : Duration :=
  if (attemptCount_ p <=? 1)%N then initialDelay_ p
  else
    let power :=
      round64 (round64 (backoffMultiplier_ p) ^ Z.of_N (attemptCount_ p - 1)) in
    let delayMs := round64 (to_double (initialDelay_ p) * power) in
    let delayMs := std_min delayMs (to_double (maxDelay_ p)) in
    trunc delayMs.

(** [addJitter]; [sample] is the draw from the uniform distribution on
    [-maxJitterFraction_, maxJitterFraction_]. *)
Definition addJitter (sample : double) (delay : Duration) (p : t) : Duration :=
  if negb (jitterEnabled_ p) || Qle_bool (maxJitterFraction_ p) 0 then delay
  else
    let jitterFactor := round64 (1 + round64 sample) in
    let jitteredMs := trunc (round64 (to_double delay * jitterFactor)) in
    let jitteredMs := Z.max 1 jitteredMs in
    Z.min jitteredMs (maxDelay_ p).

Definition getNextDelay (sample : double) (p : t) : Duration * t :=
  if negb (shouldReconnect p) then (0, p)
  else
    let p := with_attemptCount (wrap_u32 (attemptCount_ p + 1)) p in
    let delay := calculateDelay p in
    let delay := if jitterEnabled_ p then addJitter sample delay p else delay in
    (delay, p).
End ReconnectPolicy.

(** ** transport.h, websocket_transport.cpp: the transport's state *)

Module TransportState.
Inductive t : Type :=
| Disconnected | Connecting | Connected | Closing | Closed | Error.
End TransportState.

(** How a call of [WebSocketTransport::connect] proceeds once it is past the
    test for an open connection. *)
Inductive ConnectOutcome : Type :=
| InvalidUrl                         (* parseUrl fails *)
| ContextFailed                      (* no context, or no connection handle *)
| Established                        (* LWS_CALLBACK_CLIENT_ESTABLISHED *)
| ConnectionError (what : string)    (* LWS_CALLBACK_CLIENT_CONNECTION_ERROR *)
| ClosedWhileConnecting              (* LWS_CALLBACK_CLIENT_CLOSED *)
| TimedOut.                          (* the timeout of the wait loop *)

(** What [lws_service] delivers during [transport_->poll]. *)
Inductive TransportEvent : Type :=
| PeerClosed                         (* LWS_CALLBACK_CLIENT_CLOSED *)
| Receive (parsed : option json)     (* LWS_CALLBACK_CLIENT_RECEIVE *)
| WriteFailed.                       (* lws_write fails *)

(** ** gateway_device.h *)

Module ClientCallbacks.
(** Which of the callbacks are set. *)
Record t : Type := mk {
  onConnected : bool;
  onDisconnected : bool;
  onReconnecting : bool;
  onError : bool;
  onStateChanged : bool
}.
Definition none : t := mk false false false false false.
End ClientCallbacks.

Module ClientStats.
(** The counters the engine writes; the byte counters need the size of
    the JSON text and are left out. *)
Record t : Type := mk {
  messagesSent : N;
  messagesReceived : N;
  errorCount : N;
  connectedAt : Timestamp;
  lastActivityAt : Timestamp
}.
Definition init : t := mk 0 0 0 0 0.
End ClientStats.

(** What the engine does to the outside. *)
Inductive Effect : Type :=
| TransportConnect (url : string) (timeout : Duration)
| TransportDisconnect (code : Z) (reason : string)
| TransportSend (frame : json) (queued : bool)
| OnConnected
| OnDisconnected (code : ErrorCode.t) (reason : string)
| OnReconnecting (attempt : N)
| OnError (code : ErrorCode.t) (message : string)
| OnStateChanged (oldState newState : ConnectionState.t)
| HandlerInvoked (handler : HandlerRef) (subject : string) (payload : JsonValue)
                 (fullMessage : Message)
| Sleep (delay : Duration).

(** The clocks and the time zone an operation reads. *)
Record Env : Type := mkEnv {
  system_now : Timestamp;
  steady_now : SteadyTime;
  utc_offset : Z
}.

(** ** gateway_client.cpp: [GatewayClient::Impl] *)

Module Impl.

Record t : Type := mk {
  config_ : GatewayConfig.t;
  transport_ : TransportState.t;
  state_ : ConnectionState.t;
  authManager_ : AuthManager.t;
  reconnectPolicy_ : ReconnectPolicy.t;
  subscriptions_ : list (SubscriptionId * Subscription);
  subjectToId_ : gmap string SubscriptionId;
  nextSubscriptionId_ : SubscriptionId;
  callbacks_ : ClientCallbacks.t;
  stats_ : ClientStats.t;
  lastPingSent_ : SteadyTime;
  lastPongReceived_ : SteadyTime;
  missedPongs_ : N;
  trace : list Effect
}.

Definition init (config : GatewayConfig.t) : t :=
  mk config TransportState.Disconnected ConnectionState.Disconnected
     AuthManager.init (ReconnectPolicy.of_config (GatewayConfig.reconnect config))
     [] ∅ 1%N ClientCallbacks.none ClientStats.init 0 0 0%N [].

Definition set_transport (x : TransportState.t) (c : t) : t :=
  mk (config_ c) x (state_ c) (authManager_ c) (reconnectPolicy_ c) (subscriptions_ c) (subjectToId_ c) (nextSubscriptionId_ c) (callbacks_ c) (stats_ c) (lastPingSent_ c) (lastPongReceived_ c) (missedPongs_ c) (trace c).
Definition set_state (x : ConnectionState.t) (c : t) : t :=
  mk (config_ c) (transport_ c) x (authManager_ c) (reconnectPolicy_ c) (subscriptions_ c) (subjectToId_ c) (nextSubscriptionId_ c) (callbacks_ c) (stats_ c) (lastPingSent_ c) (lastPongReceived_ c) (missedPongs_ c) (trace c).
Definition set_authManager (x : AuthManager.t) (c : t) : t :=
  mk (config_ c) (transport_ c) (state_ c) x (reconnectPolicy_ c) (subscriptions_ c) (subjectToId_ c) (nextSubscriptionId_ c) (callbacks_ c) (stats_ c) (lastPingSent_ c) (lastPongReceived_ c) (missedPongs_ c) (trace c).
Definition set_reconnectPolicy (x : ReconnectPolicy.t) (c : t) : t :=
  mk (config_ c) (transport_ c) (state_ c) (authManager_ c) x (subscriptions_ c) (subjectToId_ c) (nextSubscriptionId_ c) (callbacks_ c) (stats_ c) (lastPingSent_ c) (lastPongReceived_ c) (missedPongs_ c) (trace c).
Definition set_subscriptions (x : list (SubscriptionId * Subscription)) (c : t) : t :=
  mk (config_ c) (transport_ c) (state_ c) (authManager_ c) (reconnectPolicy_ c) x (subjectToId_ c) (nextSubscriptionId_ c) (callbacks_ c) (stats_ c) (lastPingSent_ c) (lastPongReceived_ c) (missedPongs_ c) (trace c).
Definition set_subjectToId (x : gmap string SubscriptionId) (c : t) : t :=
  mk (config_ c) (transport_ c) (state_ c) (authManager_ c) (reconnectPolicy_ c) (subscriptions_ c) x (nextSubscriptionId_ c) (callbacks_ c) (stats_ c) (lastPingSent_ c) (lastPongReceived_ c) (missedPongs_ c) (trace c).
Definition set_nextSubscriptionId (x : SubscriptionId) (c : t) : t :=
  mk (config_ c) (transport_ c) (state_ c) (authManager_ c) (reconnectPolicy_ c) (subscriptions_ c) (subjectToId_ c) x (callbacks_ c) (stats_ c) (lastPingSent_ c) (lastPongReceived_ c) (missedPongs_ c) (trace c).
Definition set_callbacks (x : ClientCallbacks.t) (c : t) : t :=
  mk (config_ c) (transport_ c) (state_ c) (authManager_ c) (reconnectPolicy_ c) (subscriptions_ c) (subjectToId_ c) (nextSubscriptionId_ c) x (stats_ c) (lastPingSent_ c) (lastPongReceived_ c) (missedPongs_ c) (trace c).
Definition set_stats (x : ClientStats.t) (c : t) : t :=
  mk (config_ c) (transport_ c) (state_ c) (authManager_ c) (reconnectPolicy_ c) (subscriptions_ c) (subjectToId_ c) (nextSubscriptionId_ c) (callbacks_ c) x (lastPingSent_ c) (lastPongReceived_ c) (missedPongs_ c) (trace c).
Definition set_lastPingSent (x : SteadyTime) (c : t) : t :=
  mk (config_ c) (transport_ c) (state_ c) (authManager_ c) (reconnectPolicy_ c) (subscriptions_ c) (subjectToId_ c) (nextSubscriptionId_ c) (callbacks_ c) (stats_ c) x (lastPongReceived_ c) (missedPongs_ c) (trace c).
Definition set_lastPongReceived (x : SteadyTime) (c : t) : t :=
  mk (config_ c) (transport_ c) (state_ c) (authManager_ c) (reconnectPolicy_ c) (subscriptions_ c) (subjectToId_ c) (nextSubscriptionId_ c) (callbacks_ c) (stats_ c) (lastPingSent_ c) x (missedPongs_ c) (trace c).
Definition set_missedPongs (x : N) (c : t) : t :=
  mk (config_ c) (transport_ c) (state_ c) (authManager_ c) (reconnectPolicy_ c) (subscriptions_ c) (subjectToId_ c) (nextSubscriptionId_ c) (callbacks_ c) (stats_ c) (lastPingSent_ c) (lastPongReceived_ c) x (trace c).
Definition set_trace (x : list Effect) (c : t) : t :=
  mk (config_ c) (transport_ c) (state_ c) (authManager_ c) (reconnectPolicy_ c) (subscriptions_ c) (subjectToId_ c) (nextSubscriptionId_ c) (callbacks_ c) (stats_ c) (lastPingSent_ c) (lastPongReceived_ c) (missedPongs_ c) x.

Definition emit (e : Effect) (c : t) : t := set_trace (trace c ++ [e]) c.

(** Invoke a user callback if it is set. *)
Definition fire (is_set : bool) (e : Effect) (c : t) : t :=
  if is_set then emit e c else c.

(** *** The key-ordered [std::map<SubscriptionId, Subscription>] *)

Fixpoint map_assign (id : SubscriptionId) (sub : Subscription)
         (m : list (SubscriptionId * Subscription)) : list (SubscriptionId * Subscription) :=
  match m with
  | [] => [(id, sub)]
  | (k, x) :: rest =>
      if (k =? id)%N then (k, sub) :: rest
      else if (id <? k)%N then (id, sub) :: (k, x) :: rest
      else (k, x) :: map_assign id sub rest
  end.

Fixpoint map_erase (id : SubscriptionId) (m : list (SubscriptionId * Subscription))
  : list (SubscriptionId * Subscription) :=
  match m with
  | [] => []
  | (k, x) :: rest => if (k =? id)%N then rest else (k, x) :: map_erase id rest
  end.

Fixpoint map_find (id : SubscriptionId) (m : list (SubscriptionId * Subscription))
  : option Subscription :=
  match m with
  | [] => None
  | (k, x) :: rest => if (k =? id)%N then Some x else map_find id rest
  end.

(** *** The transport, as the engine drives it *)

(** [WebSocketTransport::send].  The engine's own frames (Subscribe,
    Unsubscribe, Ping and the re-sent subscriptions) carry a subject that
    passed [isValidSubject], or none, and no payload: [serialize] does not
    throw on them (lemma [engine_frames_dump]), so these operations have no
    exceptional outcome.  [publish] and [doAuthentication] serialize the
    caller's strings and have one. *)
Definition transport_send (frame : json) (c : t) : Result unit * t :=
  match transport_ c with
  | TransportState.Connected => (Ok tt, emit (TransportSend frame true) c)
  | _ => (Err ErrorCode.NotConnected "Not connected", emit (TransportSend frame false) c)
  end.

Definition resubscribeAll (env : Env) (c : t) : t :=
  if negb (ReconnectPolicy.shouldResubscribe (reconnectPolicy_ c)) then c
  else
    fold_left
      (fun c (entry : SubscriptionId * Subscription) =>
         let sub := snd entry in
         if sub_active sub
         then snd (transport_send
                     (Protocol.serialize (system_now env) (Message.subscribe (sub_subject sub))) c)
         else c)
      (subscriptions_ c) c.

Definition setState (env : Env) (newState : ConnectionState.t) (c : t) : t :=
  let oldState := state_ c in
  let c := set_state newState c in
  if negb (ConnectionState.eqb oldState newState) then
    let c := fire (ClientCallbacks.onStateChanged (callbacks_ c))
                  (OnStateChanged oldState newState) c in
    match newState with
    | ConnectionState.Connected => resubscribeAll env c
    | _ => c
    end
  else c.

(** The callbacks installed by [setupTransportCallbacks]. *)
Definition onTransportConnected (env : Env) (c : t) : t :=
  setState env ConnectionState.Authenticating c.

Definition onTransportDisconnected (env : Env) (code : ErrorCode.t) (reason : string)
           (c : t) : t :=
  if ReconnectPolicy.isEnabled (reconnectPolicy_ c)
     && ReconnectPolicy.shouldReconnect (reconnectPolicy_ c)
  then setState env ConnectionState.Reconnecting c
  else
    let c := setState env ConnectionState.Disconnected c in
    fire (ClientCallbacks.onDisconnected (callbacks_ c)) (OnDisconnected code reason) c.

Definition onTransportError (code : ErrorCode.t) (message : string) (c : t) : t :=
  let stats := stats_ c in
  let c := set_stats (ClientStats.mk (ClientStats.messagesSent stats)
                                     (ClientStats.messagesReceived stats)
                                     (wrap_u32 (ClientStats.errorCount stats + 1))
                                     (ClientStats.connectedAt stats)
                                     (ClientStats.lastActivityAt stats)) c in
  fire (ClientCallbacks.onError (callbacks_ c)) (OnError code message) c.

(** The body of [WebSocketTransport::disconnect]. *)
Definition transport_close (env : Env) (reason : string) (c : t) : t :=
  match transport_ c with
  | TransportState.Disconnected | TransportState.Closed => c
  | _ =>
      let c := set_transport TransportState.Closed c in
      onTransportDisconnected env ErrorCode.Success reason c
  end.

(** [transport_->disconnect(code, reason)] called by the engine. *)
Definition transport_disconnect (env : Env) (code : Z) (reason : string) (c : t) : t :=
  transport_close env reason (emit (TransportDisconnect code reason) c).

(** [transport_->connect(url, timeout)] called by the engine; the call
    returns when the transport has left its connecting state. *)
Definition transport_connect (env : Env) (outcome : ConnectOutcome) (c : t)
  : Result unit * t :=
  let c := emit (TransportConnect (GatewayConfig.gatewayUrl (config_ c))
                                  (GatewayConfig.connectTimeout (config_ c))) c in
  match transport_ c with
  | TransportState.Connected | TransportState.Connecting =>
      (Err ErrorCode.AlreadyConnected "Already connected or connecting", c)
  | _ =>
      match outcome with
      | InvalidUrl => (Err ErrorCode.ConnectionFailed "Invalid URL", c)
      | ContextFailed =>
          (Err ErrorCode.ConnectionFailed "Failed to initiate connection",
           set_transport TransportState.Error c)
      | Established =>
          (Ok tt, onTransportConnected env (set_transport TransportState.Connected c))
      | ConnectionError what =>
          (Err ErrorCode.ConnectionFailed "Connection failed",
           onTransportError ErrorCode.ConnectionFailed what
                            (set_transport TransportState.Error c))
      | ClosedWhileConnecting =>
          (Err ErrorCode.ConnectionFailed "Connection failed",
           onTransportDisconnected env ErrorCode.ConnectionClosed "Connection closed"
                                   (set_transport TransportState.Closed c))
      | TimedOut =>
          (Err ErrorCode.ConnectionTimeout "Connection timed out",
           transport_close env "Connection timeout"
                           (set_transport TransportState.Connecting c))
      end
  end.

(** *** Inbound frames *)

Definition note_received (env : Env) (c : t) : t :=
  let stats := stats_ c in
  set_stats (ClientStats.mk (ClientStats.messagesSent stats)
                            (wrap_u64 (ClientStats.messagesReceived stats + 1))
                            (ClientStats.errorCount stats)
                            (ClientStats.connectedAt stats)
                            (system_now env)) c.

Definition note_sent (env : Env) (c : t) : t :=
  let stats := stats_ c in
  set_stats (ClientStats.mk (wrap_u64 (ClientStats.messagesSent stats + 1))
                            (ClientStats.messagesReceived stats)
                            (ClientStats.errorCount stats)
                            (ClientStats.connectedAt stats)
                            (system_now env)) c.

Definition note_connected (env : Env) (c : t) : t :=
  let stats := stats_ c in
  set_stats (ClientStats.mk (ClientStats.messagesSent stats)
                            (ClientStats.messagesReceived stats)
                            (ClientStats.errorCount stats)
                            (system_now env)
                            (ClientStats.lastActivityAt stats)) c.

Definition handleAuthMessage (env : Env) (msg : Message) (c : t) : t :=
  let '(handled, auth) := AuthManager.handleMessage msg (authManager_ c) in
  let c := set_authManager auth c in
  if handled then
    if AuthManager.isAuthenticated (authManager_ c) then
      let c := set_reconnectPolicy (ReconnectPolicy.reset (reconnectPolicy_ c)) c in
      let c := setState env ConnectionState.Connected c in
      let c := note_connected env c in
      fire (ClientCallbacks.onConnected (callbacks_ c)) OnConnected c
    else setState env ConnectionState.Disconnected c
  else c.

(** [pattern.back()]; the subjects held by the registry are never empty. *)
Definition ends_with_gt (pattern : string) : bool :=
  bool_decide (Protocol.back pattern = Some ">"%char).

Definition contains_char (ch : ascii) (s : string) : bool :=
  existsb (Ascii.eqb ch) (list_ascii_of_string s).

Definition matchesSubject (pattern subject : string) : bool :=
  if String.eqb pattern subject then true
  else if ends_with_gt pattern then
    let prefix := String.substring 0 (String.length pattern - 1) pattern in
    String.prefix prefix subject
  else if contains_char "*" pattern then true
  else false.

Definition handleSubscriptionMessage (msg : Message) (c : t) : t :=
  fold_left
    (fun c (entry : SubscriptionId * Subscription) =>
       let sub := snd entry in
       if sub_active sub && matchesSubject (sub_subject sub) (subject msg) then
         match sub_handler sub with
         | Some handler => emit (HandlerInvoked handler (subject msg) (payload msg) msg) c
         | None => c
         end
       else c)
    (subscriptions_ c) c.

Definition handleErrorMessage (msg : Message) (c : t) : t :=
  let errorMsg := if JsonValue.contains (payload msg) "message"
                  then JsonValue.asString (JsonValue.at_key (payload msg) "message")
                  else "Unknown error" in
  fire (ClientCallbacks.onError (callbacks_ c)) (OnError ErrorCode.InternalError errorMsg) c.

Definition handlePongMessage (env : Env) (c : t) : t :=
  set_missedPongs 0%N (set_lastPongReceived (steady_now env) c).

Definition handleMessage (env : Env) (parsed : option json) (c : t) : t :=
  match Protocol.deserialize (utc_offset env) parsed with
  | Err _ _ => c
  | Ok msg =>
      let c := note_received env c in
      match type msg with
      | MessageType.Auth => handleAuthMessage env msg c
      | MessageType.Message => handleSubscriptionMessage msg c
      | MessageType.Ack => c
      | MessageType.Error => handleErrorMessage msg c
      | MessageType.Pong => handlePongMessage env c
      | _ => c
      end
  end.

Definition deliver (env : Env) (e : TransportEvent) (c : t) : t :=
  match e with
  | PeerClosed =>
      onTransportDisconnected env ErrorCode.ConnectionClosed "Connection closed"
                              (set_transport TransportState.Closed c)
  | Receive parsed => handleMessage env parsed c
  | WriteFailed => onTransportError ErrorCode.InternalError "Write failed" c
  end.

(** *** [connect], phase by phase

    [connect] blocks twice on a condition variable while the polling
    thread runs; each phase below is the code between two waits. *)

(** Up to the first wait.  [Some b]: the call returned [b]. *)
Definition connect_begin (env : Env) (outcome : ConnectOutcome) (c : t)
  : option bool * t :=
  match state_ c with
  | ConnectionState.Connected => (Some true, c)
  | ConnectionState.Connecting | ConnectionState.Authenticating => (Some false, c)
  | _ =>
      let c := setState env ConnectionState.Connecting c in
      let '(result, c) := transport_connect env outcome c in
      if failed result then (Some false, setState env ConnectionState.Disconnected c)
      else (None, c)
  end.

(** The first wait runs out: the state is neither [Authenticating] nor
    [Disconnected]. *)
Definition connect_timeout (env : Env) (c : t) : t :=
  match state_ c with
  | ConnectionState.Authenticating | ConnectionState.Disconnected => c
  | _ =>
      let c := transport_disconnect env 1000 "Connection timeout" c in
      setState env ConnectionState.Disconnected c
  end.

(** [doAuthentication] up to its wait.  [Returns (Some false)]: the request
    could not be sent; [Returns None]: the call waits for the response;
    [Throws]: [serialize] threw on the strings of the configuration, and
    the exception leaves [connect()]. *)
Definition doAuthentication (env : Env) (c : t) : Outcome (option bool) * t :=
  let c := setState env ConnectionState.Authenticating c in
  let c := set_authManager (AuthManager.startAuth (authManager_ c)) c in
  let authMsg := AuthManager.createAuthRequest (config_ c) in
  if Protocol.serialize_throws (system_now env) authMsg then (Throws, c)
  else
    let '(result, c) := transport_send (Protocol.serialize (system_now env) authMsg) c in
    if failed result then (Returns (Some false), setState env ConnectionState.Disconnected c)
    else (Returns None, c).

(** The first wait is satisfied. *)
Definition connect_resume (env : Env) (c : t) : Outcome (option bool) * t :=
  match state_ c with
  | ConnectionState.Disconnected => (Returns (Some false), c)
  | ConnectionState.Authenticating => doAuthentication env c
  | _ => (Returns None, c)
  end.

(** The wait of [doAuthentication] runs out: not authenticated and not
    [Disconnected]. *)
Definition auth_timeout (env : Env) (c : t) : t :=
  if AuthManager.isAuthenticated (authManager_ c)
     || ConnectionState.eqb (state_ c) ConnectionState.Disconnected
  then c
  else
    let c := transport_disconnect env 1000 "Authentication timeout" c in
    setState env ConnectionState.Disconnected c.

Definition connectAsync (env : Env) (outcome : ConnectOutcome) (c : t)
  : Result unit * t :=
  match state_ c with
  | ConnectionState.Connected | ConnectionState.Connecting
  | ConnectionState.Authenticating =>
      (Err ErrorCode.AlreadyConnected "Already connected or connecting", c)
  | _ =>
      let c := setState env ConnectionState.Connecting c in
      let '(result, c) := transport_connect env outcome c in
      if failed result then (result, setState env ConnectionState.Disconnected c)
      else (Ok tt, c)
  end.

Definition disconnect (env : Env) (c : t) : t :=
  match state_ c with
  | ConnectionState.Disconnected | ConnectionState.Closed => c
  | _ =>
      let c := set_reconnectPolicy
                 (ReconnectPolicy.setEnabled false (reconnectPolicy_ c)) c in
      let c := setState env ConnectionState.Closing c in
      let c := transport_disconnect env 1000 "Client disconnect" c in
      let c := set_authManager (AuthManager.reset (authManager_ c)) c in
      setState env ConnectionState.Closed c
  end.

(** *** Publish and the subscription registry *)

(** [publish].  A subject that [canPublish] refuses is only logged.  The
    payload is the caller's: [serialize] may throw on it, and the exception
    leaves [publish] with the lock released and nothing changed. *)
Definition publish (env : Env) (subject : string) (payload : JsonValue) (c : t)
  : Outcome (Result unit) * t :=
  match state_ c with
  | ConnectionState.Connected =>
      if negb (Protocol.isValidSubject subject)
      then (Returns (Err ErrorCode.InvalidSubject ("Invalid subject: " ++ subject)), c)
      else
        let msg := Message.publish subject payload in
        if Protocol.serialize_throws (system_now env) msg then (Throws, c)
        else
          let '(result, c) := transport_send (Protocol.serialize (system_now env) msg) c in
          if failed result then (Returns result, c) else (Returns result, note_sent env c)
  | _ => (Returns (Err ErrorCode.NotConnected "Not connected"), c)
  end.

Definition subscribe (env : Env) (subject : string) (handler : option HandlerRef)
           (c : t) : Result SubscriptionId * t :=
  match state_ c with
  | ConnectionState.Connected =>
      if negb (Protocol.isValidSubject subject)
      then (Err ErrorCode.InvalidSubject "Invalid subject", c)
      else
        let id := nextSubscriptionId_ c in
        let c := set_nextSubscriptionId (wrap_u64 (id + 1)) c in
        let sub := mkSubscription id subject handler true in
        let c := set_subscriptions (map_assign id sub (subscriptions_ c)) c in
        let c := set_subjectToId (<[subject := id]> (subjectToId_ c)) c in
        let msg := Message.subscribe subject in
        let '(result, c) := transport_send (Protocol.serialize (system_now env) msg) c in
        match result with
        | Err e m =>
            let c := set_subscriptions (map_erase id (subscriptions_ c)) c in
            let c := set_subjectToId (delete subject (subjectToId_ c)) c in
            (Err e m, c)
        | Ok _ => (Ok id, c)
        end
  | _ => (Err ErrorCode.NotConnected "Not connected", c)
  end.

Definition unsubscribe (env : Env) (id : SubscriptionId) (c : t) : Result unit * t :=
  match map_find id (subscriptions_ c) with
  | None => (Err ErrorCode.NotSubscribed "Subscription not found", c)
  | Some sub =>
      let subject := sub_subject sub in
      let c := match state_ c with
               | ConnectionState.Connected =>
                   snd (transport_send
                          (Protocol.serialize (system_now env) (Message.unsubscribe subject)) c)
               | _ => c
               end in
      let c := set_subjectToId (delete subject (subjectToId_ c)) c in
      let c := set_subscriptions (map_erase id (subscriptions_ c)) c in
      (Ok tt, c)
  end.

Definition unsubscribe_subject (env : Env) (subject : string) (c : t) : Result unit * t :=
  match subjectToId_ c !! subject with
  | None => (Err ErrorCode.NotSubscribed "Not subscribed", c)
  | Some id => unsubscribe env id c
  end.

Definition getSubscriptions (c : t) : list string :=
  List.map (fun entry : SubscriptionId * Subscription => sub_subject (snd entry))
           (List.filter (fun entry : SubscriptionId * Subscription => sub_active (snd entry))
                        (subscriptions_ c)).

(** *** [poll] *)

Definition processHeartbeat (env : Env) (c : t) : t :=
  let now := steady_now env in
  let heartbeat := GatewayConfig.heartbeat (config_ c) in
  let c := if HeartbeatConfig.interval heartbeat <=? now - lastPingSent_ c then
             let c := snd (transport_send
                             (Protocol.serialize (system_now env) Message.ping) c) in
             set_lastPingSent now c
           else c in
  if negb (lastPongReceived_ c =? 0) then
    let sincePong := now - lastPongReceived_ c in
    if HeartbeatConfig.timeout heartbeat <? sincePong then
      let c := set_missedPongs (wrap_u32 (missedPongs_ c + 1)) c in
      if (HeartbeatConfig.missedPongsBeforeDisconnect heartbeat <=? missedPongs_ c)%N
      then transport_disconnect env 1000 "Heartbeat timeout" c
      else c
    else c
  else c.

Definition processReconnection (env : Env) (outcome : ConnectOutcome) (sample : double)
           (c : t) : t :=
  if negb (ReconnectPolicy.shouldReconnect (reconnectPolicy_ c))
  then setState env ConnectionState.Disconnected c
  else
    let '(delay, policy) := ReconnectPolicy.getNextDelay sample (reconnectPolicy_ c) in
    let c := set_reconnectPolicy policy c in
    let attempt := ReconnectPolicy.getAttemptCount (reconnectPolicy_ c) in
    let c := fire (ClientCallbacks.onReconnecting (callbacks_ c)) (OnReconnecting attempt) c in
    let c := emit (Sleep delay) c in
    snd (transport_connect env outcome c).

(** [poll]: [events] is what the transport delivers during
    [transport_->poll]; [outcome] and [sample] are used if a reconnection is
    attempted. *)
Definition poll (env : Env) (events : list TransportEvent) (outcome : ConnectOutcome)
           (sample : double) (c : t) : t :=
  let c := fold_left (fun c e => deliver env e c) events c in
  let c := match state_ c with
           | ConnectionState.Connected =>
               if HeartbeatConfig.enabled (GatewayConfig.heartbeat (config_ c))
               then processHeartbeat env c else c
           | _ => c
           end in
  match state_ c with
  | ConnectionState.Reconnecting => processReconnection env outcome sample c
  | _ => c
  end.

(** *** Runs of the engine *)

Inductive Call : Type :=
| CallConnect (outcome : ConnectOutcome)
| ConnectWaitTimeout
| ConnectWaitDone
| AuthWaitTimeout
| CallConnectAsync (outcome : ConnectOutcome)
| CallDisconnect
| CallPublish (subject : string) (payload : JsonValue)
| CallSubscribe (subject : string) (handler : option HandlerRef)
| CallUnsubscribe (id : SubscriptionId)
| CallUnsubscribeSubject (subject : string)
| CallPoll (events : list TransportEvent) (outcome : ConnectOutcome) (sample : double)
| CallSetCallbacks (callbacks : ClientCallbacks.t).

Definition step (c : t) (ec : Env * Call) : t :=
  let '(env, call) := ec in
  match call with
  | CallConnect outcome => snd (connect_begin env outcome c)
  | ConnectWaitTimeout => connect_timeout env c
  | ConnectWaitDone => snd (connect_resume env c)
  | AuthWaitTimeout => auth_timeout env c
  | CallConnectAsync outcome => snd (connectAsync env outcome c)
  | CallDisconnect => disconnect env c
  | CallPublish subject payload => snd (publish env subject payload c)
  | CallSubscribe subject handler => snd (subscribe env subject handler c)
  | CallUnsubscribe id => snd (unsubscribe env id c)
  | CallUnsubscribeSubject subject => snd (unsubscribe_subject env subject c)
  | CallPoll events outcome sample => poll env events outcome sample c
  | CallSetCallbacks callbacks => set_callbacks callbacks c
  end.

Definition run (calls : list (Env * Call)) (c : t) : t := fold_left step calls c.

Definition reachable (config : GatewayConfig.t) (c : t) : Prop :=
  exists calls, c = run calls (init config).
End Impl.

(** ** The specification's side *)

Module Spec.

(** Section 4.1, the walk in lockstep over the two token lists, from
    position [i] on: [>] succeeds when the subject still has a token at
    its position, [*] and a literal consume one subject token each, and
    otherwise both lists end together. *)
Inductive Lockstep : list string -> list string -> Prop :=
| Lockstep_exhausted : Lockstep [] []
| Lockstep_gt : forall patternRest st subjectRest,
    Lockstep (">" :: patternRest) (st :: subjectRest)
| Lockstep_star : forall patternRest st subjectRest,
    Lockstep patternRest subjectRest ->
    Lockstep ("*" :: patternRest) (st :: subjectRest)
| Lockstep_literal : forall token patternRest subjectRest,
    Lockstep patternRest subjectRest ->
    Lockstep (token :: patternRest) (token :: subjectRest).

(** Splitting at every dot, keeping every token. *)
Fixpoint split_dots (current : string) (s : string) : list string :=
  match s with
  | EmptyString => [current]
  | String c rest =>
      if Ascii.eqb c "." then current :: split_dots "" rest
      else split_dots (current ++ String c "") rest
  end.

(** The handler invocations a dispatch owes to one registry entry. *)
Definition invocation (matches : string -> string -> bool) (msg : Message)
           (entry : SubscriptionId * Subscription) : list Effect :=
  let sub := snd entry in
  if sub_active sub && matches (sub_subject sub) (subject msg) then
    match sub_handler sub with
    | Some handler => [HandlerInvoked handler (subject msg) (payload msg) msg]
    | None => []
    end
  else [].

Definition invocations (matches : string -> string -> bool) (msg : Message)
           (registry : list (SubscriptionId * Subscription)) : list Effect :=
  flat_map (invocation matches msg) registry.

(** How often a handler is invoked in a trace. *)
Definition times_invoked (handler : HandlerRef) (tr : list Effect) : nat :=
  List.length (List.filter (fun e => match e with
                                  | HandlerInvoked h _ _ _ => Nat.eqb h handler
                                  | _ => false
                                  end) tr).
(** Section 4.3: min(initialDelay × multiplier^(n−1), maxDelay). *)
Definition base_delay (p : ReconnectPolicy.t) (n : N) : double :=
  std_min (inject_Z (ReconnectPolicy.initialDelay_ p)
           * ReconnectPolicy.backoffMultiplier_ p ^ Z.of_N (n - 1))%Q
          (inject_Z (ReconnectPolicy.maxDelay_ p)).

(** The [n]-th of [n] successive calls of [getNextDelay] (jitter samples
    all zero), with the policy it leaves. *)
Fixpoint nth_call (n : nat) (p : ReconnectPolicy.t) : Duration * ReconnectPolicy.t :=
  match n with
  | O => (0, p)
  | S O => ReconnectPolicy.getNextDelay 0%Q p
  | S n' => nth_call n' (snd (ReconnectPolicy.getNextDelay 0%Q p))
  end.

(** The fields of an envelope that [deserialize] reads as strings hold
    strings where they are present. *)
Definition string_or_absent (members : list (string * json)) (key : string) : bool :=
  match Json.find key members with
  | None | Some (j_string _) => true
  | Some _ => false
  end.

Definition string_fields_typed (members : list (string * json)) : bool :=
  string_or_absent members "subject" && string_or_absent members "correlationId"
  && string_or_absent members "timestamp" && string_or_absent members "deviceId".

Definition known_field (key : string) : bool :=
  existsb (String.eqb key)
          ["type"; "subject"; "payload"; "correlationId"; "timestamp"; "deviceId"].
(** The Subscribe frames a re-subscription owes to a registry: one for
    every active entry, in the order of the registry. *)
Definition resubscriptions (env : Env) (queued : bool)
           (registry : list (SubscriptionId * Subscription)) : list Effect :=
  List.map (fun entry : SubscriptionId * Subscription =>
              TransportSend (Protocol.serialize (system_now env)
                                                (Message.subscribe (sub_subject (snd entry))))
                            queued)
           (List.filter (fun entry : SubscriptionId * Subscription => sub_active (snd entry))
                        registry).

Definition transport_connected (c : Impl.t) : bool :=
  match Impl.transport_ c with TransportState.Connected => true | _ => false end.

(** An Auth envelope whose payload says [success: true]. *)
Definition auth_success (msg : Message) : bool :=
  MessageType.eqb (type msg) MessageType.Auth
  && AuthResult.success (AuthManager.processAuthResponse msg).

Definition not_reconnecting (e : Effect) : Prop := forall n, e <> OnReconnecting n.

(** *** Properties of the client that every operation keeps

    [Stable P okS]: [P] survives the elementary updates the operations are
    made of; [okS] are the connection states that may be entered without
    further ado. *)
Record Stable (P : Impl.t -> Prop) (okS : ConnectionState.t -> Prop) : Prop := {
  st_emit : forall e c, not_reconnecting e -> P c -> P (Impl.emit e c);
  st_emit_reconnecting : forall n c,
      ReconnectPolicy.enabled_ (Impl.reconnectPolicy_ c) = true ->
      P c -> P (Impl.emit (OnReconnecting n) c);
  st_state : forall s c, okS s -> P c -> P (Impl.set_state s c);
  st_reconnecting : forall c,
      P c -> ReconnectPolicy.enabled_ (Impl.reconnectPolicy_ c) = true ->
      okS ConnectionState.Reconnecting;
  st_connecting : okS ConnectionState.Connecting;
  st_authenticating : okS ConnectionState.Authenticating;
  st_disconnected : okS ConnectionState.Disconnected;
  st_transport : forall x c, P c -> P (Impl.set_transport x c);
  st_stats : forall x c, P c -> P (Impl.set_stats x c);
  st_lastPingSent : forall x c, P c -> P (Impl.set_lastPingSent x c);
  st_lastPongReceived : forall x c, P c -> P (Impl.set_lastPongReceived x c);
  st_missedPongs : forall x c, P c -> P (Impl.set_missedPongs x c);
  st_callbacks : forall x c, P c -> P (Impl.set_callbacks x c);
  st_policy : forall p c,
      ReconnectPolicy.enabled_ p = ReconnectPolicy.enabled_ (Impl.reconnectPolicy_ c) ->
      P c -> P (Impl.set_reconnectPolicy p c)
}.

(** [StableOps P]: [P] survives the operations that touch the
    authentication manager or the registry. *)
Record StableOps (P : Impl.t -> Prop) : Prop := {
  so_handleAuthMessage : forall env msg c, P c -> P (Impl.handleAuthMessage env msg c);
  so_doAuthentication : forall env c, P c -> P (snd (Impl.doAuthentication env c));
  so_disconnect : forall env c, P c -> P (Impl.disconnect env c);
  so_subscribe : forall env subject handler c,
      P c -> P (snd (Impl.subscribe env subject handler c));
  so_unsubscribe : forall env id c, P c -> P (snd (Impl.unsubscribe env id c))
}.

(** The parts of the client that only the operations of [StableOps]
    change. *)
Definition Frame (auth : AuthManager.t) (enabled : bool)
           (registry : list (SubscriptionId * Subscription)) (c : Impl.t) : Prop :=
  Impl.authManager_ c = auth
  /\ ReconnectPolicy.enabled_ (Impl.reconnectPolicy_ c) = enabled
  /\ Impl.subscriptions_ c = registry.

(** What holds of the authentication manager in every state the engine
    rests in. *)
Definition AuthInvariant (c : Impl.t) : Prop :=
  (Impl.state_ c = ConnectionState.Connected ->
   AuthManager.state_ (Impl.authManager_ c) = AuthState.Authenticated)
  /\ (Impl.state_ c = ConnectionState.Closed ->
      AuthManager.state_ (Impl.authManager_ c) = AuthState.NotAuthenticated
      /\ AuthManager.deviceInfo_ (Impl.authManager_ c) = None).

(** The reconnect policy is off, the engine is not reconnecting, and since
    the trace was [since] no [onReconnecting] has fired. *)
Definition ReconnectOff (since : list Effect) (c : Impl.t) : Prop :=
  ReconnectPolicy.enabled_ (Impl.reconnectPolicy_ c) = false
  /\ Impl.state_ c <> ConnectionState.Reconnecting
  /\ exists tr, Impl.trace c = (since ++ tr)%list /\ Forall not_reconnecting tr.

(** The registry is a [std::map]: its keys ascend, and every entry is
    filed under its own id. *)
Definition RegistrySorted (c : Impl.t) : Prop :=
  StronglySorted N.lt (List.map fst (Impl.subscriptions_ c))
  /\ Forall (fun entry : SubscriptionId * Subscription => sub_id (snd entry) = fst entry)
            (Impl.subscriptions_ c).
(** What [setState] does to the outside: the [onStateChanged] callback
    when the state changes, then, on entering Connected, the
    re-subscription if the policy asks for it. *)
Definition setState_effects (env : Env) (newState : ConnectionState.t) (c : Impl.t)
  : list Effect :=
  if ConnectionState.eqb (Impl.state_ c) newState then []
  else
    ((if ClientCallbacks.onStateChanged (Impl.callbacks_ c)
      then [OnStateChanged (Impl.state_ c) newState] else [])
     ++ match newState with
        | ConnectionState.Connected =>
            if ReconnectPolicy.shouldResubscribe (Impl.reconnectPolicy_ c)
            then resubscriptions env (transport_connected c) (Impl.subscriptions_ c)
            else []
        | _ => []
        end)%list.
End Spec.

(** ** Configurations and runs used as examples *)

Module Scenario.
Definition reconnect_5 : ReconnectConfig.t :=
  ReconnectConfig.mk true 100 800 2%Q false (1 # 4)%Q 5 true.

Definition heartbeat_off : HeartbeatConfig.t :=
  HeartbeatConfig.mk false 30000 10000 2.

Definition config : GatewayConfig.t :=
  GatewayConfig.mk "ws://gateway/ws" "sensor-1" "t" "sensor" 10000 30000
                   reconnect_5 heartbeat_off.

Definition env : Env := mkEnv 1700000000123 100000 0.

Definition callbacks : ClientCallbacks.t := ClientCallbacks.mk true true true true false.

(** An Auth response with [success: true] and no [device] member. *)
Definition auth_ok : json :=
  j_object [("payload", j_object [("success", j_boolean true)]);
            ("type", j_number_integer 8)].

(** An Auth response with [success: true] and a [device] object. *)
Definition auth_ok_device : json :=
  j_object [("payload",
             j_object [("device",
                        j_object [("allowedPublishTopics", j_array [j_string "telemetry.>"]);
                                  ("allowedSubscribeTopics", j_array [j_string "cmd.sensor-1.>"]);
                                  ("deviceId", j_string "sensor-1");
                                  ("deviceType", j_string "sensor")]);
                       ("success", j_boolean true)]);
            ("type", j_number_integer 8)].

Definition inbound (subject : string) : json :=
  j_object [("subject", j_string subject); ("type", j_number_integer 3)].

(** [connect()] against a peer that accepts the connection and answers the
    Auth request with [response]. *)
Definition connect_calls (response : json) : list (Env * Impl.Call) :=
  [(env, Impl.CallConnect Established);
   (env, Impl.ConnectWaitDone);
   (env, Impl.CallPoll [Receive (Some response)] InvalidUrl 0%Q)].

Definition connected (config : GatewayConfig.t) (response : json) : Impl.t :=
  Impl.run ((env, Impl.CallSetCallbacks callbacks) :: connect_calls response)
           (Impl.init config).

(** Section 8, scenario 6. *)
Definition wildcard_client : Impl.t :=
  Impl.run [(env, Impl.CallSubscribe "factory.line1.>" (Some 1%nat));
            (env, Impl.CallSubscribe "factory.*.temp" (Some 2%nat))]
           (connected config auth_ok_device).
(** The defaults of [HeartbeatConfig]: a ping every 30 s, 10 s for the
    pong, two missed pongs. *)
Definition config_heartbeat : GatewayConfig.t :=
  GatewayConfig.mk "ws://gateway/ws" "sensor-1" "t" "sensor" 10000 30000
                   reconnect_5 HeartbeatConfig.default.

Definition at_steady (now : SteadyTime) : Env := mkEnv 1700000000123 now 0.

Definition pong : json := j_object [("type", j_number_integer 10)].

(** Connected; a first tick at 100 000 ms sends the ping, the peer's pong
    arrives 200 ms later. *)
Definition ponged_client : Impl.t :=
  Impl.run [(at_steady 100000, Impl.CallPoll [] InvalidUrl 0%Q);
            (at_steady 100200, Impl.CallPoll [Receive (Some pong)] InvalidUrl 0%Q)]
           (connected config_heartbeat auth_ok_device).

(** An initial delay above the maximum delay. *)
Definition policy_initial_above_max : ReconnectPolicy.t :=
  ReconnectPolicy.of_config (ReconnectConfig.mk true 1000 500 2%Q false (1 # 4)%Q 5 true).

Definition policy_5 : ReconnectPolicy.t := ReconnectPolicy.of_config reconnect_5.

(** Section 8, scenario 3: the transport is lost and every reconnection
    fails. *)
Definition lost_client : Impl.t :=
  Impl.run [(env, Impl.CallPoll [PeerClosed] (ConnectionError "refused") 0%Q);
            (env, Impl.CallPoll [] (ConnectionError "refused") 0%Q);
            (env, Impl.CallPoll [] ClosedWhileConnecting 0%Q);
            (env, Impl.CallPoll [] TimedOut 0%Q);
            (env, Impl.CallPoll [] InvalidUrl 0%Q);
            (env, Impl.CallPoll [] (ConnectionError "refused") 0%Q)]
           (connected config auth_ok_device).

(** An envelope with an explicit timestamp, 1.5 s after the epoch. *)
Definition stamped : Message :=
  Message.with_timestamp (Some 1500) (Message.publish "a.b" (JString "x")).
(** Reconnection and re-subscription both switched off. *)
Definition config_no_resubscribe : GatewayConfig.t :=
  GatewayConfig.mk "ws://gateway/ws" "sensor-1" "t" "sensor" 10000 30000
                   (ReconnectConfig.mk false 100 800 2%Q false (1 # 4)%Q 5 false)
                   heartbeat_off.

(** Section 8, scenario 4: two subscriptions, the session ends, and
    [connect()] has sent the Auth request of the next session. *)
Definition reauth_calls : list (Env * Impl.Call) :=
  (env, Impl.CallSetCallbacks callbacks)
    :: connect_calls auth_ok_device
    ++ [(env, Impl.CallSubscribe "a.b" (Some 1%nat));
        (env, Impl.CallSubscribe "a.c" (Some 2%nat));
        (env, Impl.CallDisconnect);
        (env, Impl.CallConnect Established);
        (env, Impl.ConnectWaitDone)].

Definition reauthenticating (config : GatewayConfig.t) : Impl.t :=
  Impl.run reauth_calls (Impl.init config).

Definition auth_ok_message : Message :=
  mkMessage MessageType.Auth "" (JObject [("success", JBool true)]) None None None.
End Scenario.

(** ** protocol.cpp: the authentication envelopes *)

Module AuthRequest.
Record t : Type := mk {
  deviceId : string;
  token : string;
  deviceType : string
}.
End AuthRequest.

Module AuthResponse.
Record t : Type := mk {
  success : bool;
  device : option DeviceInfo;
  message : string
}.
End AuthResponse.

Module ProtocolAuth.

(** [serializeAuthRequest]: the frame, or the exception of [dump()]. *)
Definition serializeAuthRequest (now : Timestamp) (request : AuthRequest.t) : Outcome json :=
  let msg := Message.with_type MessageType.Auth Message.default in
  let payload := JObject [("deviceId", JString (AuthRequest.deviceId request));
                          ("deviceType", JString (AuthRequest.deviceType request));
                          ("token", JString (AuthRequest.token request))] in
  let msg := Message.with_payload payload msg in
  if Protocol.serialize_throws now msg then Throws
  else Returns (Protocol.serialize now msg).

(** [deserializeAuthResponse], from the outcome of [json::parse] on. *)
Definition deserializeAuthResponse (utc_offset : Z) (parsed : option json)
  : Result AuthResponse.t :=
  match Protocol.deserialize utc_offset parsed with
  | Err e m => Err e m
  | Ok msg =>
      if negb (MessageType.eqb (type msg) MessageType.Auth) then
        Err ErrorCode.InvalidMessageType "Expected Auth message type"
      else
        let payload := payload msg in
        let success := if JsonValue.contains payload "success"
                       then JsonValue.asBool (JsonValue.at_key payload "success")
                       else false in
        let message := if JsonValue.contains payload "message"
                       then JsonValue.asString (JsonValue.at_key payload "message")
                       else "" in
        let device :=
          if JsonValue.contains payload "device"
             && JsonValue.isObject (JsonValue.at_key payload "device")
          then
            let deviceObj := JsonValue.at_key payload "device" in
            Some (mkDeviceInfo
                    (if JsonValue.contains deviceObj "deviceId"
                     then JsonValue.asString (JsonValue.at_key deviceObj "deviceId") else "")
                    (if JsonValue.contains deviceObj "deviceType"
                     then JsonValue.asString (JsonValue.at_key deviceObj "deviceType") else "")
                    (if JsonValue.contains deviceObj "isConnected"
                     then JsonValue.asBool (JsonValue.at_key deviceObj "isConnected") else false)
                    0 0
                    (AuthManager.topics_of deviceObj "allowedPublishTopics")
                    (AuthManager.topics_of deviceObj "allowedSubscribeTopics"))
          else None in
        Ok (AuthResponse.mk success device message)
  end.

(** [serializeJsonValue]: the text, given by the JSON value it denotes, or
    the exception of [dump()]; and [deserializeJsonValue] from the outcome
    of [json::parse] on. *)
Definition serializeJsonValue (value : JsonValue) : Outcome json :=
  Json.dump (Protocol.jsonValueToNlohmann value).

Definition deserializeJsonValue (parsed : option json) : Result JsonValue :=
  match parsed with
  | Some j => Ok (Protocol.nlohmannToJsonValue j)
  | None => Err ErrorCode.MalformedJson "JSON parse error"
  end.
End ProtocolAuth.

(** ** reconnect_policy.cpp: [ReconnectTimer] *)

Module ReconnectTimer.
Record t : Type := mk {
  expiryTime_ : SteadyTime;
  active_ : bool
}.

(** A timer as constructed: not active. *)
Definition init : t := mk 0 false.

(** [start]; the policy the timer refers to is passed and returned. *)
Definition start (now : SteadyTime) (sample : double) (policy : ReconnectPolicy.t) (timer : t)
  : Duration * ReconnectPolicy.t * t :=
  let '(delay, policy) := ReconnectPolicy.getNextDelay sample policy in
  if 0 <? delay then (delay, policy, mk (now + delay) true)
  else (delay, policy, mk (expiryTime_ timer) false).

Definition isExpired (now : SteadyTime) (timer : t) : bool :=
  if negb (active_ timer) then false else expiryTime_ timer <=? now.

Definition remaining (now : SteadyTime) (timer : t) : Duration :=
  if negb (active_ timer) then 0
  else if expiryTime_ timer <=? now then 0
  else expiryTime_ timer - now.

Definition cancel (timer : t) : t := mk (expiryTime_ timer) false.

Definition isActive (timer : t) : bool := active_ timer.
End ReconnectTimer.

(** ** Further definitions of the specification's side *)

Module Spec2.

(** A [JsonValue] as the SDK builds it: integers within [int64_t], the
    members of an object in strictly ascending key order. *)
Fixpoint well_formed (v : JsonValue) : Prop :=
  match v with
  | JInt i => - 2 ^ 63 <= i < 2 ^ 63
  | JArray items =>
      (fix all (l : list JsonValue) : Prop :=
         match l with
         | [] => True
         | x :: rest => well_formed x /\ all rest
         end) items
  | JObject members =>
      StronglySorted (fun a b => String.ltb a b = true) (List.map fst members)
      /\ (fix all (l : list (string * JsonValue)) : Prop :=
            match l with
            | [] => True
            | (_, x) :: rest => well_formed x /\ all rest
            end) members
  | _ => True
  end.

(** Every string and every key of a [JsonValue] is valid UTF-8. *)
Fixpoint utf8 (v : JsonValue) : bool :=
  match v with
  | JString s => Utf8.valid s
  | JArray items => forallb utf8 items
  | JObject members =>
      (fix all (l : list (string * JsonValue)) : bool :=
         match l with
         | [] => true
         | (k, x) :: rest => Utf8.valid k && utf8 x && all rest
         end) members
  | _ => true
  end.

(** Texts of 7-bit characters. *)
Definition is_ascii_text (s : string) : Prop :=
  Forall (fun c => (N_of_ascii c < 128)%N) (list_ascii_of_string s).

(** The strings an envelope carries are valid UTF-8. *)
Definition utf8_message (m : Message) : bool :=
  Utf8.valid (subject m) && utf8 (payload m)
  && match correlationId m with Some c => Utf8.valid c | None => true end
  && match msg_deviceId m with Some d => Utf8.valid d | None => true end.

(** The policy after successive calls of [getNextDelay], one per sample. *)
Definition after_calls (samples : list double) (p : ReconnectPolicy.t) : ReconnectPolicy.t :=
  fold_left (fun p sample => snd (ReconnectPolicy.getNextDelay sample p)) samples p.

(** The client after successive ticks of the heartbeat. *)
Definition after_ticks (ticks : list Env) (c : Impl.t) : Impl.t :=
  fold_left (fun c env => Impl.processHeartbeat env c) ticks c.

Definition is_ping (e : Effect) : Prop :=
  exists now queued, e = TransportSend (Protocol.serialize now Message.ping) queued.

(** The types of envelope that [handleMessage] only logs. *)
Definition only_logged (t : MessageType.t) : bool :=
  match t with
  | MessageType.Auth | MessageType.Message | MessageType.Error | MessageType.Pong => false
  | _ => true
  end.

(** What the transport delivers without any reaction of the engine: a
    frame that does not decode, or one of a type that is only logged. *)
Definition silent (env : Env) (e : TransportEvent) : Prop :=
  match e with
  | Receive parsed =>
      match Protocol.deserialize (utc_offset env) parsed with
      | Ok msg => only_logged (type msg) = true
      | Err _ _ => True
      end
  | _ => False
  end.
End Spec2.

(** ** Further sessions *)

Module Session.
(** An Auth response that rejects the device. *)
Definition auth_rejected : Message :=
  mkMessage MessageType.Auth ""
            (JObject [("message", JString "bad token"); ("success", JBool false)])
            None None None.

(** [connect()] is past its first wait: the transport is connected. *)
Definition transport_up : Impl.t :=
  Impl.run [(Scenario.env, Impl.CallSetCallbacks Scenario.callbacks);
            (Scenario.env, Impl.CallConnect Established)]
           (Impl.init Scenario.config).

(** [connect()] has sent the Auth request and waits for the response. *)
Definition authenticating : Impl.t :=
  Impl.run [(Scenario.env, Impl.CallSetCallbacks Scenario.callbacks);
            (Scenario.env, Impl.CallConnect Established);
            (Scenario.env, Impl.ConnectWaitDone)]
           (Impl.init Scenario.config).

(** Connected with the heartbeat on; no pong has arrived yet. *)
Definition unanswered : Impl.t :=
  Scenario.connected Scenario.config_heartbeat Scenario.auth_ok_device.

Definition ticks : list Env :=
  [Scenario.at_steady 100000; Scenario.at_steady 150000; Scenario.at_steady 200000].

Definition ping : json := j_object [("type", j_number_integer 9)].

(** Two subscriptions made in a first session. *)
Definition subscribed : Impl.t :=
  Impl.run ((Scenario.env, Impl.CallSetCallbacks Scenario.callbacks)
              :: Scenario.connect_calls Scenario.auth_ok_device
              ++ [(Scenario.env, Impl.CallSubscribe "a.b" (Some 1%nat));
                  (Scenario.env, Impl.CallSubscribe "a.c" (Some 2%nat))])
           (Impl.init Scenario.config).

(** The peer has closed the connection of a session and the first attempt
    to reconnect was refused. *)
Definition reconnecting : Impl.t :=
  Impl.run ((Scenario.env, Impl.CallSetCallbacks Scenario.callbacks)
              :: Scenario.connect_calls Scenario.auth_ok_device
              ++ [(Scenario.env, Impl.CallPoll [PeerClosed] (ConnectionError "refused") 0%Q)])
           (Impl.init Scenario.config).

(** The same, and four more attempts were refused: the five attempts of
    the configuration are used up. *)
Definition exhausted : Impl.t :=
  Impl.run (List.repeat (Scenario.env, Impl.CallPoll [] (ConnectionError "refused") 0%Q) 4)
           reconnecting.

(** The pong of the first ping arrived; nothing since, and one tick has
    counted a missed pong. *)
Definition missed_once : Impl.t :=
  Impl.run [(Scenario.at_steady 120000, Impl.CallPoll [] InvalidUrl 0%Q)]
           Scenario.ponged_client.

(** The peer closes the connection while [connect()] waits for the Auth
    response, and the first attempt to reconnect is refused. *)
Definition interrupted : Impl.t :=
  Impl.run [(Scenario.env, Impl.CallPoll [PeerClosed] (ConnectionError "refused") 0%Q)]
           authenticating.

(** The engine still Connected over a transport that is no longer. *)
Definition half_open : Impl.t :=
  Impl.set_transport TransportState.Closed Scenario.wildcard_client.
End Session.

(** ** The URL of the gateway ([websocket_transport.cpp]) *)

Module WebSocketTransport.

(** What [parseUrl] leaves in the transport. *)
Record Url : Type := mkUrl {
  useTls_ : bool;
  host_ : string;
  port_ : Z;
  path_ : string
}.

(** [parseUrl] returns true, returns false, or an exception of [std::stoi]
    leaves it. *)
Inductive ParseResult : Type :=
| Parsed (url : Url)
| Rejected
| Thrown.

(** [s.find(ch, pos)] *)
Fixpoint find_char (ch : ascii) (pos : nat) (s : string) : option nat :=
  match s with
  | EmptyString => None
  | String c rest =>
      match pos with
      | O => if Ascii.eqb c ch then Some O else option_map S (find_char ch O rest)
      | S pos' => option_map S (find_char ch pos' rest)
      end
  end.

(** [s.substr(pos)] *)
Definition substr_from (pos : nat) (s : string) : string :=
  String.substring pos (String.length s - pos) s.

Definition isspace (c : ascii) : bool :=
  let n := N_of_ascii c in ((n =? 32) || (9 <=? n) && (n <=? 13))%N.

Fixpoint skip_space (s : string) : string :=
  match s with
  | String c rest => if isspace c then skip_space rest else s
  | EmptyString => s
  end.

(** The value of the leading decimal digits. *)
Fixpoint digits_value (acc : Z) (s : string) : Z :=
  match s with
  | String c rest =>
      match CTime.digit_of c with
      | Some d => digits_value (acc * 10 + d) rest
      | None => acc
      end
  | EmptyString => acc
  end.

(** [std::stoi(s)]: white space, an optional sign, then decimal digits up
    to the first other character.  [None]: [std::invalid_argument] when no
    digit is there, [std::out_of_range] when the value does not fit an
    [int]. *)
Definition stoi (s : string) : option Z :=
  let s := skip_space s in
  let '(negative, s) :=
    match s with
    | String "-" rest => (true, rest)
    | String "+" rest => (false, rest)
    | _ => (false, s)
    end in
  match s with
  | String c _ =>
      match CTime.digit_of c with
      | Some _ =>
          let v := digits_value 0 s in
          let v := if negative then - v else v in
          if (- 2 ^ 31 <=? v) && (v <? 2 ^ 31) then Some v else None
      | None => None
      end
  | EmptyString => None
  end.

Definition parseUrl (url : string) : ParseResult :=
  match Protocol.find_substring "://" url with
  | None => Rejected
  | Some schemeEnd =>
      let scheme := String.substring 0 schemeEnd url in
      let defaults := if String.eqb scheme "wss" then Some (true, 443)
                      else if String.eqb scheme "ws" then Some (false, 80)
                      else None in
      match defaults with
      | None => Rejected
      | Some (useTls, port) =>
          let hostStart := (schemeEnd + 3)%nat in
          let pathStart := find_char "/" hostStart url in
          let portStart := find_char ":" hostStart url in
          let path := match pathStart with
                      | Some p => substr_from p url
                      | None => "/"
                      end in
          let explicit :=
            match portStart, pathStart with
            | Some ps, None => Some ps
            | Some ps, Some p => if (ps <? p)%nat then Some ps else None
            | None, _ => None
            end in
          match explicit with
          | Some ps =>
              let host := String.substring hostStart (ps - hostStart) url in
              let portEnd := match pathStart with
                             | Some p => p
                             | None => String.length url
                             end in
              match stoi (String.substring (ps + 1) (portEnd - ps - 1) url) with
              | Some port => Parsed (mkUrl useTls host port path)
              | None => Thrown
              end
          | None =>
              let hostEnd := match pathStart with
                             | Some p => p
                             | None => String.length url
                             end in
              Parsed (mkUrl useTls (String.substring hostStart (hostEnd - hostStart) url)
                            port path)
          end
      end
  end.

(** The URL text of a scheme, a host, an optional port text and a path. *)
Definition url_text (scheme host : string) (port : option string) (path : string) : string :=
  scheme ++ "://" ++ host
  ++ match port with Some digits => ":" ++ digits | None => "" end ++ path.

(** A scheme the transport knows, with its TLS flag and default port. *)
Definition known_scheme (scheme : string) : option (bool * Z) :=
  if String.eqb scheme "wss" then Some (true, 443)
  else if String.eqb scheme "ws" then Some (false, 80)
  else None.

Definition lacks (ch : ascii) (s : string) : bool :=
  forallb (fun c => negb (Ascii.eqb c ch)) (list_ascii_of_string s).

(** A host without a colon or a slash. *)
Definition plain_host (host : string) : bool := lacks ":" host && lacks "/" host.

(** Nothing, or a path from its slash on. *)
Definition path_or_nothing (path : string) : bool :=
  match path with
  | EmptyString => true
  | String c _ => Ascii.eqb c "/"
  end.

(** [parseUrl] on a URL of a known scheme, read off what follows the
    scheme's separator. *)
Definition parse_rest (useTls : bool) (port : Z) (rest : string) : ParseResult :=
  let pathStart := find_char "/" 0 rest in
  let portStart := find_char ":" 0 rest in
  let path := match pathStart with Some p => substr_from p rest | None => "/" end in
  let explicit :=
    match portStart, pathStart with
    | Some ps, None => Some ps
    | Some ps, Some p => if (ps <? p)%nat then Some ps else None
    | None, _ => None
    end in
  let stop := match pathStart with Some p => p | None => String.length rest end in
  match explicit with
  | Some ps =>
      match stoi (String.substring (ps + 1) (stop - ps - 1) rest) with
      | Some port => Parsed (mkUrl useTls (String.substring 0 ps rest) port path)
      | None => Thrown
      end
  | None => Parsed (mkUrl useTls (String.substring 0 stop rest) port path)
  end.
End WebSocketTransport.

(* ===================================================================== *)
(** * Part II: the properties *)
(* ===================================================================== *)

Local Open Scope list_scope.

(** ** The authoritative matcher *)

Section Matcher.
Import AuthManager.

Lemma getline_from_shorter delim c s :
  (String.length (snd (getline_from delim (String c s))) <= String.length s)%nat.
Proof.
  revert c. induction s as [|c' s IH]; intros c; cbn.
  - destruct (Ascii.eqb c delim); cbn; lia.
  - destruct (Ascii.eqb c delim) eqn:Hc; cbn; [lia|].
    specialize (IH c'). cbn in IH.
    destruct (Ascii.eqb c' delim); cbn in *; [lia|].
    destruct (getline_from delim s) as [token rest]; cbn in *. lia.
Qed.

Lemma splitTokens_loop_step n iss tokens :
  splitTokens_loop (S n) iss tokens =
  match getline "." iss with
  | None => tokens
  | Some (token, rest) => splitTokens_loop n rest (tokens ++ [token])
  end.
Proof. reflexivity. Qed.

Lemma splitTokens_loop_acc fuel : forall iss tokens,
  splitTokens_loop fuel iss tokens = tokens ++ splitTokens_loop fuel iss [].
Proof.
  induction fuel as [|fuel IH]; intros iss tokens; cbn.
  - now rewrite app_nil_r.
  - destruct (getline "." iss) as [[token rest]|].
    + rewrite (IH rest (tokens ++ [token])), (IH rest [token]).
      now rewrite <- app_assoc.
    + now rewrite app_nil_r.
Qed.

Lemma splitTokens_loop_fuel n : forall m iss,
  (String.length iss < n)%nat -> (String.length iss < m)%nat ->
  splitTokens_loop n iss [] = splitTokens_loop m iss [].
Proof.
  induction n as [|n IH]; intros m iss Hn Hm; [lia|].
  destruct m as [|m]; [lia|].
  destruct iss as [|c s]; [reflexivity|].
  rewrite !splitTokens_loop_step. cbn [getline].
  pose proof (getline_from_shorter "." c s) as Hlen.
  destruct (getline_from "." (String c s)) as [token rest]; cbn in Hlen.
  rewrite (splitTokens_loop_acc n), (splitTokens_loop_acc m).
  cbn in Hn, Hm. f_equal. apply IH; lia.
Qed.

(** The loop of [splitTokens], one round at a time: the fuel is never
    what ends it. *)
Lemma splitTokens_unfold s :
  splitTokens s =
  match getline "." s with
  | None => []
  | Some (token, rest) => token :: splitTokens rest
  end.
Proof.
  unfold splitTokens. rewrite splitTokens_loop_step.
  destruct s as [|c s]; [reflexivity|].
  cbn [getline].
  pose proof (getline_from_shorter "." c s) as Hlen.
  destruct (getline_from "." (String c s)) as [token rest]; cbn in Hlen.
  rewrite splitTokens_loop_acc. cbn [app]. f_equal.
  apply splitTokens_loop_fuel; cbn; lia.
Qed.

Lemma walk_lockstep patternTokens : forall subjectTokens,
  walk patternTokens subjectTokens = true <-> Spec.Lockstep patternTokens subjectTokens.
Proof.
  induction patternTokens as [|pt patternRest IH]; intros [|st subjectRest]; cbn.
  - split; [constructor | reflexivity].
  - split; [discriminate | inversion 1].
  - split; [discriminate | inversion 1].
  - destruct (String.eqb_spec pt ">") as [->|Hgt].
    { split; [constructor | reflexivity]. }
    destruct (String.eqb_spec pt "*") as [->|Hstar].
    { rewrite IH. split; [now constructor | inversion 1; subst; auto]. }
    destruct (String.eqb_spec pt st) as [->|Hne].
    { rewrite IH. split; [now constructor | inversion 1; subst; auto; congruence]. }
    split; [discriminate | inversion 1; subst; congruence].
Qed.

Lemma Lockstep_refl tokens : Spec.Lockstep tokens tokens.
Proof. induction tokens; constructor; assumption. Qed.

(** What the walk means position by position: it succeeds at a [>] exactly
    when a subject token is left, and never lets [*] or [>] stand for no
    token. *)
Lemma Lockstep_gt_position before after subjectTokens :
  Forall (fun token => token <> ">") before ->
  Spec.Lockstep (before ++ ">" :: after) subjectTokens ->
  (List.length before + 1 <= List.length subjectTokens)%nat.
Proof.
  revert subjectTokens.
  induction before as [|b before IH]; intros subjectTokens Hno Hwalk; cbn in *.
  - inversion Hwalk; subst; cbn; lia.
  - inversion Hno as [|? ? Hb Hrest]; subst.
    inversion Hwalk; subst; try congruence; cbn; apply IH in H2; auto; lia.
Qed.

Lemma Lockstep_no_gt_same_length patternTokens subjectTokens :
  Forall (fun token => token <> ">") patternTokens ->
  Spec.Lockstep patternTokens subjectTokens ->
  List.length patternTokens = List.length subjectTokens.
Proof.
  intros Hno Hwalk. induction Hwalk; cbn; auto.
  - inversion Hno; congruence.
  - inversion Hno; subst; auto.
  - inversion Hno; subst; auto.
Qed.
End Matcher.

(** ** Dispatch of inbound messages *)

Section Dispatch.
Import Impl.

Lemma set_trace_emit tr e c : set_trace tr (emit e c) = set_trace tr c.
Proof. reflexivity. Qed.

Lemma set_trace_id c : set_trace (trace c) c = c.
Proof. now destruct c. Qed.

Lemma set_trace_set_trace tr tr' c : set_trace tr (set_trace tr' c) = set_trace tr c.
Proof. reflexivity. Qed.

Lemma emit_as_set_trace e tr c :
  emit e (set_trace tr c) = set_trace (tr ++ [e]) c.
Proof. reflexivity. Qed.

(** The loop of [handleSubscriptionMessage] changes nothing but the trace,
    to which it adds one invocation for every entry that is active, passes
    [matchesSubject] and holds a handler, in the order of the registry. *)
Lemma handleSubscriptionMessage_trace msg c :
  handleSubscriptionMessage msg c =
  set_trace (trace c ++ Spec.invocations matchesSubject msg (subscriptions_ c)) c.
Proof.
  unfold handleSubscriptionMessage, Spec.invocations.
  generalize (subscriptions_ c) as registry. intros registry. revert c.
  induction registry as [|entry registry IH]; intros c; cbn [fold_left flat_map].
  - now rewrite app_nil_r, set_trace_id.
  - rewrite IH. unfold Spec.invocation at 2.
    destruct (sub_active (snd entry) && matchesSubject (sub_subject (snd entry)) (subject msg));
      [destruct (sub_handler (snd entry)) as [handler|]|]; cbn [app].
    + rewrite set_trace_emit. cbn [trace emit set_trace]. now rewrite <- app_assoc.
    + reflexivity.
    + reflexivity.
Qed.

Lemma matchesSubject_cases pattern subject :
  matchesSubject pattern subject = true <->
  pattern = subject
  \/ (ends_with_gt pattern = true
      /\ String.prefix (String.substring 0 (String.length pattern - 1) pattern) subject = true)
  \/ (ends_with_gt pattern = false /\ contains_char "*" pattern = true).
Proof.
  unfold matchesSubject.
  destruct (String.eqb_spec pattern subject) as [->|Hne]; [tauto|].
  destruct (ends_with_gt pattern).
  - split; [tauto | intros [?|[[_ ?]|[? _]]]; congruence].
  - destruct (contains_char "*" pattern);
      split; try tauto; intros [?|[[? _]|[_ ?]]]; congruence.
Qed.

(** C1, as the code has it.  Dispatch of a Message invokes the handlers of
    exactly the registry entries that are active, hold a handler and pass
    the dispatch path's own test [matchesSubject]: the pattern equals the
    subject, or it ends in [>] and the subject begins with what precedes
    that [>], or it does not end in [>] and contains a [*].  Each such entry
    is invoked once, in the order of the registry.  With the subscriptions
    "factory.line1.>" and "factory.*.temp", a Message on
    "factory.line1.temp" invokes both handlers once. *)
Theorem dispatch_invokes_simple_matches :
  (forall msg c,
      trace (handleSubscriptionMessage msg c) =
      trace c ++ Spec.invocations matchesSubject msg (subscriptions_ c))
  /\ (forall pattern subject,
         matchesSubject pattern subject = true <->
         pattern = subject
         \/ (ends_with_gt pattern = true
             /\ String.prefix (String.substring 0 (String.length pattern - 1) pattern)
                              subject = true)
         \/ (ends_with_gt pattern = false /\ contains_char "*" pattern = true))
  /\ (let c := handleMessage Scenario.env (Some (Scenario.inbound "factory.line1.temp"))
                             Scenario.wildcard_client in
      Spec.times_invoked 1%nat (trace c) = 1%nat /\ Spec.times_invoked 2%nat (trace c) = 1%nat).
Proof.
  split; [|split].
  - intros msg c. now rewrite handleSubscriptionMessage_trace.
  - apply matchesSubject_cases.
  - vm_compute. split; reflexivity.
Qed.

(** C1 as stated fails: a Message on "plant.x" is matched by neither
    pattern under the matcher of section 4.1, and dispatch invokes the
    handler of "factory.*.temp". *)
Lemma dispatch_invokes_unmatched_handler :
  let msg := Scenario.inbound "plant.x" in
  let c := handleMessage Scenario.env (Some msg) Scenario.wildcard_client in
  getSubscriptions Scenario.wildcard_client = ["factory.line1.>"; "factory.*.temp"]
  /\ AuthManager.matchesPattern "factory.line1.>" "plant.x" = false
  /\ AuthManager.matchesPattern "factory.*.temp" "plant.x" = false
  /\ Spec.times_invoked 2%nat (trace c) = 1%nat.
Proof. vm_compute. repeat split; reflexivity. Qed.

(** The two matchers differ in the other direction as well: the strict
    matcher accepts "a.b.c" for "a.*.>", the dispatch path does not. *)
Lemma dispatch_misses_matched_pattern :
  AuthManager.matchesPattern "a.*.>" "a.b.c" = true
  /\ matchesSubject "a.*.>" "a.b.c" = false.
Proof. split; reflexivity. Qed.
End Dispatch.

(** ** The subscription registry *)

Section Registry.
Import Impl.

(** C3, as the code has it.  [subscribe] in any state other than Connected
    fails with NotConnected and leaves the client as it was: no id is
    allocated, no entry is inserted, and no Subscribe envelope is sent or
    kept for later. *)
Theorem subscribe_requires_connected env subject handler c :
  state_ c <> ConnectionState.Connected ->
  subscribe env subject handler c = (Err ErrorCode.NotConnected "Not connected", c).
Proof.
  intros Hstate. unfold subscribe.
  destruct (state_ c); try reflexivity. congruence.
Qed.

Lemma subscribe_requires_connected_witness :
  state_ (init Scenario.config) <> ConnectionState.Connected
  /\ subscribe Scenario.env "a.b" (Some 1%nat) (init Scenario.config)
     = (Err ErrorCode.NotConnected "Not connected", init Scenario.config).
Proof.
  split; [discriminate|].
  apply (subscribe_requires_connected Scenario.env "a.b" (Some 1%nat) (init Scenario.config)).
  discriminate.
Defined.

(** C3 as stated fails: on a client that has not connected yet, a
    [subscribe] with a valid pattern fails and records nothing. *)
Lemma subscribe_before_connect_fails :
  let c := init Scenario.config in
  let r := subscribe Scenario.env "a.b" (Some 1%nat) c in
  Protocol.isValidSubject "a.b" = true
  /\ state_ c = ConnectionState.Disconnected
  /\ fst r = Err ErrorCode.NotConnected "Not connected"
  /\ subscriptions_ (snd r) = []
  /\ nextSubscriptionId_ (snd r) = nextSubscriptionId_ c
  /\ trace (snd r) = [].
Proof. vm_compute. repeat split; reflexivity. Qed.
End Registry.

(** ** The protocol codec *)

Section Codec.
Import Protocol.

Lemma of_int_outside v :
  v < 0 \/ 10 < v -> MessageType.of_int v = MessageType.Other v.
Proof.
  intros Hv. destruct v as [|q|q]; [lia| |reflexivity].
  do 4 (destruct q as [q|q|]; try reflexivity; try lia).
Qed.

Lemma wrap_i32_id v : - 2 ^ 31 <= v < 2 ^ 31 -> wrap_i32 v = v.
Proof. intros Hv. unfold wrap_i32. rewrite Z.mod_small; lia. Qed.

Lemma find_insert_ne key key' value members :
  key' <> key -> Json.find key' (Json.insert key value members) = Json.find key' members.
Proof.
  intros Hne. induction members as [|[k x] members IH]; cbn.
  - destruct (String.eqb_spec key key'); congruence.
  - destruct (String.eqb_spec k key) as [->|Hk]; cbn.
    + destruct (String.eqb_spec key key'); congruence.
    + destruct (String.ltb key k); cbn.
      * destruct (String.eqb_spec key key'); [congruence|reflexivity].
      * now rewrite IH.
Qed.

Lemma known_field_ne key key' :
  Spec.known_field key = false -> Spec.known_field key' = true -> key' <> key.
Proof. intros Hkey Hkey' ->. congruence. Qed.

(** What [deserialize] reads of an object is what [find] returns for the
    six known keys. *)
Lemma deserialize_ext utc members members' :
  (forall key, Spec.known_field key = true ->
               Json.find key members' = Json.find key members) ->
  deserialize utc (Some (j_object members')) = deserialize utc (Some (j_object members)).
Proof.
  intros Hfind. unfold deserialize, Json.contains, at_key.
  rewrite !Hfind by reflexivity. reflexivity.
Qed.

(** C9, as the code has it.  An integer [type] outside 0..10 is no error:
    when the fields read as strings hold strings, [deserialize] succeeds and
    the Message carries the out-of-range value as its type.  Unknown extra
    fields are ignored. *)
Theorem deserialize_keeps_unknown_type :
  (forall utc members v,
      Json.find "type" members = Some (j_number_integer v) ->
      - 2 ^ 31 <= v < 2 ^ 31 ->
      v < 0 \/ 10 < v ->
      Spec.string_fields_typed members = true ->
      exists msg,
        deserialize utc (Some (j_object members)) = Ok msg
        /\ type msg = MessageType.Other v)
  /\ (forall utc members key value,
         Spec.known_field key = false ->
         deserialize utc (Some (j_object (Json.insert key value members)))
         = deserialize utc (Some (j_object members))).
Proof.
  split.
  - intros utc members v Htype Hrange Hout Htyped.
    unfold Spec.string_fields_typed, Spec.string_or_absent in Htyped.
    unfold deserialize, Json.contains, at_key. rewrite Htype. cbn [Json.get_int mbind option_bind].
    rewrite wrap_i32_id, of_int_outside by assumption.
    destruct (Json.find "subject" members) as [[]|]; try discriminate;
      destruct (Json.find "payload" members);
      destruct (Json.find "correlationId" members) as [[]|]; try discriminate;
      destruct (Json.find "timestamp" members) as [[]|]; try discriminate;
      destruct (Json.find "deviceId" members) as [[]|]; try discriminate;
      cbn; try (destruct (parseTimestamp utc _)); eexists; split; reflexivity.
  - intros utc members key value Hkey. apply deserialize_ext.
    intros key' Hkey'. apply find_insert_ne. now apply known_field_ne.
Qed.

Lemma deserialize_keeps_unknown_type_witness :
  (Json.find "type" [("type", j_number_integer 42)] = Some (j_number_integer 42)
   /\ - 2 ^ 31 <= 42 < 2 ^ 31
   /\ (42 < 0 \/ 10 < 42)
   /\ Spec.string_fields_typed [("type", j_number_integer 42)] = true)
  /\ exists msg,
    deserialize 0 (Some (j_object [("type", j_number_integer 42)])) = Ok msg
    /\ type msg = MessageType.Other 42.
Proof.
  split; [repeat split; try reflexivity; try lia; right; lia|].
  apply (proj1 deserialize_keeps_unknown_type 0 [("type", j_number_integer 42)] 42).
  - reflexivity.
  - lia.
  - lia.
  - reflexivity.
Defined.

(** C9 as stated fails: the text [{"type": 42}] decodes to a Message. *)
Lemma deserialize_accepts_type_42 :
  deserialize 0 (Some (j_object [("type", j_number_integer 42)]))
  = Ok (Message.with_type (MessageType.Other 42) Message.default)
  /\ MessageType.defined (MessageType.Other 42) = false.
Proof. split; reflexivity. Qed.

(** C6 at the failing input.  An envelope stamped 1.5 s after the epoch is
    written as "1970-01-01T00:00:01Z" and read back as 1 s after the epoch,
    in the UTC zone; in a zone one hour ahead of UTC it is read back an hour
    early. *)
Theorem roundtrip_loses_timestamp :
  let m := Scenario.stamped in
  timestamp m = Some 1500
  /\ Json.find "timestamp"
               (match serialize 0 m with j_object members => members | _ => [] end)
     = Some (j_string "1970-01-01T00:00:01Z")
  /\ deserialize 0 (Some (serialize 0 m)) = Ok (Message.with_timestamp (Some 1000) m)
  /\ deserialize 0 (Some (serialize 0 m)) <> Ok m
  /\ deserialize 3600 (Some (serialize 0 m))
     = Ok (Message.with_timestamp (Some (1000 - 3600000)) m).
Proof. vm_compute. repeat split; try reflexivity. discriminate. Qed.

(** The branch that stamps an envelope without a timestamp does write the
    milliseconds. *)
Lemma getTimestamp_has_milliseconds :
  getTimestamp 1500 = "1970-01-01T00:00:01.500Z".
Proof. reflexivity. Qed.
End Codec.

(** ** The heartbeat monitor *)

Section Heartbeat.
Import Impl.

(** C8 at the failing input.  The ping of the tick at 100 000 ms was
    answered at 100 200 ms, and no ping has been sent since (the next one is
    due at 130 000 ms).  The tick at 110 201 ms sends no ping and counts a
    missed pong all the same; the tick 100 ms later counts the second one
    and asks the transport to disconnect with "Heartbeat timeout". *)
Theorem heartbeat_counts_ticks_without_ping :
  let c := Scenario.ponged_client in
  let c1 := poll (Scenario.at_steady 110201) [] InvalidUrl 0%Q c in
  let c2 := poll (Scenario.at_steady 110301) [] InvalidUrl 0%Q c1 in
  state_ c = ConnectionState.Connected
  /\ lastPingSent_ c < lastPongReceived_ c
  /\ missedPongs_ c = 0%N
  /\ trace c1 = trace c
  /\ lastPingSent_ c1 = lastPingSent_ c
  /\ missedPongs_ c1 = 1%N
  /\ missedPongs_ c2 = 2%N
  /\ In (TransportDisconnect 1000 "Heartbeat timeout") (trace c2).
Proof.
  vm_compute. repeat split; try reflexivity.
  do 4 right. left. reflexivity.
Qed.

(** A tick of [processHeartbeat] counts a missed pong exactly when some
    pong has been received and more than [timeout] has passed since the
    last one; whether a ping is outstanding plays no part. *)
Lemma processHeartbeat_missedPongs env c :
  missedPongs_ (processHeartbeat env c) =
  if negb (lastPongReceived_ c =? 0)
     && (HeartbeatConfig.timeout (GatewayConfig.heartbeat (config_ c))
         <? steady_now env - lastPongReceived_ c)
  then wrap_u32 (missedPongs_ c + 1)
  else missedPongs_ c.
Proof.
  unfold processHeartbeat.
  destruct (HeartbeatConfig.interval (GatewayConfig.heartbeat (config_ c))
            <=? steady_now env - lastPingSent_ c);
    [unfold transport_send; destruct (transport_ c)|]; cbn;
    destruct (lastPongReceived_ c =? 0); cbn; try reflexivity;
    destruct (HeartbeatConfig.timeout (GatewayConfig.heartbeat (config_ c))
              <? steady_now env - lastPongReceived_ c); cbn; try reflexivity;
    destruct (HeartbeatConfig.missedPongsBeforeDisconnect
                (GatewayConfig.heartbeat (config_ c)) <=? wrap_u32 (missedPongs_ c + 1))%N;
    try reflexivity;
    unfold transport_disconnect, transport_close, onTransportDisconnected, setState, fire; cbn;
    repeat match goal with
           | |- context [if ?b then _ else _] => destruct b; cbn
           | |- context [match ?x with _ => _ end] => destruct x; cbn
           end; reflexivity.
Qed.
End Heartbeat.

(** ** The reconnect policy *)

Section Backoff.
Import ReconnectPolicy.

(** C5 at the failing input.  With an initial delay of 1000 ms above a
    maximum delay of 500 ms, the first call of [getNextDelay] returns
    1000 ms where min(initialDelay × multiplier^0, maxDelay) is 500 ms; the
    second call returns the capped 500 ms. *)
Theorem first_delay_exceeds_maxDelay :
  let p := Scenario.policy_initial_above_max in
  fst (Spec.nth_call 1 p) = 1000
  /\ trunc (Spec.base_delay p 1) = 500
  /\ attemptCount_ (snd (Spec.nth_call 1 p)) = 1%N
  /\ fst (Spec.nth_call 2 p) = 500.
Proof. vm_compute. repeat split; reflexivity. Qed.

(** Section 8, scenario 3, on the policy and on the engine: the delays are
    100, 200, 400, 800, 800, the sixth call refuses, five [onReconnecting]
    callbacks fire and the engine ends Disconnected. *)
Lemma backoff_scenario :
  List.map (fun n => fst (Spec.nth_call n Scenario.policy_5)) [1; 2; 3; 4; 5; 6]%nat
  = [100; 200; 400; 800; 800; 0]
  /\ shouldReconnect (snd (Spec.nth_call 5 Scenario.policy_5)) = false
  /\ Impl.state_ Scenario.lost_client = ConnectionState.Disconnected
  /\ List.filter (fun e => match e with OnReconnecting _ | Sleep _ => true | _ => false end)
                 (Impl.trace Scenario.lost_client)
     = [OnReconnecting 1; Sleep 100; OnReconnecting 2; Sleep 200; OnReconnecting 3;
        Sleep 400; OnReconnecting 4; Sleep 800; OnReconnecting 5; Sleep 800].
Proof. vm_compute. repeat split; reflexivity. Qed.
End Backoff.

(** ** What every operation of the engine keeps *)

Section Preservation.
Import Impl.
Context {P : Impl.t -> Prop} {okS : ConnectionState.t -> Prop}.
Context (HP : Spec.Stable P okS).

Ltac quiet := intros ?; discriminate.

Lemma fold_left_keeps {A} (f : Impl.t -> A -> Impl.t) (l : list A) :
  (forall c x, P c -> P (f c x)) -> forall c, P c -> P (fold_left f l c).
Proof. intros Hf. induction l as [|x l IH]; cbn; auto. Qed.

Lemma stable_fire is_set e c : Spec.not_reconnecting e -> P c -> P (fire is_set e c).
Proof. intros He Hc. destruct is_set; cbn; [now apply (Spec.st_emit _ _ HP)|assumption]. Qed.

Lemma stable_transport_send frame c : P c -> P (snd (transport_send frame c)).
Proof.
  intros Hc. unfold transport_send.
  destruct (transport_ c); cbn; apply (Spec.st_emit _ _ HP); auto; quiet.
Qed.

Lemma stable_resubscribeAll env c : P c -> P (resubscribeAll env c).
Proof.
  intros Hc. unfold resubscribeAll.
  destruct (negb (ReconnectPolicy.shouldResubscribe (reconnectPolicy_ c))); [assumption|].
  apply fold_left_keeps; [|assumption].
  intros c' entry Hc'. destruct (sub_active (snd entry)); [|assumption].
  now apply stable_transport_send.
Qed.

Lemma stable_setState env s c : okS s -> P c -> P (setState env s c).
Proof.
  intros Hs Hc. unfold setState.
  assert (P (set_state s c)) as Hset by now apply (Spec.st_state _ _ HP).
  destruct (negb (ConnectionState.eqb (state_ c) s)); [|assumption].
  assert (P (fire (ClientCallbacks.onStateChanged (callbacks_ (set_state s c)))
                  (OnStateChanged (state_ c) s) (set_state s c))) as Hfire
      by (apply stable_fire; [quiet|assumption]).
  destruct s; try assumption. now apply stable_resubscribeAll.
Qed.

Lemma stable_onTransportConnected env c : P c -> P (onTransportConnected env c).
Proof. apply stable_setState, (Spec.st_authenticating _ _ HP). Qed.

Lemma stable_onTransportDisconnected env code reason c :
  P c -> P (onTransportDisconnected env code reason c).
Proof.
  intros Hc. unfold onTransportDisconnected, ReconnectPolicy.isEnabled.
  destruct (ReconnectPolicy.enabled_ (reconnectPolicy_ c)) eqn:Henabled; cbn [andb].
  - destruct (ReconnectPolicy.shouldReconnect (reconnectPolicy_ c)).
    + apply stable_setState; [|assumption]. now apply (Spec.st_reconnecting _ _ HP c).
    + apply stable_fire; [quiet|].
      apply stable_setState; [apply (Spec.st_disconnected _ _ HP)|assumption].
  - apply stable_fire; [quiet|].
    apply stable_setState; [apply (Spec.st_disconnected _ _ HP)|assumption].
Qed.

Lemma stable_onTransportError code message c : P c -> P (onTransportError code message c).
Proof.
  intros Hc. unfold onTransportError. apply stable_fire; [quiet|].
  now apply (Spec.st_stats _ _ HP).
Qed.

Lemma stable_transport_close env reason c : P c -> P (transport_close env reason c).
Proof.
  intros Hc. unfold transport_close.
  destruct (transport_ c); try assumption;
    apply stable_onTransportDisconnected; now apply (Spec.st_transport _ _ HP).
Qed.

Lemma stable_transport_disconnect env code reason c :
  P c -> P (transport_disconnect env code reason c).
Proof.
  intros Hc. apply stable_transport_close. apply (Spec.st_emit _ _ HP); [quiet|assumption].
Qed.

Lemma stable_transport_connect env outcome c :
  P c -> P (snd (transport_connect env outcome c)).
Proof.
  intros Hc. unfold transport_connect.
  set (c' := emit _ c).
  assert (P c') as Hc' by (apply (Spec.st_emit _ _ HP); [quiet|assumption]).
  clearbody c'.
  destruct (transport_ c'); destruct outcome; cbn [snd]; try assumption;
    first [ apply stable_onTransportConnected
          | apply stable_onTransportError
          | apply stable_onTransportDisconnected
          | apply stable_transport_close
          | idtac ];
    repeat apply (Spec.st_transport _ _ HP); assumption.
Qed.

Lemma stable_handleSubscriptionMessage msg c : P c -> P (handleSubscriptionMessage msg c).
Proof.
  intros Hc. unfold handleSubscriptionMessage. apply fold_left_keeps; [|assumption].
  intros c' entry Hc'.
  destruct (sub_active (snd entry) && matchesSubject (sub_subject (snd entry)) (subject msg));
    [|assumption].
  destruct (sub_handler (snd entry)); [|assumption].
  apply (Spec.st_emit _ _ HP); [quiet|assumption].
Qed.

Lemma stable_processHeartbeat env c : P c -> P (processHeartbeat env c).
Proof.
  intros Hc. unfold processHeartbeat.
  set (c' := if _ <=? _ then _ else c).
  assert (P c') as Hc'.
  { subst c'. destruct (_ <=? _); [|assumption].
    apply (Spec.st_lastPingSent _ _ HP). now apply stable_transport_send. }
  clearbody c'.
  destruct (negb (lastPongReceived_ c' =? 0)); [|assumption].
  destruct (_ <? _); [|assumption].
  assert (P (set_missedPongs (wrap_u32 (missedPongs_ c' + 1)) c')) as Hmissed
      by now apply (Spec.st_missedPongs _ _ HP).
  destruct (_ <=? _)%N; [|assumption].
  now apply stable_transport_disconnect.
Qed.

Lemma shouldReconnect_enabled p :
  ReconnectPolicy.shouldReconnect p = true -> ReconnectPolicy.enabled_ p = true.
Proof. unfold ReconnectPolicy.shouldReconnect. destruct (ReconnectPolicy.enabled_ p); auto. Qed.

Lemma getNextDelay_enabled sample p :
  ReconnectPolicy.enabled_ (snd (ReconnectPolicy.getNextDelay sample p))
  = ReconnectPolicy.enabled_ p.
Proof.
  unfold ReconnectPolicy.getNextDelay.
  destruct (negb (ReconnectPolicy.shouldReconnect p)); reflexivity.
Qed.

Lemma stable_processReconnection env outcome sample c :
  P c -> P (processReconnection env outcome sample c).
Proof.
  intros Hc. unfold processReconnection.
  destruct (ReconnectPolicy.shouldReconnect (reconnectPolicy_ c)) eqn:Hshould; cbn [negb].
  - pose proof (getNextDelay_enabled sample (reconnectPolicy_ c)) as Henabled.
    destruct (ReconnectPolicy.getNextDelay sample (reconnectPolicy_ c)) as [delay policy].
    cbn [snd] in Henabled.
    apply stable_transport_connect.
    apply (Spec.st_emit _ _ HP); [quiet|].
    assert (P (set_reconnectPolicy policy c)) as Hpolicy
        by now apply (Spec.st_policy _ _ HP).
    unfold fire. destruct (ClientCallbacks.onReconnecting _); [|assumption].
    apply (Spec.st_emit_reconnecting _ _ HP); [|assumption].
    cbn. rewrite Henabled. now apply shouldReconnect_enabled.
  - apply stable_setState; [apply (Spec.st_disconnected _ _ HP)|assumption].
Qed.

Context (HO : Spec.StableOps P).

Lemma stable_handleMessage env parsed c : P c -> P (handleMessage env parsed c).
Proof.
  intros Hc. unfold handleMessage.
  destruct (Protocol.deserialize (utc_offset env) parsed) as [msg|]; [|assumption].
  assert (P (note_received env c)) as Hnote by now apply (Spec.st_stats _ _ HP).
  destruct (type msg); try assumption.
  - now apply stable_handleSubscriptionMessage.
  - unfold handleErrorMessage. apply stable_fire; [quiet|assumption].
  - now apply (Spec.so_handleAuthMessage _ HO).
  - unfold handlePongMessage.
    now apply (Spec.st_missedPongs _ _ HP), (Spec.st_lastPongReceived _ _ HP).
Qed.

Lemma stable_deliver env e c : P c -> P (deliver env e c).
Proof.
  intros Hc. destruct e; cbn [deliver].
  - apply stable_onTransportDisconnected. now apply (Spec.st_transport _ _ HP).
  - now apply stable_handleMessage.
  - now apply stable_onTransportError.
Qed.

Lemma stable_poll env events outcome sample c :
  P c -> P (poll env events outcome sample c).
Proof.
  intros Hc. unfold poll.
  set (c1 := fold_left _ events c).
  assert (P c1) as Hc1
      by (subst c1; apply fold_left_keeps; [intros; now apply stable_deliver|assumption]).
  clearbody c1.
  set (c2 := match state_ c1 with ConnectionState.Connected => _ | _ => c1 end).
  assert (P c2) as Hc2.
  { subst c2. destruct (state_ c1); try assumption.
    destruct (HeartbeatConfig.enabled _); [|assumption].
    now apply stable_processHeartbeat. }
  clearbody c2.
  destruct (state_ c2); try assumption. now apply stable_processReconnection.
Qed.

Lemma stable_connect_begin env outcome c : P c -> P (snd (connect_begin env outcome c)).
Proof.
  intros Hc. unfold connect_begin.
  assert (P (setState env ConnectionState.Connecting c)) as Hconnecting
      by (apply stable_setState; [apply (Spec.st_connecting _ _ HP)|assumption]).
  pose proof (stable_transport_connect env outcome _ Hconnecting) as Hconnect.
  destruct (state_ c); try assumption;
    destruct (transport_connect env outcome _) as [result c']; cbn [snd] in *;
    destruct (failed result); cbn [snd]; try assumption;
    (apply stable_setState; [apply (Spec.st_disconnected _ _ HP)|assumption]).
Qed.

Lemma stable_connectAsync env outcome c : P c -> P (snd (connectAsync env outcome c)).
Proof.
  intros Hc. unfold connectAsync.
  assert (P (setState env ConnectionState.Connecting c)) as Hconnecting
      by (apply stable_setState; [apply (Spec.st_connecting _ _ HP)|assumption]).
  pose proof (stable_transport_connect env outcome _ Hconnecting) as Hconnect.
  destruct (state_ c); try assumption;
    destruct (transport_connect env outcome _) as [result c']; cbn [snd] in *;
    destruct (failed result); cbn [snd]; try assumption;
    (apply stable_setState; [apply (Spec.st_disconnected _ _ HP)|assumption]).
Qed.

Lemma stable_connect_timeout env c : P c -> P (connect_timeout env c).
Proof.
  intros Hc. unfold connect_timeout.
  destruct (state_ c); try assumption;
    (apply stable_setState; [apply (Spec.st_disconnected _ _ HP)|]);
    now apply stable_transport_disconnect.
Qed.

Lemma stable_connect_resume env c : P c -> P (snd (connect_resume env c)).
Proof.
  intros Hc. unfold connect_resume.
  destruct (state_ c); try assumption. now apply (Spec.so_doAuthentication _ HO).
Qed.

Lemma stable_auth_timeout env c : P c -> P (auth_timeout env c).
Proof.
  intros Hc. unfold auth_timeout.
  destruct (_ || _); [assumption|].
  apply stable_setState; [apply (Spec.st_disconnected _ _ HP)|].
  now apply stable_transport_disconnect.
Qed.

Lemma stable_publish env subject payload c : P c -> P (snd (publish env subject payload c)).
Proof.
  intros Hc. unfold publish.
  destruct (state_ c); try assumption.
  destruct (negb (Protocol.isValidSubject subject)); [assumption|].
  destruct (Protocol.serialize_throws (system_now env) (Message.publish subject payload));
    [assumption|].
  pose proof (stable_transport_send
                (Protocol.serialize (system_now env) (Message.publish subject payload)) c Hc)
    as Hsend.
  destruct (transport_send _ c) as [result c']; cbn [snd] in *.
  destruct (failed result); cbn [snd]; [assumption|].
  now apply (Spec.st_stats _ _ HP).
Qed.

Lemma stable_unsubscribe_subject env subject c :
  P c -> P (snd (unsubscribe_subject env subject c)).
Proof.
  intros Hc. unfold unsubscribe_subject.
  destruct (subjectToId_ c !! subject); [|assumption].
  now apply (Spec.so_unsubscribe _ HO).
Qed.

(** Every call of the interface, every wait that ends and every poll
    keeps a stable property. *)
Lemma stable_step c ec : P c -> P (step c ec).
Proof.
  intros Hc. destruct ec as [env call]. destruct call; cbn [step].
  - now apply stable_connect_begin.
  - now apply stable_connect_timeout.
  - now apply stable_connect_resume.
  - now apply stable_auth_timeout.
  - now apply stable_connectAsync.
  - now apply (Spec.so_disconnect _ HO).
  - now apply stable_publish.
  - now apply (Spec.so_subscribe _ HO).
  - now apply (Spec.so_unsubscribe _ HO).
  - now apply stable_unsubscribe_subject.
  - now apply stable_poll.
  - now apply (Spec.st_callbacks _ _ HP).
Qed.

Lemma stable_run calls : forall c, P c -> P (run calls c).
Proof.
  unfold run. induction calls as [|ec calls IH]; intros c Hc; cbn; [assumption|].
  apply IH. now apply stable_step.
Qed.
End Preservation.

(** ** The engine's state machine *)

Section Engine.
Import Impl.

Lemma transport_send_eq frame c :
  transport_send frame c =
  (if Spec.transport_connected c then Ok tt
   else Err ErrorCode.NotConnected "Not connected",
   emit (TransportSend frame (Spec.transport_connected c)) c).
Proof. unfold transport_send, Spec.transport_connected. now destruct (transport_ c). Qed.

Lemma resubscribe_loop env registry : forall c,
  fold_left
    (fun c (entry : SubscriptionId * Subscription) =>
       if sub_active (snd entry)
       then snd (transport_send
                   (Protocol.serialize (system_now env)
                                       (Message.subscribe (sub_subject (snd entry)))) c)
       else c)
    registry c
  = set_trace (trace c ++ Spec.resubscriptions env (Spec.transport_connected c) registry) c.
Proof.
  unfold Spec.resubscriptions.
  induction registry as [|entry registry IH]; intros c; cbn [fold_left List.filter List.map].
  - now rewrite app_nil_r, set_trace_id.
  - rewrite IH. destruct (sub_active (snd entry)); [|reflexivity].
    rewrite transport_send_eq. cbn [snd List.map].
    rewrite set_trace_emit. cbn [trace emit set_trace].
    now rewrite <- app_assoc.
Qed.

(** [resubscribeAll] changes nothing but the trace. *)
Lemma resubscribeAll_trace env c :
  resubscribeAll env c =
  if ReconnectPolicy.shouldResubscribe (reconnectPolicy_ c)
  then set_trace (trace c ++ Spec.resubscriptions env (Spec.transport_connected c)
                                                  (subscriptions_ c)) c
  else c.
Proof.
  unfold resubscribeAll.
  destruct (ReconnectPolicy.shouldResubscribe (reconnectPolicy_ c)); cbn [negb];
    [apply resubscribe_loop|reflexivity].
Qed.

(** [setState] sets the state and adds its effects to the trace. *)
Lemma setState_trace env s c :
  setState env s c = set_trace (trace c ++ Spec.setState_effects env s c) (set_state s c).
Proof.
  unfold setState, Spec.setState_effects.
  destruct (ConnectionState.eqb (state_ c) s); cbn [negb].
  - rewrite app_nil_r. now destruct c.
  - unfold fire. cbn [callbacks_ set_state].
    destruct (ClientCallbacks.onStateChanged (callbacks_ c));
      destruct s; try (rewrite resubscribeAll_trace; cbn;
                       destruct (ReconnectPolicy.shouldResubscribe (reconnectPolicy_ c)));
      cbn; rewrite ?app_nil_r, <- ?app_assoc; try reflexivity; now destruct c.
Qed.

Lemma state_setState env s c : state_ (setState env s c) = s.
Proof. now rewrite setState_trace. Qed.

Lemma authManager_setState env s c : authManager_ (setState env s c) = authManager_ c.
Proof. now rewrite setState_trace. Qed.

Lemma trace_setState env s c :
  trace (setState env s c) = trace c ++ Spec.setState_effects env s c.
Proof. now rewrite setState_trace. Qed.

Lemma eqb_neq a b : a <> b -> ConnectionState.eqb a b = false.
Proof. destruct a, b; cbn; congruence. Qed.

Lemma handleMessage_success msg auth :
  AuthManager.state_ auth = AuthState.Authenticating ->
  Spec.auth_success msg = true ->
  AuthManager.handleMessage msg auth
  = (true, AuthManager.mk AuthState.Authenticated
                          (AuthResult.deviceInfo (AuthManager.processAuthResponse msg)) false).
Proof.
  intros Hstate Hsuccess. unfold Spec.auth_success in Hsuccess.
  apply andb_prop in Hsuccess as [Htype Hok].
  unfold AuthManager.handleMessage. now rewrite Hstate, Htype, Hok.
Qed.

(** The trace of an accepted Auth response, for a client that is not yet
    in the Connected state. *)
Lemma handleAuthMessage_success env msg c :
  AuthManager.state_ (authManager_ c) = AuthState.Authenticating ->
  state_ c <> ConnectionState.Connected ->
  Spec.auth_success msg = true ->
  let c' := handleAuthMessage env msg c in
  state_ c' = ConnectionState.Connected
  /\ authManager_ c'
     = AuthManager.mk AuthState.Authenticated
                      (AuthResult.deviceInfo (AuthManager.processAuthResponse msg)) false
  /\ trace c' =
     trace c
     ++ (if ClientCallbacks.onStateChanged (callbacks_ c)
         then [OnStateChanged (state_ c) ConnectionState.Connected] else [])
     ++ (if ReconnectPolicy.resubscribe_ (reconnectPolicy_ c)
         then Spec.resubscriptions env (Spec.transport_connected c) (subscriptions_ c)
         else [])
     ++ (if ClientCallbacks.onConnected (callbacks_ c) then [OnConnected] else []).
Proof.
  intros Hauth Hstate Hsuccess. cbn zeta. unfold handleAuthMessage.
  rewrite (handleMessage_success _ _ Hauth Hsuccess).
  cbn [authManager_ set_authManager AuthManager.isAuthenticated AuthManager.state_].
  rewrite setState_trace. unfold Spec.setState_effects, fire.
  cbn [state_ callbacks_ reconnectPolicy_ subscriptions_ trace set_trace set_state
       set_reconnectPolicy set_authManager note_connected set_stats authManager_ emit
       ReconnectPolicy.shouldResubscribe ReconnectPolicy.reset
       ReconnectPolicy.with_attemptCount ReconnectPolicy.resubscribe_].
  rewrite (eqb_neq _ _ Hstate).
  unfold Spec.transport_connected, note_connected.
  destruct (ClientCallbacks.onConnected (callbacks_ c));
    cbn [state_ authManager_ trace emit set_trace set_stats set_state transport_
         set_reconnectPolicy set_authManager];
    repeat split; rewrite <- ?app_assoc, ?app_nil_r; reflexivity.
Qed.
End Engine.

(** ** The registry as a key-ordered map *)

Section RegistryMap.
Import Impl.

Lemma map_assign_keys id sub m key :
  In key (List.map fst (map_assign id sub m)) <-> key = id \/ In key (List.map fst m).
Proof.
  induction m as [|[k x] m IH]; cbn.
  - intuition.
  - destruct (N.eqb_spec k id) as [->|Hne]; cbn; [intuition|].
    destruct (N.ltb_spec id k); cbn; [intuition|].
    rewrite IH. intuition.
Qed.

Lemma map_erase_keys id m key :
  In key (List.map fst (map_erase id m)) -> In key (List.map fst m).
Proof.
  induction m as [|[k x] m IH]; cbn; [auto|].
  destruct (N.eqb_spec k id); cbn; intuition.
Qed.

Lemma map_assign_sorted id sub m :
  StronglySorted N.lt (List.map fst m) ->
  StronglySorted N.lt (List.map fst (map_assign id sub m)).
Proof.
  induction m as [|[k x] m IH]; cbn; intros Hsorted.
  - repeat constructor.
  - inversion Hsorted as [|? ? Hrest Hk]; subst.
    destruct (N.eqb_spec k id) as [->|Hne]; cbn; [now constructor|].
    destruct (N.ltb_spec id k) as [Hlt|Hge]; cbn.
    + constructor; [now constructor|].
      constructor; [assumption|].
      eapply List.Forall_impl; [|exact Hk]. cbn. intros y Hy. lia.
    + constructor; [now apply IH|].
      apply List.Forall_forall. intros y Hy. apply map_assign_keys in Hy as [->|Hy]; [lia|].
      now apply (proj1 (List.Forall_forall _ _) Hk).
Qed.

Lemma map_erase_sorted id m :
  StronglySorted N.lt (List.map fst m) ->
  StronglySorted N.lt (List.map fst (map_erase id m)).
Proof.
  induction m as [|[k x] m IH]; cbn; intros Hsorted; [constructor|].
  inversion Hsorted as [|? ? Hrest Hk]; subst.
  destruct (N.eqb_spec k id); cbn; [assumption|].
  constructor; [now apply IH|].
  apply List.Forall_forall. intros y Hy. apply map_erase_keys in Hy.
  now apply (proj1 (List.Forall_forall _ _) Hk).
Qed.

Lemma map_assign_filed id sub m :
  sub_id sub = id ->
  Forall (fun entry : SubscriptionId * Subscription => sub_id (snd entry) = fst entry) m ->
  Forall (fun entry : SubscriptionId * Subscription => sub_id (snd entry) = fst entry)
         (map_assign id sub m).
Proof.
  intros <-. induction m as [|[k x] m IH]; cbn; intros Hm.
  - now repeat constructor.
  - inversion Hm; subst.
    destruct (N.eqb_spec k (sub_id sub)) as [->|Hne]; [now constructor|].
    destruct (N.ltb_spec (sub_id sub) k); constructor; auto.
Qed.

Lemma map_erase_filed id m :
  Forall (fun entry : SubscriptionId * Subscription => sub_id (snd entry) = fst entry) m ->
  Forall (fun entry : SubscriptionId * Subscription => sub_id (snd entry) = fst entry)
         (map_erase id m).
Proof.
  induction m as [|[k x] m IH]; cbn; intros Hm; [constructor|].
  inversion Hm; subst. destruct (N.eqb_spec k id); [assumption|]. constructor; auto.
Qed.
End RegistryMap.

(** ** Invariants of the engine *)

Section Invariants.
Import Impl.

Ltac quiet := intros ?; discriminate.

(** Operations that leave the authentication manager to a property's
    discretion keep it through an Auth response, the start of an
    authentication and [disconnect]. *)
Lemma ops_auth_indifferent (P : Impl.t -> Prop) okS :
  Spec.Stable P okS ->
  (forall a c, P c -> P (set_authManager a c)) ->
  okS ConnectionState.Connected -> okS ConnectionState.Closing ->
  okS ConnectionState.Closed ->
  (forall c, P c ->
             P (set_reconnectPolicy (ReconnectPolicy.setEnabled false (reconnectPolicy_ c)) c)) ->
  (forall env msg c, P c -> P (handleAuthMessage env msg c))
  /\ (forall env c, P c -> P (snd (doAuthentication env c)))
  /\ (forall env c, P c -> P (disconnect env c)).
Proof.
  intros HP Hauth Hconnected Hclosing Hclosed Hoff. repeat split.
  - intros env msg c Hc. unfold handleAuthMessage.
    destruct (AuthManager.handleMessage msg (authManager_ c)) as [handled auth].
    assert (P (set_authManager auth c)) as Hset by now apply Hauth.
    destruct handled; [|assumption].
    destruct (AuthManager.isAuthenticated _).
    + apply (stable_fire HP); [quiet|].
      apply (Spec.st_stats _ _ HP).
      apply (stable_setState HP); [assumption|].
      now apply (Spec.st_policy _ _ HP).
    + apply (stable_setState HP); [apply (Spec.st_disconnected _ _ HP)|assumption].
  - intros env c Hc. unfold doAuthentication.
    assert (P (set_authManager
                 (AuthManager.startAuth
                    (authManager_ (setState env ConnectionState.Authenticating c)))
                 (setState env ConnectionState.Authenticating c))) as Hstarted.
    { apply Hauth.
      apply (stable_setState HP); [apply (Spec.st_authenticating _ _ HP)|assumption]. }
    destruct (Protocol.serialize_throws _ _); [exact Hstarted|].
    rewrite transport_send_eq.
    set (c' := emit _ _).
    assert (P c') as Hc'.
    { subst c'. apply (Spec.st_emit _ _ HP); [quiet|]. exact Hstarted. }
    clearbody c'.
    destruct (failed _); cbn [snd]; [|assumption].
    apply (stable_setState HP); [apply (Spec.st_disconnected _ _ HP)|assumption].
  - intros env c Hc. unfold disconnect.
    destruct (state_ c); try assumption;
      (apply (stable_setState HP); [assumption|]); apply Hauth;
      apply (stable_transport_disconnect HP);
      (apply (stable_setState HP); [assumption|]); now apply Hoff.
Qed.

(** Operations that leave the registry to a property's discretion keep it
    through [subscribe] and [unsubscribe]. *)
Lemma ops_registry_indifferent (P : Impl.t -> Prop) okS :
  Spec.Stable P okS ->
  (forall x c, P c -> P (set_subscriptions x c)) ->
  (forall x c, P c -> P (set_subjectToId x c)) ->
  (forall x c, P c -> P (set_nextSubscriptionId x c)) ->
  (forall env subject handler c, P c -> P (snd (subscribe env subject handler c)))
  /\ (forall env id c, P c -> P (snd (unsubscribe env id c))).
Proof.
  intros HP Hsubs Hsubject Hnext. split.
  - intros env subject handler c Hc. unfold subscribe.
    destruct (state_ c); try assumption.
    destruct (negb (Protocol.isValidSubject subject)); [assumption|].
    rewrite transport_send_eq.
    set (c' := emit _ _).
    assert (P c') as Hc'.
    { subst c'. apply (Spec.st_emit _ _ HP); [quiet|]. now apply Hsubject, Hsubs, Hnext. }
    clearbody c'.
    destruct (Spec.transport_connected _); cbn [snd]; [assumption|].
    now apply Hsubject, Hsubs.
  - intros env id c Hc. unfold unsubscribe.
    destruct (map_find id (subscriptions_ c)) as [sub|]; [|assumption].
    cbn [snd]. apply Hsubs, Hsubject.
    destruct (state_ c); try assumption. now apply (stable_transport_send HP).
Qed.

(** *** The authentication manager and the connection state *)

Lemma AuthInvariant_stable :
  Spec.Stable Spec.AuthInvariant
              (fun s => s <> ConnectionState.Connected /\ s <> ConnectionState.Closed).
Proof.
  split; unfold Spec.AuthInvariant; cbn; try tauto; try (split; discriminate).
Qed.

Lemma handleMessage_cases msg auth :
  AuthManager.handleMessage msg auth = (false, auth)
  \/ (AuthManager.state_ auth = AuthState.Authenticating
      /\ exists auth', AuthManager.handleMessage msg auth = (true, auth')
                       /\ (AuthManager.isAuthenticated auth' = true ->
                           AuthManager.state_ auth' = AuthState.Authenticated)).
Proof.
  unfold AuthManager.handleMessage.
  destruct (AuthManager.state_ auth) eqn:Hstate; auto.
  destruct (negb (MessageType.eqb (type msg) MessageType.Auth)); auto.
  right. split; [reflexivity|].
  destruct (AuthResult.success _); eexists; (split; [reflexivity|]); cbn; congruence.
Qed.

Lemma AuthInvariant_ops : Spec.StableOps Spec.AuthInvariant.
Proof.
  pose proof AuthInvariant_stable as HP.
  destruct (ops_registry_indifferent _ _ HP) as [Hsubscribe Hunsubscribe];
    try (unfold Spec.AuthInvariant; cbn; tauto).
  split; try assumption.
  - intros env msg c Hc. unfold handleAuthMessage.
    destruct (handleMessage_cases msg (authManager_ c))
      as [->|(Hauth & auth' & -> & Hauthenticated)].
    + now destruct c.
    + cbn [authManager_ set_authManager].
      destruct (AuthManager.isAuthenticated auth') eqn:Hok.
      * unfold fire. rewrite setState_trace.
        destruct (ClientCallbacks.onConnected _); split; cbn; auto; discriminate.
      * rewrite setState_trace. split; cbn; discriminate.
  - intros env c Hc. unfold doAuthentication.
    destruct (Protocol.serialize_throws _ _);
      [rewrite setState_trace; split; cbn; discriminate|].
    rewrite transport_send_eq, !setState_trace.
    destruct (Spec.transport_connected _); cbn [failed snd];
      rewrite ?setState_trace; split; cbn; discriminate.
  - intros env c Hc. unfold disconnect.
    destruct (state_ c); try assumption; rewrite setState_trace; split; cbn;
      try discriminate; auto.
Qed.

(** In every state the engine rests in, Connected means authenticated and
    Closed means that the authentication manager has been reset. *)
Lemma reachable_AuthInvariant config c : reachable config c -> Spec.AuthInvariant c.
Proof.
  intros [calls ->]. apply (stable_run AuthInvariant_stable AuthInvariant_ops).
  split; cbn; [discriminate|discriminate].
Qed.

Lemma deviceInfo_of_success msg :
  Spec.auth_success msg = true ->
  (AuthResult.deviceInfo (AuthManager.processAuthResponse msg) <> None <->
   JsonValue.contains (payload msg) "device"
   && JsonValue.isObject (JsonValue.at_key (payload msg) "device") = true).
Proof.
  unfold Spec.auth_success. intros Hsuccess.
  apply andb_prop in Hsuccess as [Htype Hok].
  unfold AuthManager.processAuthResponse in *. rewrite Htype in *. cbn [negb] in *.
  cbn [AuthResult.success AuthResult.deviceInfo] in *. rewrite Hok. cbn [andb].
  destruct (JsonValue.contains (payload msg) "device"
            && JsonValue.isObject (JsonValue.at_key (payload msg) "device"));
    split; congruence.
Qed.

(** C4, as the code has it by design.  In every state the engine rests in:
    if the connection state is Connected the authentication manager is
    Authenticated, and if it is Closed the manager is NotAuthenticated and
    holds no DeviceIdentity.  An accepted Auth response with success takes
    the engine to Connected with the DeviceIdentity extracted from the
    payload's [device] member, none if the payload has no such object.
    What the manager holds after a transport loss is left open. *)
Theorem auth_identity_invariant :
  (forall config c,
      reachable config c ->
      (state_ c = ConnectionState.Connected ->
       AuthManager.state_ (authManager_ c) = AuthState.Authenticated)
      /\ (state_ c = ConnectionState.Closed ->
          AuthManager.state_ (authManager_ c) = AuthState.NotAuthenticated
          /\ AuthManager.deviceInfo_ (authManager_ c) = None))
  /\ (forall config env msg c,
         reachable config c ->
         AuthManager.state_ (authManager_ c) = AuthState.Authenticating ->
         Spec.auth_success msg = true ->
         let c' := handleAuthMessage env msg c in
         state_ c' = ConnectionState.Connected
         /\ AuthManager.deviceInfo_ (authManager_ c')
            = AuthResult.deviceInfo (AuthManager.processAuthResponse msg)
         /\ (AuthManager.deviceInfo_ (authManager_ c') <> None <->
             JsonValue.contains (payload msg) "device"
             && JsonValue.isObject (JsonValue.at_key (payload msg) "device") = true)).
Proof.
  split.
  - intros config c Hreach. exact (reachable_AuthInvariant config c Hreach).
  - intros config env msg c Hreach Hauth Hsuccess.
    assert (state_ c <> ConnectionState.Connected) as Hstate.
    { intros Hconnected.
      apply (reachable_AuthInvariant config c Hreach) in Hconnected. congruence. }
    destruct (handleAuthMessage_success env msg c Hauth Hstate Hsuccess)
      as (Hconnected & Hmanager & _).
    cbn zeta. rewrite Hmanager. cbn [AuthManager.deviceInfo_].
    repeat split; auto; now apply deviceInfo_of_success.
Qed.

Lemma auth_identity_invariant_witness :
  let c := Scenario.connected Scenario.config Scenario.auth_ok_device in
  reachable Scenario.config c
  /\ ((state_ c = ConnectionState.Connected ->
       AuthManager.state_ (authManager_ c) = AuthState.Authenticated)
      /\ (state_ c = ConnectionState.Closed ->
          AuthManager.state_ (authManager_ c) = AuthState.NotAuthenticated
          /\ AuthManager.deviceInfo_ (authManager_ c) = None)).
Proof.
  assert (reachable Scenario.config
                    (Scenario.connected Scenario.config Scenario.auth_ok_device)) as Hreach
      by (eexists; reflexivity).
  split; [exact Hreach|].
  exact (proj1 auth_identity_invariant Scenario.config _ Hreach).
Defined.

(** C4 as stated fails: after an Auth response with [success: true] and no
    [device] member the engine is Connected and the authentication manager
    holds no DeviceIdentity. *)
Lemma connected_without_identity :
  let c := Scenario.connected Scenario.config Scenario.auth_ok in
  reachable Scenario.config c
  /\ state_ c = ConnectionState.Connected
  /\ AuthManager.deviceInfo_ (authManager_ c) = None.
Proof. split; [eexists; reflexivity|]. vm_compute. split; reflexivity. Qed.

(** The transport-loss path, for the record: the handler of the
    transport's close does not reset the authentication manager, which
    [disconnect] does. *)
Lemma identity_survives_transport_loss :
  let c := Scenario.connected Scenario.config_no_resubscribe Scenario.auth_ok_device in
  let c' := poll Scenario.env [PeerClosed] InvalidUrl 0%Q c in
  state_ c' = ConnectionState.Disconnected
  /\ AuthManager.state_ (authManager_ c') = AuthState.Authenticated
  /\ AuthManager.deviceInfo_ (authManager_ c') <> None
  /\ AuthManager.deviceInfo_ (authManager_ (disconnect Scenario.env c)) = None.
Proof. vm_compute. repeat split; try reflexivity. discriminate. Qed.

(** *** The registry stays a key-ordered map *)

Lemma RegistrySorted_stable : Spec.Stable Spec.RegistrySorted (fun _ => True).
Proof. split; unfold Spec.RegistrySorted; cbn; tauto. Qed.

Lemma RegistrySorted_ops : Spec.StableOps Spec.RegistrySorted.
Proof.
  pose proof RegistrySorted_stable as HP.
  destruct (ops_auth_indifferent _ _ HP) as (Hauth & HdoAuth & Hdisconnect);
    try (unfold Spec.RegistrySorted; cbn; tauto).
  split; try assumption.
  - intros env subject handler c [Hsorted Hfiled]. unfold subscribe.
    destruct (state_ c); try (split; assumption).
    destruct (negb (Protocol.isValidSubject subject)); [split; assumption|].
    rewrite transport_send_eq.
    destruct (Spec.transport_connected _); cbn [snd]; split; cbn;
      repeat first [ apply map_erase_sorted | apply map_assign_sorted
                   | apply map_erase_filed | apply map_assign_filed ];
      auto.
  - intros env id c [Hsorted Hfiled]. unfold unsubscribe.
    destruct (map_find id (subscriptions_ c)); [|split; assumption].
    cbn [snd]. split; cbn; [apply map_erase_sorted|apply map_erase_filed];
      destruct (state_ c); try assumption; now rewrite transport_send_eq.
Qed.

Lemma reachable_RegistrySorted config c : reachable config c -> Spec.RegistrySorted c.
Proof.
  intros [calls ->]. apply (stable_run RegistrySorted_stable RegistrySorted_ops).
  split; cbn; constructor.
Qed.

(** C7, as the code has it.  When an Auth response with success is
    accepted while the authentication manager is Authenticating, and the
    policy's [resubscribeOnReconnect] is set, the engine enters Connected,
    sends one Subscribe frame for every active entry of the registry in
    ascending order of subscription id, and only then invokes
    [onConnected]. *)
Theorem resubscribe_before_onConnected config env msg c :
  reachable config c ->
  AuthManager.state_ (authManager_ c) = AuthState.Authenticating ->
  Spec.auth_success msg = true ->
  ReconnectPolicy.resubscribe_ (reconnectPolicy_ c) = true ->
  let c' := handleAuthMessage env msg c in
  trace c' =
    trace c
    ++ (if ClientCallbacks.onStateChanged (callbacks_ c)
        then [OnStateChanged (state_ c) ConnectionState.Connected] else [])
    ++ Spec.resubscriptions env (Spec.transport_connected c) (subscriptions_ c)
    ++ (if ClientCallbacks.onConnected (callbacks_ c) then [OnConnected] else [])
  /\ StronglySorted N.lt (List.map fst (subscriptions_ c))
  /\ Forall (fun entry : SubscriptionId * Subscription => sub_id (snd entry) = fst entry)
            (subscriptions_ c)
  /\ state_ c' = ConnectionState.Connected.
Proof.
  intros Hreach Hauth Hsuccess Hresubscribe.
  assert (state_ c <> ConnectionState.Connected) as Hstate.
  { intros Hconnected.
    apply (reachable_AuthInvariant config c Hreach) in Hconnected. congruence. }
  destruct (handleAuthMessage_success env msg c Hauth Hstate Hsuccess)
    as (Hconnected & _ & Htrace).
  destruct (reachable_RegistrySorted config c Hreach) as [Hsorted Hfiled].
  cbn zeta. rewrite Htrace, Hresubscribe. auto.
Qed.

Lemma resubscribe_before_onConnected_witness :
  let c := Scenario.reauthenticating Scenario.config in
  let c' := handleAuthMessage Scenario.env Scenario.auth_ok_message c in
  (reachable Scenario.config c
   /\ AuthManager.state_ (authManager_ c) = AuthState.Authenticating
   /\ Spec.auth_success Scenario.auth_ok_message = true
   /\ ReconnectPolicy.resubscribe_ (reconnectPolicy_ c) = true)
  /\ (trace c' =
        trace c
        ++ (if ClientCallbacks.onStateChanged (callbacks_ c)
            then [OnStateChanged (state_ c) ConnectionState.Connected] else [])
        ++ Spec.resubscriptions Scenario.env (Spec.transport_connected c) (subscriptions_ c)
        ++ (if ClientCallbacks.onConnected (callbacks_ c) then [OnConnected] else [])
      /\ StronglySorted N.lt (List.map fst (subscriptions_ c))
      /\ Forall (fun entry : SubscriptionId * Subscription => sub_id (snd entry) = fst entry)
                (subscriptions_ c)
      /\ state_ c' = ConnectionState.Connected).
Proof.
  assert (reachable Scenario.config (Scenario.reauthenticating Scenario.config)) as Hreach
      by (eexists; reflexivity).
  cbn zeta. split.
  - split; [exact Hreach|]. vm_compute. repeat split; reflexivity.
  - apply (resubscribe_before_onConnected Scenario.config Scenario.env
                                          Scenario.auth_ok_message _ Hreach);
      vm_compute; reflexivity.
Defined.

(** C7 as stated fails: with [resubscribeOnReconnect] off, an accepted
    Auth response takes the engine to Connected and invokes [onConnected]
    without a Subscribe frame for the two active subscriptions. *)
Lemma no_resubscribe_when_switched_off :
  let c := Scenario.reauthenticating Scenario.config_no_resubscribe in
  let c' := handleAuthMessage Scenario.env Scenario.auth_ok_message c in
  AuthManager.state_ (authManager_ c) = AuthState.Authenticating
  /\ state_ c = ConnectionState.Authenticating
  /\ Spec.auth_success Scenario.auth_ok_message = true
  /\ getSubscriptions c = ["a.b"; "a.c"]
  /\ trace c' = trace c ++ [OnConnected]
  /\ state_ c' = ConnectionState.Connected.
Proof. vm_compute. repeat split; reflexivity. Qed.

(** Section 8, scenario 4: "a.b" then "a.c", both before [onConnected]. *)
Lemma resubscribe_scenario :
  let c := Scenario.reauthenticating Scenario.config in
  let c' := handleAuthMessage Scenario.env Scenario.auth_ok_message c in
  trace c' =
    trace c
    ++ [TransportSend (Protocol.serialize (system_now Scenario.env) (Message.subscribe "a.b")) true;
        TransportSend (Protocol.serialize (system_now Scenario.env) (Message.subscribe "a.c")) true;
        OnConnected].
Proof. vm_compute. reflexivity. Qed.

(** *** After [disconnect] the reconnect policy stays off *)

Lemma ReconnectOff_stable since :
  Spec.Stable (Spec.ReconnectOff since) (fun s => s <> ConnectionState.Reconnecting).
Proof.
  split; unfold Spec.ReconnectOff; cbn; try tauto; try discriminate; try congruence.
  - intros e c He (Hoff & Hstate & tr & Htrace & Hquiet).
    repeat split; auto. exists (tr ++ [e]). rewrite Htrace, <- app_assoc.
    split; [reflexivity|]. apply List.Forall_app. auto.
  - intros n c Hon (Hoff & _). congruence.
  - intros c (Hoff & _) Hon. congruence.
Qed.

Lemma ReconnectOff_ops since : Spec.StableOps (Spec.ReconnectOff since).
Proof.
  pose proof (ReconnectOff_stable since) as HP.
  destruct (ops_auth_indifferent _ _ HP) as (Hauth & HdoAuth & Hdisconnect);
    try (unfold Spec.ReconnectOff; cbn; tauto); try discriminate.
  destruct (ops_registry_indifferent _ _ HP) as [Hsubscribe Hunsubscribe];
    try (unfold Spec.ReconnectOff; cbn; tauto).
  split; assumption.
Qed.

Lemma ReconnectOff_restart since c : Spec.ReconnectOff since c -> Spec.ReconnectOff (trace c) c.
Proof.
  intros (Hoff & Hstate & _). repeat split; auto.
  exists []. split; [now rewrite app_nil_r|constructor].
Qed.

Lemma disconnect_switches_off env c :
  state_ c <> ConnectionState.Disconnected ->
  state_ c <> ConnectionState.Closed ->
  Spec.ReconnectOff (trace (disconnect env c)) (disconnect env c).
Proof.
  intros Hdisconnected Hclosed.
  set (c0 := setState env ConnectionState.Closing
               (set_reconnectPolicy (ReconnectPolicy.setEnabled false (reconnectPolicy_ c)) c)).
  assert (Spec.ReconnectOff (trace c0) c0) as Hc0.
  { subst c0. rewrite setState_trace. repeat split; cbn; [discriminate|].
    exists []. split; [now rewrite app_nil_r|constructor]. }
  apply (ReconnectOff_restart (trace c0)).
  pose proof (ReconnectOff_stable (trace c0)) as HP.
  assert (disconnect env c
          = setState env ConnectionState.Closed
              (set_authManager
                 (AuthManager.reset (authManager_ (transport_disconnect env 1000 "Client disconnect" c0)))
                 (transport_disconnect env 1000 "Client disconnect" c0))) as ->
      by (unfold disconnect; subst c0; destruct (state_ c); congruence).
  apply (stable_setState HP); [discriminate|].
  assert (Spec.ReconnectOff (trace c0) (transport_disconnect env 1000 "Client disconnect" c0))
    as Hc1 by now apply (stable_transport_disconnect HP).
  unfold Spec.ReconnectOff in *. cbn. exact Hc1.
Qed.

Lemma onTransportDisconnected_off env code reason c :
  ReconnectPolicy.enabled_ (reconnectPolicy_ c) = false ->
  let c' := onTransportDisconnected env code reason c in
  state_ c' = ConnectionState.Disconnected
  /\ trace c' = trace c
                ++ Spec.setState_effects env ConnectionState.Disconnected c
                ++ (if ClientCallbacks.onDisconnected (callbacks_ c)
                    then [OnDisconnected code reason] else []).
Proof.
  intros Hoff. cbn zeta. unfold onTransportDisconnected, ReconnectPolicy.isEnabled.
  rewrite Hoff. cbn [andb]. rewrite setState_trace. unfold fire.
  cbn [callbacks_ set_trace set_state].
  destruct (ClientCallbacks.onDisconnected (callbacks_ c)); cbn;
    rewrite <- ?app_assoc, ?app_nil_r; auto.
Qed.

(** C10.  Once [disconnect] has been called on a client that is neither
    Disconnected nor Closed, whatever is called afterwards: the reconnect
    policy stays disabled, the engine is never Reconnecting, no
    [onReconnecting] callback fires, and a loss of the transport takes the
    engine to Disconnected, invoking [onDisconnected] if it is set. *)
Theorem disconnect_disables_reconnect env c calls :
  state_ c <> ConnectionState.Disconnected ->
  state_ c <> ConnectionState.Closed ->
  let c1 := disconnect env c in
  let c2 := run calls c1 in
  ReconnectPolicy.enabled_ (reconnectPolicy_ c2) = false
  /\ state_ c2 <> ConnectionState.Reconnecting
  /\ (exists tr, trace c2 = trace c1 ++ tr /\ Forall Spec.not_reconnecting tr)
  /\ (forall env' code reason,
         let c3 := onTransportDisconnected env' code reason c2 in
         state_ c3 = ConnectionState.Disconnected
         /\ trace c3 = trace c2
                       ++ Spec.setState_effects env' ConnectionState.Disconnected c2
                       ++ (if ClientCallbacks.onDisconnected (callbacks_ c2)
                           then [OnDisconnected code reason] else [])).
Proof.
  intros Hdisconnected Hclosed. cbn zeta.
  pose proof (disconnect_switches_off env c Hdisconnected Hclosed) as Hoff.
  apply (stable_run (ReconnectOff_stable _) (ReconnectOff_ops _) calls) in Hoff.
  destruct Hoff as (Hoff & Hstate & Htrace).
  repeat split; auto.
  - now apply onTransportDisconnected_off.
  - now apply onTransportDisconnected_off.
Qed.

Lemma disconnect_disables_reconnect_witness :
  let c := Scenario.connected Scenario.config Scenario.auth_ok_device in
  let calls := Scenario.connect_calls Scenario.auth_ok_device
               ++ [(Scenario.env, CallPoll [PeerClosed] Established 0%Q)] in
  let c1 := disconnect Scenario.env c in
  let c2 := run calls c1 in
  (state_ c <> ConnectionState.Disconnected /\ state_ c <> ConnectionState.Closed)
  /\ ReconnectPolicy.enabled_ (reconnectPolicy_ c2) = false
  /\ state_ c2 <> ConnectionState.Reconnecting
  /\ (exists tr, trace c2 = trace c1 ++ tr /\ Forall Spec.not_reconnecting tr).
Proof.
  cbn zeta.
  assert (state_ (Scenario.connected Scenario.config Scenario.auth_ok_device)
          <> ConnectionState.Disconnected) as Hdisconnected
      by (vm_compute; discriminate).
  assert (state_ (Scenario.connected Scenario.config Scenario.auth_ok_device)
          <> ConnectionState.Closed) as Hclosed
      by (vm_compute; discriminate).
  split; [split; assumption|].
  destruct (disconnect_disables_reconnect
              Scenario.env _
              (Scenario.connect_calls Scenario.auth_ok_device
               ++ [(Scenario.env, CallPoll [PeerClosed] Established 0%Q)])
              Hdisconnected Hclosed) as (Hoff & Hstate & Htrace & _).
  repeat split; assumption.
Defined.

(** The run of the witness: after [disconnect] and a new session, the loss
    of the transport ends in Disconnected with [onDisconnected]. *)
Lemma reconnect_stays_off_scenario :
  let c := Scenario.connected Scenario.config Scenario.auth_ok_device in
  let c1 := run (Scenario.connect_calls Scenario.auth_ok_device) (disconnect Scenario.env c) in
  let c2 := poll Scenario.env [PeerClosed] Established 0%Q c1 in
  state_ c1 = ConnectionState.Connected
  /\ state_ c2 = ConnectionState.Disconnected
  /\ trace c2 = trace c1 ++ [OnDisconnected ErrorCode.ConnectionClosed "Connection closed"].
Proof. vm_compute. repeat split; reflexivity. Qed.
End Invariants.


(** ** Further properties of the matcher and its tokens *)

Section Tokens.
Import AuthManager.

Lemma splitTokens_dot s : splitTokens (String "." s) = "" :: splitTokens s.
Proof. now rewrite splitTokens_unfold. Qed.

(** The loop of [splitTokens] read structurally: a character that is no
    dot joins the first token of what follows. *)
Lemma splitTokens_char c s :
  Ascii.eqb c "." = false ->
  splitTokens (String c s) =
  match splitTokens s with
  | [] => [String c ""]
  | token :: rest => String c token :: rest
  end.
Proof.
  intros Hc. rewrite splitTokens_unfold. cbn [getline getline_from]. rewrite Hc.
  rewrite (splitTokens_unfold s).
  destruct s as [|c' s]; [reflexivity|].
  cbn [getline]. now destruct (getline_from "." (String c' s)).
Qed.

Lemma append_cons c (s1 s2 : string) : (String c s1 ++ s2)%string = String c (s1 ++ s2)%string.
Proof. reflexivity. Qed.

Lemma append_nil_r (s : string) : (s ++ "")%string = s.
Proof. induction s as [|c s IH]; [reflexivity|now rewrite append_cons, IH]. Qed.

Lemma append_assoc (s1 s2 s3 : string) : ((s1 ++ s2) ++ s3)%string = (s1 ++ (s2 ++ s3))%string.
Proof. induction s1 as [|c s1 IH]; [reflexivity|now rewrite !append_cons, IH]. Qed.

Lemma split_dots_cons current c s :
  Spec.split_dots current (String c s) =
  if Ascii.eqb c "." then current :: Spec.split_dots "" s
  else Spec.split_dots (current ++ String c "")%string s.
Proof. reflexivity. Qed.

Lemma split_dots_current current s :
  Spec.split_dots current s =
  match Spec.split_dots "" s with
  | [] => [current]
  | token :: rest => (current ++ token)%string :: rest
  end.
Proof.
  revert current. induction s as [|c s IH]; intros current.
  - cbn. now rewrite append_nil_r.
  - rewrite !split_dots_cons. destruct (Ascii.eqb c ".").
    + now rewrite append_nil_r.
    + change ("" ++ String c "")%string with (String c "").
      rewrite (IH (current ++ String c "")%string), (IH (String c "")).
      destruct (Spec.split_dots "" s) as [|token rest].
      * reflexivity.
      * now rewrite append_assoc.
Qed.

Lemma back_cons c c' s : Protocol.back (String c (String c' s)) = Protocol.back (String c' s).
Proof. unfold Protocol.back. cbn. now rewrite Nat.sub_0_r. Qed.

Lemma back_single c : Protocol.back (String c "") = Some c.
Proof. reflexivity. Qed.

Lemma splitTokens_nonempty c s : splitTokens (String c s) <> [].
Proof.
  destruct (Ascii.eqb c ".") eqn:Hc.
  - apply Ascii.eqb_eq in Hc as ->. now rewrite splitTokens_dot.
  - rewrite (splitTokens_char _ _ Hc). now destruct (splitTokens s).
Qed.

Lemma splitTokens_no_trailing_dot s :
  s <> "" -> Protocol.back s <> Some "."%char ->
  splitTokens s = Spec.split_dots "" s /\ splitTokens (s ++ ".") = splitTokens s.
Proof.
  induction s as [|c s IH]; intros Hne Hback; [congruence|].
  destruct s as [|c' s].
  - rewrite back_single in Hback.
    assert (Ascii.eqb c "." = false) as Hc
        by (destruct (Ascii.eqb_spec c "."%char); congruence).
    change (String c "" ++ ".")%string with (String c ".").
    rewrite !(splitTokens_char _ _ Hc), splitTokens_dot, split_dots_cons, Hc.
    split; reflexivity.
  - rewrite back_cons in Hback.
    destruct IH as [IHsplit IHdot]; [discriminate|assumption|].
    change (String c (String c' s) ++ ".")%string with (String c (String c' s ++ ".")).
    rewrite (split_dots_cons "" c).
    destruct (Ascii.eqb c ".") eqn:Hc.
    + apply Ascii.eqb_eq in Hc as ->. rewrite !splitTokens_dot.
      split; congruence.
    + rewrite !(splitTokens_char _ _ Hc), IHdot. split; [|reflexivity].
      change ("" ++ String c "")%string with (String c "").
      rewrite (split_dots_current (String c "")), <- IHsplit.
      pose proof (splitTokens_nonempty c' s).
      now destruct (splitTokens (String c' s)).
Qed.

Lemma matchesPattern_walk P S :
  matchesPattern P S = walk (splitTokens P) (splitTokens S).
Proof.
  unfold matchesPattern. destruct (String.eqb_spec P S) as [->|Hne]; [|reflexivity].
  symmetry. apply walk_lockstep, Lockstep_refl.
Qed.

Lemma split_dots_not_nil s : forall current, Spec.split_dots current s <> [].
Proof.
  induction s as [|c s IH]; intros current; [discriminate|].
  rewrite split_dots_cons. destruct (Ascii.eqb c "."); [discriminate|apply IH].
Qed.

Lemma split_dots_single_empty s : Spec.split_dots "" s = [""] -> s = "".
Proof.
  destruct s as [|c s]; [reflexivity|]. rewrite split_dots_cons.
  destruct (Ascii.eqb c ".").
  - intros Hsplit. injection Hsplit as Hrest. now apply split_dots_not_nil in Hrest.
  - rewrite split_dots_current. destruct (Spec.split_dots "" s); discriminate.
Qed.

Lemma empty_pattern_walk S :
  S <> "" -> Protocol.back S <> Some "."%char ->
  matchesPattern "" S = true <-> Spec.Lockstep (Spec.split_dots "" "") (Spec.split_dots "" S).
Proof.
  intros HS HSdot. split.
  - rewrite matchesPattern_walk. destruct S as [|c s]; [congruence|].
    pose proof (splitTokens_nonempty c s).
    change (splitTokens "") with (@nil string).
    now destruct (splitTokens (String c s)).
  - change (Spec.split_dots "" "") with [""]. intros Hwalk.
    inversion Hwalk as [| | |token patternRest subjectRest Hrest Htoken Hsplit]; subst.
    inversion Hrest; subst. symmetry in Hsplit.
    now apply split_dots_single_empty in Hsplit.
Qed.

(** C2, as the code has it.  For a pattern [P] that does not end in a dot
    and a subject [S] that is not empty and does not end in a dot,
    [AuthManager::matchesPattern(P, S)] is true exactly when the walk in
    lockstep over their dot-separated tokens succeeds: a literal token
    equals the subject's token, [*] takes exactly one subject token, [>] at
    a position succeeds exactly when the subject has a token there, and
    otherwise both token lists end together.  The four instances of the
    specification hold. *)
Theorem matchesPattern_lockstep :
  (forall P S,
      Protocol.back P <> Some "."%char ->
      S <> "" -> Protocol.back S <> Some "."%char ->
      matchesPattern P S = true
      <-> Spec.Lockstep (Spec.split_dots "" P) (Spec.split_dots "" S))
  /\ matchesPattern "a.b.c" "a.b.c" = true
  /\ matchesPattern "a.*.c" "a.b.c" = true
  /\ matchesPattern "a.>" "a.b.c.d" = true
  /\ matchesPattern "a.>" "a" = false.
Proof.
  split; [|repeat split; reflexivity].
  intros P S HPdot HS HSdot.
  destruct P as [|c P']; [now apply empty_pattern_walk|].
  destruct (splitTokens_no_trailing_dot (String c P')) as [<- _]; [discriminate|assumption|].
  destruct (splitTokens_no_trailing_dot S HS HSdot) as [<- _].
  rewrite matchesPattern_walk. apply walk_lockstep.
Qed.

Lemma matchesPattern_lockstep_witness :
  (Protocol.back "a.*.c" <> Some "."%char
   /\ "a.b.c" <> "" /\ Protocol.back "a.b.c" <> Some "."%char)
  /\ Spec.Lockstep (Spec.split_dots "" "a.*.c") (Spec.split_dots "" "a.b.c").
Proof.
  assert (Protocol.back "a.*.c" <> Some "."%char) as HPdot by discriminate.
  assert ("a.b.c" <> "") as HS by discriminate.
  assert (Protocol.back "a.b.c" <> Some "."%char) as HSdot by discriminate.
  split; [repeat split; assumption|].
  apply (proj1 (proj1 matchesPattern_lockstep "a.*.c" "a.b.c" HPdot HS HSdot)).
  reflexivity.
Defined.

(** C2 as stated fails where a string ends in a dot or the subject is
    empty: the tokenizer yields no empty token at the end.  The pattern
    [a.b] matches the subject [a.b.], whose dot-separated tokens are [a],
    [b] and the empty token, one more than the pattern has; the pattern
    [a.b.] matches the subject [a.b]; and [*] does not match the empty
    subject, whose one token is empty. *)
Lemma trailing_dot_matches :
  (matchesPattern "a.b" "a.b." = true
   /\ Spec.split_dots "" "a.b" = ["a"; "b"]
   /\ Spec.split_dots "" "a.b." = ["a"; "b"; ""]
   /\ ~ Spec.Lockstep (Spec.split_dots "" "a.b") (Spec.split_dots "" "a.b."))
  /\ (matchesPattern "a.b." "a.b" = true
      /\ ~ Spec.Lockstep (Spec.split_dots "" "a.b.") (Spec.split_dots "" "a.b"))
  /\ (matchesPattern "*" "" = false
      /\ Spec.Lockstep (Spec.split_dots "" "*") (Spec.split_dots "" "")).
Proof.
  repeat split; try reflexivity.
  - change (~ Spec.Lockstep ["a"; "b"] ["a"; "b"; ""]).
    intros Hwalk.
    inversion Hwalk as [| | |? ? ? Hrest]; subst.
    inversion Hrest as [| | |? ? ? Hend]; subst.
    inversion Hend.
  - change (~ Spec.Lockstep ["a"; "b"; ""] ["a"; "b"]).
    intros Hwalk.
    inversion Hwalk as [| | |? ? ? Hrest]; subst.
    inversion Hrest as [| | |? ? ? Hend]; subst.
    inversion Hend.
  - change (Spec.Lockstep ["*"] [""]). apply Spec.Lockstep_star, Spec.Lockstep_exhausted.
Qed.

(** X1.  For a string that is not empty and does not end in a dot, the
    tokens [matchesPattern] works on are the pieces between the dots, all of
    them; one trailing dot is dropped, so a subject or a pattern with a
    trailing dot matches as it does without; the empty string has no token
    at all. *)
Theorem splitTokens_pieces :
  (forall s,
      s <> "" -> Protocol.back s <> Some "."%char ->
      splitTokens s = Spec.split_dots "" s
      /\ splitTokens (s ++ ".") = splitTokens s
      /\ (forall P, matchesPattern P (s ++ ".") = matchesPattern P s)
      /\ (forall S, matchesPattern (s ++ ".") S = matchesPattern s S))
  /\ splitTokens "" = [].
Proof.
  split; [|reflexivity].
  intros s Hne Hback. destruct (splitTokens_no_trailing_dot s Hne Hback) as [Hsplit Hdot].
  repeat split; auto; intros; now rewrite !matchesPattern_walk, Hdot.
Qed.

Lemma splitTokens_pieces_witness :
  ("a.b" <> "" /\ Protocol.back "a.b" <> Some "."%char)
  /\ splitTokens "a.b" = Spec.split_dots "" "a.b"
  /\ splitTokens ("a.b" ++ ".") = splitTokens "a.b"
  /\ (forall P, matchesPattern P ("a.b" ++ ".") = matchesPattern P "a.b")
  /\ (forall S, matchesPattern ("a.b" ++ ".") S = matchesPattern "a.b" S).
Proof.
  split; [split; discriminate|].
  apply (proj1 splitTokens_pieces "a.b"); discriminate.
Defined.

(** X2.  What a match says about the number of tokens: a pattern without a
    [>] token matches only subjects with as many tokens as it has, so [*]
    never stands for no token or for several; a pattern whose first [>] is
    its token number [i] (from 0) matches only subjects with at least [i+1]
    tokens. *)
Theorem matchesPattern_token_counts P S :
  matchesPattern P S = true ->
  (Forall (fun token => token <> ">") (splitTokens P) ->
   List.length (splitTokens P) = List.length (splitTokens S))
  /\ (forall before after,
         splitTokens P = before ++ ">" :: after ->
         Forall (fun token => token <> ">") before ->
         (List.length before + 1 <= List.length (splitTokens S))%nat).
Proof.
  rewrite matchesPattern_walk, walk_lockstep. intros Hwalk. split.
  - intros Hno. now apply Lockstep_no_gt_same_length.
  - intros before after Htokens Hno. rewrite Htokens in Hwalk.
    now apply (Lockstep_gt_position before after).
Qed.

Lemma matchesPattern_token_counts_witness :
  matchesPattern "a.*.c" "a.b.c" = true
  /\ (Forall (fun token => token <> ">") (splitTokens "a.*.c") ->
      List.length (splitTokens "a.*.c") = List.length (splitTokens "a.b.c"))
  /\ (forall before after,
         splitTokens "a.*.c" = before ++ ">" :: after ->
         Forall (fun token => token <> ">") before ->
         (List.length before + 1 <= List.length (splitTokens "a.b.c"))%nat).
Proof.
  split; [reflexivity|].
  apply (matchesPattern_token_counts "a.*.c" "a.b.c"). reflexivity.
Defined.
End Tokens.


(** ** Further properties of the authentication manager *)

Section Authorization.
Import AuthManager.

Lemma allowed_iff topics subject :
  allowed topics subject = true <->
  exists pattern, In pattern topics /\ matchesPattern pattern subject = true.
Proof.
  unfold allowed. destruct topics as [|pattern topics].
  - split; [discriminate|intros (? & [] & _)].
  - apply List.existsb_exists.
Qed.

(** X3.  [canPublish] and [canSubscribe] allow a subject exactly when a
    DeviceIdentity is held and one of the patterns of its allow-list matches
    the subject; without an identity, with an empty allow-list, and after
    [reset], everything is denied. *)
Theorem allow_lists :
  (forall a subject,
      canPublish a subject = true <->
      exists info pattern,
        deviceInfo_ a = Some info /\ In pattern (allowedPublishTopics info)
        /\ matchesPattern pattern subject = true)
  /\ (forall a subject,
         canSubscribe a subject = true <->
         exists info pattern,
           deviceInfo_ a = Some info /\ In pattern (allowedSubscribeTopics info)
           /\ matchesPattern pattern subject = true)
  /\ (forall a subject,
         canPublish (reset a) subject = false /\ canSubscribe (reset a) subject = false).
Proof.
  repeat split; try reflexivity; unfold canPublish, canSubscribe.
  - destruct (deviceInfo_ a) as [info|]; [|discriminate].
    rewrite allowed_iff. intros (pattern & Hin & Hmatch). now exists info, pattern.
  - intros (info & pattern & -> & Hin & Hmatch). apply allowed_iff. now exists pattern.
  - destruct (deviceInfo_ a) as [info|]; [|discriminate].
    rewrite allowed_iff. intros (pattern & Hin & Hmatch). now exists info, pattern.
  - intros (info & pattern & -> & Hin & Hmatch). apply allowed_iff. now exists pattern.
Qed.

(** X4.  The manager handles one response per [startAuth]: a message is
    handled only while the manager is Authenticating and only if it is of
    type Auth; a message that is not handled leaves the manager as it was;
    after a handled one the manager is Authenticated or Failed and handles
    nothing more, until [startAuth] arms it again. *)
Theorem auth_response_handled_once msg a :
  let r := handleMessage msg a in
  (fst r = false -> snd r = a)
  /\ (fst r = true ->
      state_ a = AuthState.Authenticating
      /\ MessageType.eqb (type msg) MessageType.Auth = true
      /\ (state_ (snd r) = AuthState.Authenticated \/ state_ (snd r) = AuthState.Failed)
      /\ (forall msg', handleMessage msg' (snd r) = (false, snd r))
      /\ (forall msg', fst (handleMessage msg' (startAuth (snd r)))
                       = MessageType.eqb (type msg') MessageType.Auth)).
Proof.
  cbn zeta. unfold handleMessage.
  destruct (state_ a) eqn:Hstate; cbn; try (split; [reflexivity|discriminate]).
  destruct (MessageType.eqb (type msg) MessageType.Auth) eqn:Htype; cbn;
    [|split; [reflexivity|discriminate]].
  destruct (AuthResult.success (processAuthResponse msg)); cbn;
    (split; [discriminate|]); intros _; repeat split; auto;
    intros msg'; destruct (MessageType.eqb (type msg') MessageType.Auth); cbn;
    try reflexivity;
    destruct (AuthResult.success (processAuthResponse msg')); reflexivity.
Qed.

(** X5.  [deserializeAuthResponse] and [processAuthResponse] read an Auth
    envelope alike, but for the device: both take [success] and [message]
    from the payload, and with [success] they extract the same device;
    without [success], [processAuthResponse] returns no device and the error
    AuthenticationFailed where [deserializeAuthResponse] still extracts one.
    An envelope of another type is InvalidMessageType to both. *)
Theorem auth_response_readers utc parsed msg :
  Protocol.deserialize utc parsed = Ok msg ->
  let result := processAuthResponse msg in
  (MessageType.eqb (type msg) MessageType.Auth = true ->
   exists response,
     ProtocolAuth.deserializeAuthResponse utc parsed = Ok response
     /\ AuthResponse.success response = AuthResult.success result
     /\ AuthResponse.message response = AuthResult.message result
     /\ (AuthResult.success result = true ->
         AuthResponse.device response = AuthResult.deviceInfo result
         /\ AuthResult.error result = ErrorCode.Success)
     /\ (AuthResult.success result = false ->
         AuthResult.deviceInfo result = None
         /\ AuthResult.error result = ErrorCode.AuthenticationFailed))
  /\ (MessageType.eqb (type msg) MessageType.Auth = false ->
      ProtocolAuth.deserializeAuthResponse utc parsed
      = Err ErrorCode.InvalidMessageType "Expected Auth message type"
      /\ AuthResult.success result = false
      /\ AuthResult.error result = ErrorCode.InvalidMessageType
      /\ AuthResult.deviceInfo result = None).
Proof.
  intros Hdecode. cbn zeta.
  unfold ProtocolAuth.deserializeAuthResponse, processAuthResponse. rewrite Hdecode.
  split; intros ->; cbn [negb]; [|repeat split; reflexivity].
  eexists. split; [reflexivity|]. cbn.
  destruct (if JsonValue.contains (payload msg) "success"
            then JsonValue.asBool (JsonValue.at_key (payload msg) "success")
            else false); cbn; repeat split; auto; discriminate.
Qed.

Lemma auth_response_readers_witness :
  let parsed := Some (j_object [("payload",
                                   j_object [("device", j_object [("deviceId", j_string "d")]);
                                             ("success", j_boolean false)]);
                                ("type", j_number_integer 8)]) in
  let msg := mkMessage MessageType.Auth ""
                       (JObject [("device", JObject [("deviceId", JString "d")]);
                                 ("success", JBool false)]) None None None in
  Protocol.deserialize 0 parsed = Ok msg
  /\ exists response,
       ProtocolAuth.deserializeAuthResponse 0 parsed = Ok response
       /\ AuthResponse.device response <> None
       /\ AuthResult.deviceInfo (processAuthResponse msg) = None.
Proof.
  cbn zeta. split; [reflexivity|].
  destruct (proj1 (auth_response_readers 0 _ _ (eq_refl :
     Protocol.deserialize 0
       (Some (j_object [("payload",
                         j_object [("device", j_object [("deviceId", j_string "d")]);
                                   ("success", j_boolean false)]);
                        ("type", j_number_integer 8)]))
     = Ok (mkMessage MessageType.Auth ""
                     (JObject [("device", JObject [("deviceId", JString "d")]);
                               ("success", JBool false)]) None None None)))
                  eq_refl) as (response & Hresponse & _ & _ & _ & Hfailure).
  exists response. split; [exact Hresponse|]. split.
  - vm_compute in Hresponse. injection Hresponse as <-. discriminate.
  - now apply Hfailure.
Defined.
End Authorization.


(** ** Further properties of the reconnect policy and its timer *)

Section BackoffBounds.
Import ReconnectPolicy.

Lemma trunc_le q m : (q <= inject_Z m)%Q -> trunc q <= m.
Proof.
  unfold Qle, trunc. destruct q as [n d]. cbn. intros Hle.
  destruct (Z.le_gt_cases 0 n) as [Hn|Hn].
  - rewrite Z.quot_div_nonneg by lia. apply Z.div_le_upper_bound; lia.
  - replace n with (- - n) by lia. rewrite Z.quot_opp_l by lia.
    rewrite Z.quot_div_nonneg by lia.
    destruct (Z.le_gt_cases 0 m) as [Hm|Hm].
    + pose proof (Z.div_pos (- n) (Z.pos d)). lia.
    + assert (- m <= - n / Z.pos d) by (apply Z.div_le_lower_bound; lia). lia.
Qed.

Lemma std_min_le_r a b : (std_min a b <= b)%Q.
Proof.
  unfold std_min. destruct (Qle_bool a b) eqn:Hab.
  - now apply Qle_bool_iff.
  - apply Qle_refl.
Qed.

Lemma to_double_exact z : Z.abs z <= 2 ^ 53 -> to_double z = inject_Z z.
Proof.
  intros Hz. unfold to_double. now destruct (Z.leb_spec (Z.abs z) (2 ^ 53)); [|lia].
Qed.

Lemma calculateDelay_capped p :
  (2 <= attemptCount_ p)%N -> Z.abs (maxDelay_ p) <= 2 ^ 53 ->
  calculateDelay p <= maxDelay_ p.
Proof.
  intros Hcount Hmax. unfold calculateDelay.
  destruct (N.leb_spec (attemptCount_ p) 1); [lia|].
  apply trunc_le. rewrite <- (to_double_exact _ Hmax). apply std_min_le_r.
Qed.

Lemma wrap_u32_small n : (n < 2 ^ 32)%N -> wrap_u32 n = n.
Proof. intros Hn. unfold wrap_u32. now apply N.mod_small. Qed.

(** X6.  From the second attempt of a burst on, the delay [getNextDelay]
    returns does not exceed [maxDelay], whatever the jitter sample and
    however the product is rounded, for a maximum delay that a double holds
    exactly (at most 2^53 ms), a positive initial delay and a multiplier
    that is not negative (so that the product is neither NaN nor negative
    infinity). *)
Theorem getNextDelay_capped sample p :
  (1 <= attemptCount_ p)%N -> (attemptCount_ p + 1 < 2 ^ 32)%N ->
  0 < initialDelay_ p -> (0 <= backoffMultiplier_ p)%Q ->
  0 <= maxDelay_ p <= 2 ^ 53 ->
  fst (getNextDelay sample p) <= maxDelay_ p.
Proof.
  intros Hcount Hwrap _ _ Hmax. unfold getNextDelay.
  destruct (shouldReconnect p); cbn [negb fst]; [|lia].
  rewrite (wrap_u32_small _ Hwrap).
  assert (calculateDelay (with_attemptCount (attemptCount_ p + 1) p) <= maxDelay_ p) as Hcap
      by (apply (calculateDelay_capped (with_attemptCount (attemptCount_ p + 1) p)); cbn; lia).
  cbn [jitterEnabled_ with_attemptCount].
  destruct (jitterEnabled_ p) eqn:Hjitter; [|assumption].
  unfold addJitter. cbn [jitterEnabled_ maxJitterFraction_ maxDelay_ with_attemptCount].
  rewrite Hjitter. cbn [negb orb].
  destruct (Qle_bool (maxJitterFraction_ p) 0); [assumption|]. apply Z.le_min_r.
Qed.

Lemma getNextDelay_capped_witness :
  let p := with_attemptCount 4 Scenario.policy_5 in
  ((1 <= attemptCount_ p)%N /\ (attemptCount_ p + 1 < 2 ^ 32)%N
   /\ 0 < initialDelay_ p /\ (0 <= backoffMultiplier_ p)%Q
   /\ 0 <= maxDelay_ p <= 2 ^ 53)
  /\ fst (getNextDelay 0%Q p) <= maxDelay_ p.
Proof.
  cbn zeta.
  assert ((1 <= attemptCount_ (with_attemptCount 4 Scenario.policy_5))%N) as H1
      by (cbn; lia).
  assert ((attemptCount_ (with_attemptCount 4 Scenario.policy_5) + 1 < 2 ^ 32)%N) as H2
      by (cbn; lia).
  assert (0 < initialDelay_ (with_attemptCount 4 Scenario.policy_5)) as H3 by (cbn; lia).
  assert ((0 <= backoffMultiplier_ (with_attemptCount 4 Scenario.policy_5))%Q) as H4
      by (cbn; discriminate).
  assert (0 <= maxDelay_ (with_attemptCount 4 Scenario.policy_5) <= 2 ^ 53) as H5
      by (cbn; lia).
  split; [repeat split; try assumption; apply H5|].
  exact (getNextDelay_capped 0%Q (with_attemptCount 4 Scenario.policy_5) H1 H2 H3 H4 H5).
Defined.

(** Above 2^53 ms the maximum delay itself is rounded when it is compared
    as a double: a maximum of 9007199254740995 ms caps at
    9007199254740996 ms. *)
Lemma cap_is_rounded_above_2_53 :
  let p := mk true (2 ^ 62) 9007199254740995 2%Q false (1 # 4)%Q 0 true 1 in
  fst (getNextDelay 0%Q p) = 9007199254740996.
Proof. vm_compute. reflexivity. Qed.

(** X7.  The jitter is clamped on both sides: when jitter is enabled with a
    positive fraction and [maxDelay] is at least 1 ms, the jittered delay
    lies between 1 ms and [maxDelay], whatever the sample and the delay;
    when jitter is disabled or its fraction is not positive, the delay is
    returned as it is. *)
Theorem addJitter_clamped sample delay p :
  (jitterEnabled_ p = true -> (0 < maxJitterFraction_ p)%Q -> 1 <= maxDelay_ p ->
   1 <= addJitter sample delay p <= maxDelay_ p)
  /\ (jitterEnabled_ p = false \/ (maxJitterFraction_ p <= 0)%Q ->
      addJitter sample delay p = delay).
Proof.
  unfold addJitter. split.
  - intros -> Hfraction Hmax. cbn [negb orb].
    destruct (Qle_bool (maxJitterFraction_ p) 0) eqn:Hle.
    + apply Qle_bool_iff in Hle. exfalso. eapply Qlt_not_le; eassumption.
    + lia.
  - intros [->|Hle]; [reflexivity|].
    apply Qle_bool_iff in Hle. rewrite Hle. now rewrite orb_true_r.
Qed.

Lemma addJitter_clamped_witness :
  let p := ReconnectPolicy.of_config ReconnectConfig.default in
  (jitterEnabled_ p = true /\ (0 < maxJitterFraction_ p)%Q /\ 1 <= maxDelay_ p)
  /\ 1 <= addJitter (- (1 # 4))%Q 1000 p <= maxDelay_ p.
Proof.
  cbn zeta. split; [repeat split; cbn; try reflexivity; lia|].
  apply (proj1 (addJitter_clamped (- (1 # 4))%Q 1000
                                  (ReconnectPolicy.of_config ReconnectConfig.default)));
    cbn; try reflexivity; lia.
Defined.

Lemma getNextDelay_count sample p :
  enabled_ p = true -> (0 < maxAttempts_ p < 2 ^ 32)%N ->
  (attemptCount_ p <= maxAttempts_ p)%N ->
  snd (getNextDelay sample p)
  = with_attemptCount (N.min (attemptCount_ p + 1) (maxAttempts_ p)) p.
Proof.
  intros Henabled Hmax Hcount. unfold getNextDelay, shouldReconnect. rewrite Henabled.
  cbn [negb]. destruct (N.ltb_spec 0 (maxAttempts_ p)); [|lia]. cbn [andb].
  destruct (N.leb_spec (maxAttempts_ p) (attemptCount_ p)); cbn [negb snd].
  - rewrite N.min_r by lia.
    replace (maxAttempts_ p) with (attemptCount_ p) by lia. now destruct p.
  - rewrite wrap_u32_small by lia. now rewrite N.min_l by lia.
Qed.

(** X8.  With a limit of [maxAttempts] > 0 attempts, the attempt count
    after any number of calls of [getNextDelay] is the count of calls made,
    capped at [maxAttempts]: it never passes the limit; at the limit every
    call returns 0 and leaves the policy as it is, until [reset] sets the
    count to 0 again.  A disabled policy never counts. *)
Theorem attempt_count_capped samples p :
  (enabled_ p = true -> (0 < maxAttempts_ p < 2 ^ 32)%N ->
   (attemptCount_ p <= maxAttempts_ p)%N ->
   attemptCount_ (Spec2.after_calls samples p)
   = N.min (attemptCount_ p + N.of_nat (List.length samples)) (maxAttempts_ p)
   /\ (attemptCount_ p = maxAttempts_ p ->
       forall sample, getNextDelay sample p = (0, p))
   /\ shouldReconnect (reset p) = true)
  /\ (enabled_ p = false -> Spec2.after_calls samples p = p).
Proof.
  split.
  - intros Henabled Hmax Hcount. repeat split.
    + revert p Henabled Hmax Hcount. unfold Spec2.after_calls.
      induction samples as [|sample samples IH]; intros p Henabled Hmax Hcount;
        cbn [fold_left List.length].
      * cbn. lia.
      * rewrite (getNextDelay_count sample p Henabled Hmax Hcount).
        rewrite IH; cbn [enabled_ maxAttempts_ attemptCount_ with_attemptCount];
          try assumption; lia.
    + intros Hlimit sample. unfold getNextDelay, shouldReconnect.
      rewrite Henabled, Hlimit. cbn [negb].
      destruct (N.ltb_spec 0 (maxAttempts_ p)); [|lia].
      now rewrite N.leb_refl.
    + unfold shouldReconnect, reset. cbn. rewrite Henabled. cbn.
      destruct (N.ltb_spec 0 (maxAttempts_ p)); [|lia].
      destruct (N.leb_spec (maxAttempts_ p) 0); [lia|reflexivity].
  - intros Hdisabled. unfold Spec2.after_calls.
    induction samples as [|sample samples IH]; cbn [fold_left]; [reflexivity|].
    unfold getNextDelay at 2, shouldReconnect. rewrite Hdisabled. exact IH.
Qed.

Lemma attempt_count_capped_witness :
  let p := Scenario.policy_5 in
  let samples := [0%Q; 0%Q; 0%Q; 0%Q; 0%Q; 0%Q; 0%Q] in
  (enabled_ p = true /\ (0 < maxAttempts_ p < 2 ^ 32)%N
   /\ (attemptCount_ p <= maxAttempts_ p)%N)
  /\ attemptCount_ (Spec2.after_calls samples p) = 5%N.
Proof.
  cbn zeta. split; [repeat split; cbn; try reflexivity; lia|].
  destruct (proj1 (attempt_count_capped [0%Q; 0%Q; 0%Q; 0%Q; 0%Q; 0%Q; 0%Q] Scenario.policy_5))
    as (Hcount & _); [reflexivity|cbn; lia|cbn; lia|].
  rewrite Hcount. reflexivity.
Defined.

(** X9.  [ReconnectTimer::start] arms the timer only for a delay above 0:
    then the timer is active, expires exactly from [now + delay] on, and
    what remains is [now + delay - later] until then and 0 afterwards.  For a
    delay of 0, which is how the policy refuses but also what a policy with
    an initial delay of 0 returns, the timer is not active: it never expires
    and nothing remains.  A cancelled timer never expires either. *)
Theorem timer_start now sample policy timer :
  let r := ReconnectTimer.start now sample policy timer in
  let delay := fst (fst r) in
  let timer' := snd r in
  fst r = getNextDelay sample policy
  /\ (0 < delay ->
      ReconnectTimer.isActive timer' = true
      /\ forall later,
           ReconnectTimer.isExpired later timer' = (now + delay <=? later)
           /\ ReconnectTimer.remaining later timer' = Z.max 0 (now + delay - later))
  /\ (delay <= 0 ->
      ReconnectTimer.isActive timer' = false
      /\ forall later,
           ReconnectTimer.isExpired later timer' = false
           /\ ReconnectTimer.remaining later timer' = 0)
  /\ (forall later,
         ReconnectTimer.isExpired later (ReconnectTimer.cancel timer') = false
         /\ ReconnectTimer.remaining later (ReconnectTimer.cancel timer') = 0).
Proof.
  cbn zeta. unfold ReconnectTimer.start.
  destruct (getNextDelay sample policy) as [delay policy'].
  destruct (Z.ltb_spec 0 delay) as [Hpos|Hzero]; cbn; repeat split; try lia; try reflexivity.
  - unfold ReconnectTimer.remaining. cbn.
    match goal with |- context [?a <=? ?b] => destruct (Z.leb_spec a b) end; lia.
Qed.

(** A policy whose initial delay is 0 allows the first attempt and returns
    a delay of 0 for it; the timer takes that for a refusal. *)
Lemma timer_ignores_zero_delay :
  let policy := ReconnectPolicy.of_config
                  (ReconnectConfig.mk true 0 800 2%Q false (1 # 4)%Q 5 true) in
  let r := ReconnectTimer.start 1000 0%Q policy ReconnectTimer.init in
  shouldReconnect policy = true
  /\ fst (fst r) = 0
  /\ ReconnectTimer.isActive (snd r) = false
  /\ attemptCount_ (snd (fst r)) = 1%N.
Proof. vm_compute. repeat split; reflexivity. Qed.
End BackoffBounds.


(** ** Round trips of the codec *)

Section RoundTrip.
Import Protocol.

Lemma JsonValue_induction (P : JsonValue -> Prop) :
  P JNull -> (forall b, P (JBool b)) -> (forall i, P (JInt i)) -> (forall d, P (JDouble d)) ->
  (forall s, P (JString s)) ->
  (forall items, Forall P items -> P (JArray items)) ->
  (forall members,
      Forall (fun member : string * JsonValue => P (snd member)) members ->
      P (JObject members)) ->
  forall v, P v.
Proof.
  intros Hnull Hbool Hint Hdouble Hstring Harray Hobject.
  fix IH 1. intros [|b|i|d|s|items|members].
  - exact Hnull.
  - apply Hbool.
  - apply Hint.
  - apply Hdouble.
  - apply Hstring.
  - apply Harray. induction items as [|item items IHitems]; constructor.
    + apply IH.
    + exact IHitems.
  - apply Hobject. induction members as [|[key item] members IHmembers]; constructor.
    + apply IH.
    + exact IHmembers.
Qed.

Lemma ltb_neq a b : String.ltb a b = true -> String.eqb a b = false /\ String.ltb b a = false.
Proof.
  unfold String.ltb. intros Hlt.
  destruct (String.compare a b) eqn:Hcompare; try discriminate. split.
  - apply String.eqb_neq. intros ->.
    pose proof (String.compare_antisym b b) as Hanti.
    rewrite Hcompare in Hanti. discriminate.
  - rewrite String.compare_antisym, Hcompare. reflexivity.
Qed.

Lemma insert_last key value members :
  Forall (fun k => String.ltb k key = true) (List.map fst members) ->
  Json.insert key value members = members ++ [(key, value)].
Proof.
  induction members as [|[k x] members IH]; cbn; intros Hall; [reflexivity|].
  inversion Hall as [|? ? Hk Hrest]; subst.
  destruct (ltb_neq _ _ Hk) as [-> ->]. now rewrite IH.
Qed.

Lemma insert_all members : forall acc,
  StronglySorted (fun a b => String.ltb a b = true) (List.map fst members) ->
  Forall (fun a => Forall (fun b => String.ltb a b = true) (List.map fst members))
         (List.map fst acc) ->
  fold_left (fun obj (kv : string * json) => Json.insert (fst kv) (snd kv) obj) members acc
  = acc ++ members.
Proof.
  induction members as [|[k x] members IH]; intros acc Hsorted Hacc; cbn [fold_left].
  - now rewrite app_nil_r.
  - cbn [List.map fst snd] in *. inversion Hsorted as [|? ? Hrest Hk]; subst.
    rewrite insert_last.
    + rewrite IH; [now rewrite <- app_assoc|assumption|].
      rewrite List.map_app. apply List.Forall_app. split.
      * eapply List.Forall_impl; [|exact Hacc]. cbn. intros a Ha. now inversion Ha.
      * repeat constructor. exact Hk.
    + eapply List.Forall_impl; [|exact Hacc]. cbn. intros a Ha. now inversion Ha.
Qed.

Lemma wrap_i64_id v : - 2 ^ 63 <= v < 2 ^ 63 -> wrap_i64 v = v.
Proof. intros Hv. unfold wrap_i64. rewrite Z.mod_small; lia. Qed.

Lemma nlohmann_roundtrip v :
  Spec2.well_formed v -> nlohmannToJsonValue (jsonValueToNlohmann v) = v.
Proof.
  induction v as [|b|i|d|s|items IH|members IH] using JsonValue_induction;
    intros Hwf; cbn [jsonValueToNlohmann nlohmannToJsonValue]; try reflexivity.
  - now rewrite wrap_i64_id.
  - f_equal. cbn [Spec2.well_formed] in Hwf.
    induction items as [|item items IHitems]; [reflexivity|].
    inversion IH; subst. destruct Hwf as [Hitem Hitems]. cbn [List.map].
    f_equal; auto.
  - cbn [Spec2.well_formed] in Hwf. destruct Hwf as [Hsorted Hwf].
    set (converted := (fix go (ms : list (string * JsonValue)) : list (string * json) :=
                         match ms with
                         | [] => []
                         | (k, v) :: rest => (k, jsonValueToNlohmann v) :: go rest
                         end) members).
    assert (List.map fst converted = List.map fst members) as Hkeys.
    { subst converted. clear. induction members as [|[k x] members IH]; cbn; congruence. }
    rewrite insert_all; [|now rewrite Hkeys|constructor]. cbn [app].
    f_equal. subst converted. clear Hkeys Hsorted.
    induction members as [|[k x] members IHmembers]; [reflexivity|].
    inversion IH; subst. destruct Hwf as [Hitem Hitems]. cbn [snd] in *.
    f_equal; [f_equal|]; auto.
Qed.

Lemma type_roundtrip t :
  MessageType.defined t = true ->
  MessageType.of_int (wrap_i32 (MessageType.to_int t)) = t.
Proof. destruct t; intros Hdefined; try reflexivity. discriminate. Qed.

Lemma isNull_JNull v : JsonValue.isNull v = true -> v = JNull.
Proof. destruct v; intros Hnull; try reflexivity; discriminate. Qed.

Lemma find_insert_eq key value members :
  Json.find key (Json.insert key value members) = Some value.
Proof.
  induction members as [|[k x] members IH]; cbn [Json.insert Json.find].
  - now rewrite String.eqb_refl.
  - destruct (String.eqb k key) eqn:Hk; cbn [Json.find]; [now rewrite Hk|].
    destruct (String.ltb key k); cbn [Json.find]; [now rewrite String.eqb_refl|].
    now rewrite Hk.
Qed.

Lemma deserialize_serialize utc now m :
  MessageType.defined (type m) = true ->
  Spec2.well_formed (payload m) ->
  exists ts, deserialize utc (Some (serialize now m)) = Ok (Message.with_timestamp ts m).
Proof.
  destruct m as [t s p c ts d]. cbn [type payload]. intros Hdefined Hwf.
  pose proof (type_roundtrip _ Hdefined) as Htype.
  pose proof (nlohmann_roundtrip _ Hwf) as Hpayload.
  unfold serialize, Message.with_timestamp.
  cbn [type subject payload correlationId timestamp msg_deviceId].
  destruct (String.eqb s "") eqn:Hs;
    [apply String.eqb_eq in Hs; subst s|];
    (destruct (JsonValue.isNull p) eqn:Hp; [apply isNull_JNull in Hp; subst p|]);
    destruct c as [c|]; destruct ts as [ts|]; destruct d as [d|];
    cbn [Json.set];
    match goal with
    | |- context [[("type", ?v)]] => change [("type", v)] with (Json.insert "type" v [])
    end;
    unfold deserialize, Json.contains, at_key; cbv beta zeta;
    repeat first [rewrite find_insert_eq
                 | rewrite find_insert_ne by discriminate
                 | progress cbn [Json.find]];
    cbn [Json.get_int Json.get_string mbind option_bind];
    rewrite ?Htype, ?Hpayload;
    match goal with
    | |- context [parseTimestamp ?z ?str] => destruct (parseTimestamp z str)
    end; eexists; reflexivity.
Qed.

End RoundTrip.

(** ** What [dump()] prints and when it throws *)

Section Dump.
Import Protocol.

Lemma ascii_text_valid s : Spec2.is_ascii_text s -> Utf8.valid s = true.
Proof.
  unfold Spec2.is_ascii_text, Utf8.valid. induction s as [|c s IH]; cbn; [reflexivity|].
  intros Hall. inversion Hall as [|? ? Hc Hrest]; subst.
  unfold Utf8.between. destruct (N.leb_spec 0 (N_of_ascii c)); [|lia].
  destruct (N.leb_spec (N_of_ascii c) 127); [|lia]. cbn. auto.
Qed.

Lemma ascii_text_append a b : Spec2.is_ascii_text a -> Spec2.is_ascii_text b -> Spec2.is_ascii_text (a ++ b).
Proof.
  unfold Spec2.is_ascii_text. induction a as [|c a IH]; intros Ha Hb; [exact Hb|].
  rewrite append_cons. cbn in *. inversion Ha; subst. constructor; auto.
Qed.

Lemma ascii_text_uint d : Spec2.is_ascii_text (NilEmpty.string_of_uint d).
Proof.
  unfold Spec2.is_ascii_text. induction d; cbn; constructor; try assumption; cbn; lia.
Qed.

Lemma ascii_text_show_Z z : Spec2.is_ascii_text (CTime.show_Z z).
Proof.
  unfold CTime.show_Z, NilZero.string_of_int, NilZero.string_of_uint.
  destruct (Z.to_int z) as [d|d]; destruct d; try apply ascii_text_uint;
    try (repeat constructor; cbn; lia);
    try (constructor; [cbn; lia|apply (ascii_text_uint (_ d))]).
Qed.

Lemma ascii_text_zeros n : Spec2.is_ascii_text (CTime.zeros n).
Proof. unfold Spec2.is_ascii_text. induction n; cbn; constructor; try assumption. cbn. lia. Qed.

Lemma ascii_text_pad_left width s : Spec2.is_ascii_text s -> Spec2.is_ascii_text (CTime.pad_left width s).
Proof. intros Hs. apply ascii_text_append; [apply ascii_text_zeros|exact Hs]. Qed.

Lemma ascii_text_literal c : (N_of_ascii c < 128)%N -> Spec2.is_ascii_text (String c "").
Proof. intros Hc. repeat constructor. exact Hc. Qed.

Lemma ascii_text_put_time t : Spec2.is_ascii_text (CTime.put_time t).
Proof.
  unfold CTime.put_time, CTime.two.
  repeat first [apply ascii_text_pad_left | apply ascii_text_zeros | apply ascii_text_show_Z
               | apply ascii_text_append
               | apply ascii_text_literal; vm_compute; reflexivity].
Qed.

Lemma valid_stamp_explicit t : Utf8.valid (CTime.put_time t ++ "Z") = true.
Proof.
  apply ascii_text_valid, ascii_text_append;
    [apply ascii_text_put_time|apply ascii_text_literal; vm_compute; reflexivity].
Qed.

Lemma valid_getTimestamp now : Utf8.valid (getTimestamp now) = true.
Proof.
  apply ascii_text_valid. unfold getTimestamp, pad3.
  repeat first [apply ascii_text_pad_left | apply ascii_text_zeros | apply ascii_text_show_Z
               | apply ascii_text_append
               | apply ascii_text_put_time | apply ascii_text_literal; vm_compute; reflexivity].
Qed.

(** The members of an object, for [dumps]. *)
Lemma dumps_object members :
  Json.dumps (j_object members)
  = forallb (fun member : string * json => Utf8.valid (fst member) && Json.dumps (snd member))
            members.
Proof.
  cbn [Json.dumps]. induction members as [|[k v] members IH]; [reflexivity|].
  cbn [forallb fst snd]. now rewrite IH.
Qed.

Lemma dumps_insert key value members :
  Json.find key members = None ->
  Json.dumps (j_object (Json.insert key value members))
  = Utf8.valid key && Json.dumps value && Json.dumps (j_object members).
Proof.
  rewrite !dumps_object.
  induction members as [|[k v] members IH]; cbn [Json.find Json.insert forallb fst snd].
  - intros _. now rewrite andb_true_r.
  - destruct (String.eqb k key) eqn:Hk; [discriminate|]. intros Hfind.
    destruct (String.ltb key k); cbn [forallb fst snd]; [reflexivity|].
    rewrite (IH Hfind).
    destruct (Utf8.valid key), (Json.dumps value), (Utf8.valid k), (Json.dumps v);
      reflexivity.
Qed.

Lemma find_nil key : Json.find key [] = None.
Proof. reflexivity. Qed.

(** [dump()] of a converted value throws exactly when a string or a key of
    the value is not valid UTF-8. *)
Lemma dumps_converted v :
  Spec2.well_formed v -> Json.dumps (jsonValueToNlohmann v) = Spec2.utf8 v.
Proof.
  induction v as [|b|i|d|s|items IH|members IH] using JsonValue_induction;
    intros Hwf; cbn [jsonValueToNlohmann Json.dumps Spec2.utf8]; try reflexivity.
  - cbn [Spec2.well_formed] in Hwf.
    induction items as [|item items IHitems]; [reflexivity|].
    inversion IH; subst. destruct Hwf as [Hitem Hitems]. cbn [List.map forallb].
    f_equal; auto.
  - cbn [Spec2.well_formed] in Hwf. destruct Hwf as [Hsorted Hwf].
    set (converted := (fix go (ms : list (string * JsonValue)) : list (string * json) :=
                         match ms with
                         | [] => []
                         | (k, v) :: rest => (k, jsonValueToNlohmann v) :: go rest
                         end) members).
    assert (List.map fst converted = List.map fst members) as Hkeys.
    { subst converted. clear. induction members as [|[k x] members IH]; cbn; congruence. }
    rewrite insert_all; [|now rewrite Hkeys|constructor]. cbn [app].
    subst converted. clear Hkeys Hsorted.
    induction members as [|[k x] members IHmembers]; [reflexivity|].
    inversion IH; subst. destruct Hwf as [Hitem Hitems]. cbn [snd] in *.
    f_equal; [f_equal|]; auto.
Qed.

Lemma serialize_dumps now m :
  Spec2.well_formed (payload m) ->
  Json.dumps (serialize now m) = Spec2.utf8_message m.
Proof.
  destruct m as [t s p c ts d]. cbn [payload]. intros Hwf.
  pose proof (dumps_converted _ Hwf) as Hpayload.
  unfold serialize, Spec2.utf8_message.
  cbn [type subject payload correlationId timestamp msg_deviceId].
  destruct (String.eqb s "") eqn:Hs;
    [apply String.eqb_eq in Hs; subst s|];
    (destruct (JsonValue.isNull p) eqn:Hp; [apply isNull_JNull in Hp; subst p|]);
    destruct c as [c|]; destruct ts as [ts|]; destruct d as [d|];
    cbn [Json.set];
    match goal with
    | |- context [[("type", ?v)]] => change [("type", v)] with (Json.insert "type" v [])
    end;
    repeat (rewrite dumps_insert
             by (repeat (rewrite find_insert_ne by discriminate); reflexivity));
    cbn [Json.dumps Spec2.utf8];
    rewrite ?valid_getTimestamp, ?valid_stamp_explicit, ?Hpayload;
    change (Utf8.valid "type") with true; change (Utf8.valid "subject") with true;
    change (Utf8.valid "payload") with true; change (Utf8.valid "correlationId") with true;
    change (Utf8.valid "timestamp") with true; change (Utf8.valid "deviceId") with true;
    change (Utf8.valid "") with true;
    cbn [andb]; rewrite ?andb_true_r;
    repeat match goal with
           | |- context [Utf8.valid ?x] => destruct (Utf8.valid x)
           | |- context [Spec2.utf8 ?x] => destruct (Spec2.utf8 x)
           end; reflexivity.
Qed.

(** The frames of the engine that carry a validated subject or no string of
    the user at all are always printed. *)
Lemma allowed_char_ascii c : is_allowed_char c = true -> (N_of_ascii c < 128)%N.
Proof.
  unfold is_allowed_char. cbv zeta. intros Hc.
  repeat match type of Hc with
         | (_ || _) = true => apply orb_prop in Hc as [Hc|Hc]
         | (_ && _) = true => apply andb_prop in Hc as [? Hc]
         end;
    repeat match goal with
           | H : (_ <=? _)%N = true |- _ => apply N.leb_le in H
           | H : (_ =? _)%N = true |- _ => apply N.eqb_eq in H
           end; lia.
Qed.

Lemma valid_subject_utf8 subject :
  isValidSubject subject = true -> Utf8.valid subject = true.
Proof.
  unfold isValidSubject. intros Hvalid. apply ascii_text_valid.
  destruct (String.eqb subject ""); [discriminate|].
  destruct (256 <? String.length subject)%nat; [discriminate|].
  destruct (bool_decide _ || bool_decide _); [discriminate|].
  destruct (bool_decide _); [discriminate|].
  destruct (matches_valid_pattern subject) eqn:Hpattern; [|discriminate].
  unfold matches_valid_pattern in Hpattern. apply andb_prop in Hpattern as [_ Hchars].
  unfold Spec2.is_ascii_text. apply List.Forall_forall. intros c Hc.
  apply allowed_char_ascii. now apply (proj1 (forallb_forall _ _) Hchars).
Qed.

Lemma engine_frames_dump now subject :
  (isValidSubject subject = true ->
   serialize_throws now (Message.subscribe subject) = false
   /\ serialize_throws now (Message.unsubscribe subject) = false)
  /\ serialize_throws now Message.ping = false.
Proof.
  unfold serialize_throws. rewrite !serialize_dumps by exact I.
  unfold Spec2.utf8_message. cbn -[Utf8.valid]. split; [|reflexivity].
  intros Hvalid. rewrite (valid_subject_utf8 _ Hvalid). split; reflexivity.
Qed.

(** X10.  A [JsonValue] as the SDK builds it (finite numbers, integers
    within [int64_t], object members in ascending key order) whose strings
    and keys are valid UTF-8 is printed by [serializeJsonValue], and
    [deserializeJsonValue] reads the same value back; when a string or a key
    is not valid UTF-8, [serializeJsonValue] throws. *)
Theorem json_value_roundtrip v :
  Spec2.well_formed v ->
  (Spec2.utf8 v = true ->
   exists j,
     ProtocolAuth.serializeJsonValue v = Returns j
     /\ ProtocolAuth.deserializeJsonValue (Some j) = Ok v)
  /\ (Spec2.utf8 v = false -> ProtocolAuth.serializeJsonValue v = Throws).
Proof.
  intros Hwf. unfold ProtocolAuth.serializeJsonValue, Json.dump.
  rewrite (dumps_converted _ Hwf). split; intros ->; [|reflexivity].
  eexists. split; [reflexivity|].
  unfold ProtocolAuth.deserializeJsonValue. now rewrite nlohmann_roundtrip.
Qed.

Lemma json_value_roundtrip_witness :
  let v := JObject [("a", JArray [JInt 1; JString "x"]); ("b", JObject [("c", JBool true)])] in
  (Spec2.well_formed v /\ Spec2.utf8 v = true)
  /\ exists j,
      ProtocolAuth.serializeJsonValue v = Returns j
      /\ ProtocolAuth.deserializeJsonValue (Some j) = Ok v.
Proof.
  assert (Spec2.well_formed
            (JObject [("a", JArray [JInt 1; JString "x"]); ("b", JObject [("c", JBool true)])]))
    as Hwf.
  { cbn. repeat split; try lia; repeat constructor. }
  cbn zeta. split; [split; [exact Hwf|reflexivity]|].
  exact (proj1 (json_value_roundtrip _ Hwf) eq_refl).
Defined.

(** X11.  An envelope of one of the eleven protocol types whose payload is
    a [JsonValue] as the SDK builds it, and whose subject, correlation id,
    device id and payload strings are valid UTF-8, is printed by
    [serialize] and comes back from [deserialize] with its type, subject,
    payload, correlation id and device id unchanged, whatever the clock and
    the time zone; only the timestamp may differ.  When one of its strings
    is not valid UTF-8, [serialize] throws. *)
Theorem envelope_roundtrip utc now m :
  MessageType.defined (type m) = true ->
  Spec2.well_formed (payload m) ->
  (Spec2.utf8_message m = true ->
   serialize_throws now m = false
   /\ exists ts, deserialize utc (Some (serialize now m)) = Ok (Message.with_timestamp ts m))
  /\ (Spec2.utf8_message m = false -> serialize_throws now m = true).
Proof.
  intros Hdefined Hwf. unfold serialize_throws. rewrite (serialize_dumps _ _ Hwf).
  split; intros ->; [|reflexivity].
  split; [reflexivity|]. now apply deserialize_serialize.
Qed.

Lemma envelope_roundtrip_witness :
  (MessageType.defined (type Scenario.stamped) = true
   /\ Spec2.well_formed (payload Scenario.stamped)
   /\ Spec2.utf8_message Scenario.stamped = true)
  /\ serialize_throws 0 Scenario.stamped = false
  /\ exists ts, deserialize 3600 (Some (serialize 0 Scenario.stamped))
                = Ok (Message.with_timestamp ts Scenario.stamped).
Proof.
  assert (MessageType.defined (type Scenario.stamped) = true) as Hdefined by reflexivity.
  assert (Spec2.well_formed (payload Scenario.stamped)) as Hwf by exact I.
  split; [repeat split; assumption|].
  exact (proj1 (envelope_roundtrip 3600 0 Scenario.stamped Hdefined Hwf) eq_refl).
Defined.
End Dump.

(** ** Sessions that do not go as planned *)

Section Sessions.
Import Impl.

Lemma handleMessage_failure msg auth :
  AuthManager.state_ auth = AuthState.Authenticating ->
  MessageType.eqb (type msg) MessageType.Auth = true ->
  AuthResult.success (AuthManager.processAuthResponse msg) = false ->
  AuthManager.handleMessage msg auth
  = (true, AuthManager.mk AuthState.Failed (AuthManager.deviceInfo_ auth) false).
Proof.
  intros Hstate Htype Hfail. unfold AuthManager.handleMessage.
  now rewrite Hstate, Htype, Hfail.
Qed.


Lemma transport_setState env s c : transport_ (setState env s c) = transport_ c.
Proof. now rewrite setState_trace. Qed.

Lemma connect_over_open_transport env outcome c :
  state_ c = ConnectionState.Disconnected ->
  transport_ c = TransportState.Connected ->
  let r := connect_begin env outcome c in
  fst r = Some false
  /\ state_ (snd r) = ConnectionState.Disconnected
  /\ transport_ (snd r) = TransportState.Connected.
Proof.
  intros Hstate Htransport. cbn zeta. unfold connect_begin, transport_connect.
  rewrite Hstate. cbn [transport_ emit set_trace].
  rewrite transport_setState, Htransport. cbn [failed fst snd].
  rewrite state_setState, transport_setState. cbn [transport_ emit set_trace].
  now rewrite transport_setState.
Qed.

(** X12.  A rejected Auth response leaves the transport open.  The engine
    goes to Disconnected and the manager to Failed, with no callback but
    [onStateChanged]; nothing closes the connection.  From then on
    [disconnect()] returns at once, and [connect()] fails on the transport's
    refusal to connect twice. *)
Theorem rejected_auth_keeps_transport env msg c :
  AuthManager.state_ (authManager_ c) = AuthState.Authenticating ->
  state_ c = ConnectionState.Authenticating ->
  transport_ c = TransportState.Connected ->
  MessageType.eqb (type msg) MessageType.Auth = true ->
  AuthResult.success (AuthManager.processAuthResponse msg) = false ->
  let c' := handleAuthMessage env msg c in
  state_ c' = ConnectionState.Disconnected
  /\ AuthManager.state_ (authManager_ c') = AuthState.Failed
  /\ transport_ c' = TransportState.Connected
  /\ trace c'
     = trace c ++ (if ClientCallbacks.onStateChanged (callbacks_ c)
                   then [OnStateChanged ConnectionState.Authenticating
                                        ConnectionState.Disconnected]
                   else [])
  /\ (forall env', disconnect env' c' = c')
  /\ (forall env' outcome,
         let r := connect_begin env' outcome c' in
         fst r = Some false
         /\ state_ (snd r) = ConnectionState.Disconnected
         /\ transport_ (snd r) = TransportState.Connected).
Proof.
  intros Hauth Hstate Htransport Htype Hfail. cbn zeta.
  assert (handleAuthMessage env msg c
          = setState env ConnectionState.Disconnected
              (set_authManager
                 (AuthManager.mk AuthState.Failed
                                 (AuthManager.deviceInfo_ (authManager_ c)) false) c))
    as ->.
  { unfold handleAuthMessage. now rewrite (handleMessage_failure _ _ Hauth Htype Hfail). }
  assert (state_ (setState env ConnectionState.Disconnected
                    (set_authManager
                       (AuthManager.mk AuthState.Failed
                                       (AuthManager.deviceInfo_ (authManager_ c)) false) c))
          = ConnectionState.Disconnected) as Hdisconnected by apply state_setState.
  assert (transport_ (setState env ConnectionState.Disconnected
                        (set_authManager
                           (AuthManager.mk AuthState.Failed
                                           (AuthManager.deviceInfo_ (authManager_ c)) false) c))
          = TransportState.Connected) as Hopen by now rewrite transport_setState.
  repeat split; try assumption.
  - now rewrite authManager_setState.
  - rewrite trace_setState. unfold Spec.setState_effects.
    cbn [state_ set_authManager callbacks_ trace]. rewrite Hstate.
    cbn [ConnectionState.eqb]. now rewrite app_nil_r.
  - intros env'. unfold disconnect. now rewrite Hdisconnected.
  - now apply connect_over_open_transport.
  - now apply connect_over_open_transport.
  - now apply connect_over_open_transport.
Qed.

Lemma rejected_auth_keeps_transport_witness :
  let c := Session.authenticating in
  let msg := Session.auth_rejected in
  AuthManager.state_ (authManager_ c) = AuthState.Authenticating
  /\ state_ c = ConnectionState.Authenticating
  /\ transport_ c = TransportState.Connected
  /\ MessageType.eqb (type msg) MessageType.Auth = true
  /\ AuthResult.success (AuthManager.processAuthResponse msg) = false
  /\ state_ (handleAuthMessage Scenario.env msg c) = ConnectionState.Disconnected
  /\ transport_ (handleAuthMessage Scenario.env msg c) = TransportState.Connected.
Proof.
  cbn zeta.
  assert (AuthManager.state_ (authManager_ Session.authenticating) = AuthState.Authenticating)
    as Hauth by reflexivity.
  assert (state_ Session.authenticating = ConnectionState.Authenticating)
    as Hstate by reflexivity.
  assert (transport_ Session.authenticating = TransportState.Connected)
    as Htransport by reflexivity.
  assert (MessageType.eqb (type Session.auth_rejected) MessageType.Auth = true)
    as Htype by reflexivity.
  assert (AuthResult.success (AuthManager.processAuthResponse Session.auth_rejected) = false)
    as Hfail by reflexivity.
  pose proof (rejected_auth_keeps_transport Scenario.env Session.auth_rejected
                Session.authenticating Hauth Hstate Htransport Htype Hfail)
    as (Hdisconnected & _ & Hopen & _).
  repeat split; assumption.
Defined.
End Sessions.

(** ** The heartbeat before the first pong *)

Section Heartbeats.
Import Impl.

Lemma processHeartbeat_unanswered env c :
  lastPongReceived_ c = 0 ->
  processHeartbeat env c
  = if HeartbeatConfig.interval (GatewayConfig.heartbeat (config_ c))
       <=? steady_now env - lastPingSent_ c
    then set_lastPingSent (steady_now env)
           (emit (TransportSend (Protocol.serialize (system_now env) Message.ping)
                                (Spec.transport_connected c)) c)
    else c.
Proof.
  intros Hpong. unfold processHeartbeat. cbn zeta.
  destruct (HeartbeatConfig.interval (GatewayConfig.heartbeat (config_ c))
            <=? steady_now env - lastPingSent_ c).
  - rewrite transport_send_eq. cbn [snd lastPongReceived_ set_lastPingSent emit set_trace].
    now rewrite Hpong.
  - now rewrite Hpong.
Qed.

(** X13.  The heartbeat monitor starts counting only after a first pong.
    While no pong has ever been received, any number of heartbeat ticks at
    any times leaves the missed-pong count, the state and the transport as
    they are and adds nothing to the trace but pings: a peer that never
    answers is never timed out. *)
Theorem heartbeat_needs_a_first_pong ticks : forall c,
  lastPongReceived_ c = 0 ->
  let c' := Spec2.after_ticks ticks c in
  lastPongReceived_ c' = 0
  /\ missedPongs_ c' = missedPongs_ c
  /\ state_ c' = state_ c
  /\ transport_ c' = transport_ c
  /\ exists tr, trace c' = trace c ++ tr /\ Forall Spec2.is_ping tr.
Proof.
  unfold Spec2.after_ticks.
  induction ticks as [|env ticks IH]; intros c Hpong; cbn [fold_left].
  - repeat split; try assumption. exists []. now rewrite app_nil_r.
  - rewrite (processHeartbeat_unanswered _ _ Hpong).
    destruct (HeartbeatConfig.interval (GatewayConfig.heartbeat (config_ c))
              <=? steady_now env - lastPingSent_ c); [|now apply IH].
    match goal with
    | |- context [fold_left _ ticks ?c1] =>
        destruct (IH c1 Hpong) as (H1 & H2 & H3 & H4 & tr & H5 & H6)
    end.
    repeat split; try assumption.
    eexists (_ :: tr). split.
    + rewrite H5. cbn [trace set_lastPingSent emit set_trace].
      now rewrite <- app_assoc.
    + constructor; [|assumption]. now eexists _, _.
Qed.

Lemma heartbeat_needs_a_first_pong_witness :
  lastPongReceived_ Session.unanswered = 0
  /\ state_ (Spec2.after_ticks Session.ticks Session.unanswered) = ConnectionState.Connected
  /\ missedPongs_ (Spec2.after_ticks Session.ticks Session.unanswered) = 0%N.
Proof.
  assert (lastPongReceived_ Session.unanswered = 0) as Hpong by reflexivity.
  pose proof (heartbeat_needs_a_first_pong Session.ticks Session.unanswered Hpong)
    as (_ & Hmissed & Hstate & _).
  split; [exact Hpong|]. split; [exact Hstate|exact Hmissed].
Defined.
End Heartbeats.

(** ** Frames the engine does not react to *)

Section Frames.
Import Impl.

Lemma handleMessage_silent env parsed c :
  Spec2.silent env (Receive parsed) ->
  handleMessage env parsed c = c \/ handleMessage env parsed c = note_received env c.
Proof.
  unfold Spec2.silent, handleMessage.
  destruct (Protocol.deserialize (utc_offset env) parsed) as [msg|code what]; [|now left].
  intros Hlogged. right. now destruct (type msg).
Qed.

(** X14.  Frames that do not decode and frames of the types that
    [handleMessage] only logs (Publish, Subscribe, Unsubscribe, Request,
    Reply, Ack, Ping and every value outside the enumeration) cause no
    effect: no callback, no handler, nothing sent, in particular no Pong in
    answer to a Ping; the state, the transport, the authentication manager,
    the registry and the heartbeat bookkeeping stay as they are. *)
Theorem logged_frames_are_silent env events : forall c,
  Forall (Spec2.silent env) events ->
  let c' := fold_left (fun c e => deliver env e c) events c in
  trace c' = trace c
  /\ state_ c' = state_ c
  /\ transport_ c' = transport_ c
  /\ authManager_ c' = authManager_ c
  /\ subscriptions_ c' = subscriptions_ c
  /\ lastPongReceived_ c' = lastPongReceived_ c
  /\ missedPongs_ c' = missedPongs_ c.
Proof.
  induction events as [|e events IH]; intros c Hsilent; cbn [fold_left].
  - repeat split.
  - inversion Hsilent as [|? ? He Hrest]; subst.
    destruct e as [|parsed|]; try contradiction. cbn [deliver].
    destruct (handleMessage_silent env parsed c He) as [-> | ->]; [now apply IH|].
    destruct (IH (note_received env c) Hrest) as (H1 & H2 & H3 & H4 & H5 & H6 & H7).
    now rewrite H1, H2, H3, H4, H5, H6, H7.
Qed.

Lemma logged_frames_are_silent_witness :
  let events := [Receive None; Receive (Some Session.ping)] in
  Forall (Spec2.silent Scenario.env) events
  /\ trace (fold_left (fun c e => deliver Scenario.env e c) events Scenario.wildcard_client)
     = trace Scenario.wildcard_client.
Proof.
  cbn zeta.
  assert (Forall (Spec2.silent Scenario.env) [Receive None; Receive (Some Session.ping)])
    as Hsilent.
  { repeat constructor. }
  split; [exact Hsilent|].
  exact (proj1 (logged_frames_are_silent Scenario.env _ Scenario.wildcard_client Hsilent)).
Defined.
End Frames.

(** ** The operations on the registry *)

Section RegistryOps.
Import Impl.

Lemma map_find_keys id m : map_find id m <> None -> In id (List.map fst m).
Proof.
  induction m as [|[k x] m IH]; cbn; [congruence|].
  destruct (N.eqb_spec k id); auto.
Qed.

Lemma map_find_assign id sub m id' :
  map_find id' (map_assign id sub m) = if (id =? id')%N then Some sub else map_find id' m.
Proof.
  induction m as [|[k x] m IH]; cbn [map_assign map_find].
  - reflexivity.
  - destruct (N.eqb_spec k id) as [->|Hne]; cbn [map_find].
    + now destruct (N.eqb_spec id id').
    + destruct (N.ltb_spec id k); cbn [map_find].
      * reflexivity.
      * rewrite IH. destruct (N.eqb_spec k id'), (N.eqb_spec id id'); congruence.
Qed.

Lemma map_find_erase id m id' :
  StronglySorted N.lt (List.map fst m) ->
  map_find id' (map_erase id m) = if (id =? id')%N then None else map_find id' m.
Proof.
  induction m as [|[k x] m IH]; cbn [map_erase map_find List.map fst]; intros Hsorted.
  - now destruct (id =? id')%N.
  - inversion Hsorted as [|? ? Hrest Hk]; subst.
    destruct (N.eqb_spec k id) as [->|Hne]; cbn [map_find].
    + destruct (N.eqb_spec id id') as [Heq|Hne']; [|reflexivity].
      destruct (map_find id' m) eqn:Hfind; [|reflexivity]. rewrite <- Heq in Hfind.
      assert (In id (List.map fst m)) as Hin by (apply map_find_keys; congruence).
      apply (proj1 (List.Forall_forall _ _) Hk) in Hin. lia.
    + rewrite (IH Hrest). destruct (N.eqb_spec k id'), (N.eqb_spec id id'); congruence.
Qed.

Lemma map_erase_assign id sub m :
  map_find id m = None -> map_erase id (map_assign id sub m) = m.
Proof.
  induction m as [|[k x] m IH]; cbn [map_assign map_erase map_find].
  - now rewrite N.eqb_refl.
  - destruct (N.eqb_spec k id) as [->|Hne]; [discriminate|]. intros Hfind.
    destruct (N.ltb_spec id k); cbn [map_erase].
    + now rewrite N.eqb_refl.
    + destruct (N.eqb_spec k id); [contradiction|]. now rewrite IH.
Qed.

(** X15.  [unsubscribe(id)] of a registered id succeeds in every state of
    the engine: the entry of that id is gone, every other entry is kept, the
    subject's index entry is erased, and an Unsubscribe frame is handed to
    the transport exactly when the engine is Connected. *)
Theorem unsubscribe_removes_one_entry config env id sub c :
  reachable config c ->
  map_find id (subscriptions_ c) = Some sub ->
  let r := unsubscribe env id c in
  fst r = Ok tt
  /\ (forall id', map_find id' (subscriptions_ (snd r))
                  = if (id =? id')%N then None else map_find id' (subscriptions_ c))
  /\ subjectToId_ (snd r) = delete (sub_subject sub) (subjectToId_ c)
  /\ state_ (snd r) = state_ c
  /\ trace (snd r)
     = trace c
       ++ (if ConnectionState.eqb (state_ c) ConnectionState.Connected
           then [TransportSend (Protocol.serialize (system_now env)
                                                   (Message.unsubscribe (sub_subject sub)))
                               (Spec.transport_connected c)]
           else []).
Proof.
  intros Hreach Hfind. cbn zeta. unfold unsubscribe. rewrite Hfind.
  destruct (reachable_RegistrySorted _ _ Hreach) as [Hsorted _].
  destruct (state_ c) eqn:Hstate; cbn [ConnectionState.eqb Z.eqb];
    rewrite ?transport_send_eq;
    cbn [fst snd subscriptions_ subjectToId_ state_ trace emit set_trace
         set_subjectToId set_subscriptions];
    rewrite ?app_nil_r; repeat split; try assumption;
    intros id'; now apply map_find_erase.
Qed.

(** X16.  A [subscribe] over an open transport returns the next id, files
    the active subscription under it without touching the other entries,
    points the subject's index entry at it, advances the id counter and
    sends one Subscribe frame. *)
Theorem subscribe_registers env subject handler c :
  state_ c = ConnectionState.Connected ->
  transport_ c = TransportState.Connected ->
  Protocol.isValidSubject subject = true ->
  let id := nextSubscriptionId_ c in
  let r := subscribe env subject handler c in
  fst r = Ok id
  /\ (forall id', map_find id' (subscriptions_ (snd r))
                  = if (id =? id')%N then Some (mkSubscription id subject handler true)
                    else map_find id' (subscriptions_ c))
  /\ subjectToId_ (snd r) !! subject = Some id
  /\ nextSubscriptionId_ (snd r) = wrap_u64 (id + 1)
  /\ trace (snd r)
     = trace c ++ [TransportSend (Protocol.serialize (system_now env)
                                                     (Message.subscribe subject)) true].
Proof.
  intros Hstate Htransport Hvalid. cbn zeta. unfold subscribe.
  rewrite Hstate, Hvalid. cbn [negb]. rewrite transport_send_eq.
  unfold Spec.transport_connected.
  cbn [transport_ set_subjectToId set_subscriptions set_nextSubscriptionId].
  rewrite Htransport.
  cbn [fst snd subscriptions_ subjectToId_ nextSubscriptionId_ trace emit set_trace
       set_subjectToId set_subscriptions set_nextSubscriptionId].
  repeat split.
  - intros id'. apply map_find_assign.
  - apply lookup_insert_eq.
Qed.

(** X17.  When the transport refuses the Subscribe frame, [subscribe]
    returns the transport's error and restores the registry, but it erases
    the subject's index entry whoever owned it, and the id is used up: an
    earlier subscription to the same subject stays registered, yet
    [unsubscribe(subject)] no longer finds it. *)
Theorem failed_subscribe_forgets_subject env subject handler c :
  state_ c = ConnectionState.Connected ->
  transport_ c <> TransportState.Connected ->
  Protocol.isValidSubject subject = true ->
  map_find (nextSubscriptionId_ c) (subscriptions_ c) = None ->
  let r := subscribe env subject handler c in
  fst r = Err ErrorCode.NotConnected "Not connected"
  /\ subscriptions_ (snd r) = subscriptions_ c
  /\ subjectToId_ (snd r) = delete subject (subjectToId_ c)
  /\ nextSubscriptionId_ (snd r) = wrap_u64 (nextSubscriptionId_ c + 1)
  /\ (forall env',
         unsubscribe_subject env' subject (snd r)
         = (Err ErrorCode.NotSubscribed "Not subscribed", snd r)).
Proof.
  intros Hstate Htransport Hvalid Hfresh. cbn zeta. unfold subscribe.
  rewrite Hstate, Hvalid. cbn [negb]. rewrite transport_send_eq.
  unfold Spec.transport_connected.
  cbn [transport_ set_subjectToId set_subscriptions set_nextSubscriptionId].
  destruct (transport_ c) eqn:Hopen; try contradiction;
    cbn [fst snd subscriptions_ subjectToId_ nextSubscriptionId_ trace emit set_trace
         set_subjectToId set_subscriptions set_nextSubscriptionId];
    rewrite (map_erase_assign _ _ _ Hfresh), delete_insert_eq;
    (repeat split; []);
    intros env'; unfold unsubscribe_subject; cbn [subjectToId_ set_subjectToId];
    now rewrite lookup_delete_eq.
Qed.

Lemma failed_subscribe_forgets_subject_witness :
  let c := Session.half_open in
  let r := subscribe Scenario.env "factory.line1.>" None c in
  (state_ c = ConnectionState.Connected
   /\ transport_ c <> TransportState.Connected
   /\ Protocol.isValidSubject "factory.line1.>" = true
   /\ map_find (nextSubscriptionId_ c) (subscriptions_ c) = None)
  /\ getSubscriptions (snd r) = ["factory.line1.>"; "factory.*.temp"]
  /\ unsubscribe_subject Scenario.env "factory.line1.>" (snd r)
     = (Err ErrorCode.NotSubscribed "Not subscribed", snd r).
Proof.
  cbn zeta.
  assert (state_ Session.half_open = ConnectionState.Connected) as Hstate by reflexivity.
  assert (transport_ Session.half_open <> TransportState.Connected) as Htransport
      by discriminate.
  assert (Protocol.isValidSubject "factory.line1.>" = true) as Hvalid by reflexivity.
  assert (map_find (nextSubscriptionId_ Session.half_open) (subscriptions_ Session.half_open)
          = None) as Hfresh by reflexivity.
  pose proof (failed_subscribe_forgets_subject Scenario.env "factory.line1.>" None
                Session.half_open Hstate Htransport Hvalid Hfresh)
    as (_ & Hregistry & _ & _ & Hforgotten).
  split; [repeat split; assumption|]. split.
  - unfold getSubscriptions. rewrite Hregistry. reflexivity.
  - apply Hforgotten.
Defined.

Lemma subscribe_registers_witness :
  let c := Scenario.connected Scenario.config Scenario.auth_ok_device in
  let r := subscribe Scenario.env "cmd.sensor-1.reset" (Some 7%nat) c in
  (state_ c = ConnectionState.Connected
   /\ transport_ c = TransportState.Connected
   /\ Protocol.isValidSubject "cmd.sensor-1.reset" = true)
  /\ fst r = Ok 1%N
  /\ subjectToId_ (snd r) !! "cmd.sensor-1.reset" = Some 1%N.
Proof.
  cbn zeta.
  assert (state_ (Scenario.connected Scenario.config Scenario.auth_ok_device)
          = ConnectionState.Connected) as Hstate by reflexivity.
  assert (transport_ (Scenario.connected Scenario.config Scenario.auth_ok_device)
          = TransportState.Connected) as Htransport by reflexivity.
  assert (Protocol.isValidSubject "cmd.sensor-1.reset" = true) as Hvalid by reflexivity.
  pose proof (subscribe_registers Scenario.env "cmd.sensor-1.reset" (Some 7%nat)
                _ Hstate Htransport Hvalid) as (Hid & _ & Hindex & _).
  split; [repeat split; assumption|]. split; [exact Hid|exact Hindex].
Defined.

Lemma unsubscribe_removes_one_entry_witness :
  let c := Session.subscribed in
  let sub := mkSubscription 1%N "a.b" (Some 1%nat) true in
  (reachable Scenario.config c /\ map_find 1%N (subscriptions_ c) = Some sub)
  /\ map_find 1%N (subscriptions_ (snd (unsubscribe Scenario.env 1%N c))) = None
  /\ map_find 2%N (subscriptions_ (snd (unsubscribe Scenario.env 1%N c)))
     = map_find 2%N (subscriptions_ c).
Proof.
  cbn zeta.
  assert (reachable Scenario.config Session.subscribed) as Hreach by (eexists; reflexivity).
  assert (map_find 1%N (subscriptions_ Session.subscribed)
          = Some (mkSubscription 1%N "a.b" (Some 1%nat) true)) as Hfind by reflexivity.
  pose proof (unsubscribe_removes_one_entry Scenario.config Scenario.env 1%N _ _
                Hreach Hfind) as (_ & Hentries & _).
  split; [split; assumption|]. split.
  - exact (Hentries 1%N).
  - exact (Hentries 2%N).
Defined.

End RegistryOps.

(** ** The end of a session *)

Section Closing.
Import Impl.

Lemma fields_setState env s c :
  transport_ (setState env s c) = transport_ c
  /\ reconnectPolicy_ (setState env s c) = reconnectPolicy_ c
  /\ subscriptions_ (setState env s c) = subscriptions_ c
  /\ subjectToId_ (setState env s c) = subjectToId_ c
  /\ callbacks_ (setState env s c) = callbacks_ c.
Proof. now rewrite setState_trace. Qed.

Lemma transport_disconnect_off env code reason c :
  ReconnectPolicy.enabled_ (reconnectPolicy_ c) = false ->
  let c' := transport_disconnect env code reason c in
  transport_ c' <> TransportState.Connected
  /\ reconnectPolicy_ c' = reconnectPolicy_ c
  /\ subscriptions_ c' = subscriptions_ c
  /\ authManager_ c' = authManager_ c.
Proof.
  intros Hoff. cbn zeta. unfold transport_disconnect, transport_close.
  cbn [transport_ emit set_trace].
  destruct (transport_ c) eqn:Htransport;
    try (cbn [transport_ reconnectPolicy_ subscriptions_ authManager_ emit set_trace];
         rewrite ?Htransport; repeat split; congruence);
    unfold onTransportDisconnected, ReconnectPolicy.isEnabled;
    cbn [reconnectPolicy_ set_transport emit set_trace]; rewrite Hoff; cbn [andb];
    unfold fire;
    match goal with
    | |- context [if ?b then _ else _] => destruct b
    end;
    cbn [transport_ reconnectPolicy_ subscriptions_ authManager_ emit set_trace];
    rewrite ?authManager_setState;
    match goal with
    | |- context [setState ?e ?s ?x] =>
        destruct (fields_setState e s x) as (-> & -> & -> & _)
    end;
    cbn [transport_ reconnectPolicy_ subscriptions_ authManager_ set_transport];
    repeat split; congruence.
Qed.

(** X18.  [disconnect()] from any state but Disconnected and Closed ends
    in Closed with the authentication manager reset, the transport not
    connected, the reconnect policy switched off and the registry kept; and
    a second [disconnect()] changes nothing. *)
Theorem disconnect_is_final env c :
  let c' := disconnect env c in
  (state_ c <> ConnectionState.Disconnected ->
   state_ c <> ConnectionState.Closed ->
   state_ c' = ConnectionState.Closed
   /\ authManager_ c' = AuthManager.init
   /\ transport_ c' <> TransportState.Connected
   /\ ReconnectPolicy.enabled_ (reconnectPolicy_ c') = false
   /\ subscriptions_ c' = subscriptions_ c)
  /\ (forall env', disconnect env' c' = c').
Proof.
  cbn zeta.
  assert (state_ c <> ConnectionState.Disconnected ->
          state_ c <> ConnectionState.Closed ->
          state_ (disconnect env c) = ConnectionState.Closed
          /\ authManager_ (disconnect env c) = AuthManager.init
          /\ transport_ (disconnect env c) <> TransportState.Connected
          /\ ReconnectPolicy.enabled_ (reconnectPolicy_ (disconnect env c)) = false
          /\ subscriptions_ (disconnect env c) = subscriptions_ c) as Hfinal.
  { intros Hdisconnected Hclosed.
    assert (disconnect env c
            = setState env ConnectionState.Closed
                (set_authManager AuthManager.init
                   (transport_disconnect env 1000 "Client disconnect"
                      (setState env ConnectionState.Closing
                         (set_reconnectPolicy
                            (ReconnectPolicy.setEnabled false (reconnectPolicy_ c)) c)))))
      as ->.
    { unfold disconnect. destruct (state_ c); try contradiction; reflexivity. }
    set (c1 := setState env ConnectionState.Closing
                 (set_reconnectPolicy
                    (ReconnectPolicy.setEnabled false (reconnectPolicy_ c)) c)).
    assert (ReconnectPolicy.enabled_ (reconnectPolicy_ c1) = false) as Hoff.
    { subst c1. now destruct (fields_setState env ConnectionState.Closing
                                (set_reconnectPolicy
                                   (ReconnectPolicy.setEnabled false (reconnectPolicy_ c)) c))
        as (_ & -> & _). }
    destruct (transport_disconnect_off env 1000 "Client disconnect" c1 Hoff)
      as (Htransport & Hpolicy & Hregistry & _).
    rewrite state_setState, authManager_setState.
    match goal with
    | |- context [setState ?e ?s ?x] =>
        destruct (fields_setState e s x) as (-> & -> & -> & _)
    end.
    cbn [authManager_ transport_ reconnectPolicy_ subscriptions_ set_authManager].
    rewrite Hpolicy, Hregistry. repeat split; try assumption.
    subst c1. now destruct (fields_setState env ConnectionState.Closing
                              (set_reconnectPolicy
                                 (ReconnectPolicy.setEnabled false (reconnectPolicy_ c)) c))
      as (_ & _ & -> & _). }
  split; [exact Hfinal|].
  intros env'.
  destruct (ConnectionState.eqb (state_ c) ConnectionState.Disconnected) eqn:Hd.
  - assert (state_ c = ConnectionState.Disconnected) as Hstate
        by (destruct (state_ c); try discriminate; reflexivity).
    unfold disconnect. rewrite Hstate. cbn. now rewrite Hstate.
  - destruct (ConnectionState.eqb (state_ c) ConnectionState.Closed) eqn:Hc.
    + assert (state_ c = ConnectionState.Closed) as Hstate
          by (destruct (state_ c); try discriminate; reflexivity).
      unfold disconnect. rewrite Hstate. cbn. now rewrite Hstate.
    + destruct Hfinal as (Hstate & _).
      * intros Heq. now rewrite Heq in Hd.
      * intros Heq. now rewrite Heq in Hc.
      * unfold disconnect at 1. now rewrite Hstate.
Qed.
End Closing.

(** ** Reconnection *)

Section Reconnection.
Import Impl.

Lemma handleAuthMessage_ignored env msg c :
  AuthManager.state_ (authManager_ c) <> AuthState.Authenticating ->
  handleAuthMessage env msg c = c.
Proof.
  intros Hstate. unfold handleAuthMessage, AuthManager.handleMessage.
  destruct (AuthManager.state_ (authManager_ c)); try contradiction; now destruct c.
Qed.

(** X19.  A reconnection sends no Auth request.  From Reconnecting, with
    an attempt allowed and the transport neither connected nor connecting,
    [processReconnection] against a peer that accepts fires
    [onReconnecting], sleeps, connects the transport and enters
    Authenticating; it sends nothing and leaves the authentication manager
    as it was, and [connect()] then returns false.  What an Auth response
    does afterwards is decided by the manager alone: unless the manager was
    left Authenticating (by a [connect()] that lost the transport while it
    waited), the response is not handled; if it was, a response with
    success takes the engine to Connected. *)
Theorem reconnection_sends_no_auth_request env sample c :
  state_ c = ConnectionState.Reconnecting ->
  ReconnectPolicy.shouldReconnect (reconnectPolicy_ c) = true ->
  transport_ c <> TransportState.Connected ->
  transport_ c <> TransportState.Connecting ->
  let next := ReconnectPolicy.getNextDelay sample (reconnectPolicy_ c) in
  let c' := processReconnection env Established sample c in
  state_ c' = ConnectionState.Authenticating
  /\ transport_ c' = TransportState.Connected
  /\ authManager_ c' = authManager_ c
  /\ trace c'
     = trace c
       ++ (if ClientCallbacks.onReconnecting (callbacks_ c)
           then [OnReconnecting (ReconnectPolicy.attemptCount_ (snd next))] else [])
       ++ [Sleep (fst next);
           TransportConnect (GatewayConfig.gatewayUrl (config_ c))
                            (GatewayConfig.connectTimeout (config_ c))]
       ++ (if ClientCallbacks.onStateChanged (callbacks_ c)
           then [OnStateChanged ConnectionState.Reconnecting ConnectionState.Authenticating]
           else [])
  /\ (AuthManager.state_ (authManager_ c) <> AuthState.Authenticating ->
      forall env' msg, handleAuthMessage env' msg c' = c')
  /\ (AuthManager.state_ (authManager_ c) = AuthState.Authenticating ->
      forall env' msg,
        Spec.auth_success msg = true ->
        state_ (handleAuthMessage env' msg c') = ConnectionState.Connected)
  /\ (forall env' outcome, fst (connect_begin env' outcome c') = Some false).
Proof.
  intros Hstate Hshould Hconnected Hconnecting. cbn zeta.
  unfold processReconnection. rewrite Hshould. cbn [negb].
  destruct (ReconnectPolicy.getNextDelay sample (reconnectPolicy_ c)) as [delay policy].
  cbn [fst snd]. unfold transport_connect, fire, ReconnectPolicy.getAttemptCount.
  cbn [callbacks_ reconnectPolicy_ config_ set_reconnectPolicy].
  destruct (ClientCallbacks.onReconnecting (callbacks_ c));
    cbn [transport_ config_ emit set_trace set_reconnectPolicy];
    (destruct (transport_ c) eqn:Htransport; try contradiction);
    cbn [snd]; unfold onTransportConnected;
    rewrite setState_trace; unfold Spec.setState_effects;
    cbn [state_ transport_ authManager_ callbacks_ trace emit set_trace set_state
         set_transport set_reconnectPolicy];
    rewrite Hstate; cbn [ConnectionState.eqb];
    rewrite ?app_nil_r, <- ?app_assoc; cbn [app].
  all: repeat split.
  all: try (intros Hauth env' msg; apply handleAuthMessage_ignored; exact Hauth).
  all: intros Hauth env' msg Hsuccess;
    match goal with
    | |- state_ (handleAuthMessage _ _ ?x) = _ =>
        destruct (handleAuthMessage_success env' msg x Hauth ltac:(discriminate) Hsuccess)
          as [Hconnected' _]; exact Hconnected'
    end.
Qed.

Lemma reconnection_sends_no_auth_request_witness :
  let c := Session.reconnecting in
  let c' := processReconnection Scenario.env Established 0%Q c in
  (state_ c = ConnectionState.Reconnecting
   /\ ReconnectPolicy.shouldReconnect (reconnectPolicy_ c) = true
   /\ transport_ c <> TransportState.Connected
   /\ transport_ c <> TransportState.Connecting)
  /\ state_ c' = ConnectionState.Authenticating
  /\ authManager_ c' = authManager_ c.
Proof.
  cbn zeta.
  assert (state_ Session.reconnecting = ConnectionState.Reconnecting) as Hstate
      by (vm_compute; reflexivity).
  assert (ReconnectPolicy.shouldReconnect (reconnectPolicy_ Session.reconnecting) = true)
    as Hshould by (vm_compute; reflexivity).
  assert (transport_ Session.reconnecting <> TransportState.Connected) as Hconnected
      by (vm_compute; discriminate).
  assert (transport_ Session.reconnecting <> TransportState.Connecting) as Hconnecting
      by (vm_compute; discriminate).
  pose proof (reconnection_sends_no_auth_request Scenario.env 0%Q Session.reconnecting
                Hstate Hshould Hconnected Hconnecting)
    as (Hafter & _ & Hmanager & _).
  split; [repeat split; assumption|]. split; [exact Hafter|exact Hmanager].
Defined.

(** Both cases occur.  After a session, the manager is Authenticated and
    the response is ignored; when the peer closes the connection while
    [connect()] waits for the response, the manager stays Authenticating
    and a later response completes the reconnection. *)
Lemma auth_response_after_reconnection :
  let late (c : Impl.t) :=
    handleAuthMessage Scenario.env Scenario.auth_ok_message
                      (processReconnection Scenario.env Established 0%Q c) in
  AuthManager.state_ (authManager_ Session.reconnecting) = AuthState.Authenticated
  /\ state_ (late Session.reconnecting) = ConnectionState.Authenticating
  /\ AuthManager.state_ (authManager_ Session.interrupted) = AuthState.Authenticating
  /\ state_ Session.interrupted = ConnectionState.Reconnecting
  /\ state_ (late Session.interrupted) = ConnectionState.Connected.
Proof. vm_compute. repeat split; reflexivity. Qed.

(** X20.  When the policy refuses a further attempt, [processReconnection]
    goes to Disconnected and does nothing else: no attempt, no sleep, and
    neither [onDisconnected] nor [onError] is invoked. *)
Theorem reconnection_gives_up_silently env outcome sample c :
  state_ c = ConnectionState.Reconnecting ->
  ReconnectPolicy.shouldReconnect (reconnectPolicy_ c) = false ->
  let c' := processReconnection env outcome sample c in
  state_ c' = ConnectionState.Disconnected
  /\ transport_ c' = transport_ c
  /\ reconnectPolicy_ c' = reconnectPolicy_ c
  /\ trace c'
     = trace c
       ++ (if ClientCallbacks.onStateChanged (callbacks_ c)
           then [OnStateChanged ConnectionState.Reconnecting ConnectionState.Disconnected]
           else []).
Proof.
  intros Hstate Hshould. cbn zeta. unfold processReconnection. rewrite Hshould. cbn [negb].
  rewrite setState_trace. unfold Spec.setState_effects. rewrite Hstate.
  cbn [ConnectionState.eqb state_ transport_ reconnectPolicy_ trace set_trace set_state].
  now rewrite app_nil_r.
Qed.

Lemma reconnection_gives_up_silently_witness :
  let c := Session.exhausted in
  let c' := processReconnection Scenario.env Established 0%Q c in
  (state_ c = ConnectionState.Reconnecting
   /\ ReconnectPolicy.shouldReconnect (reconnectPolicy_ c) = false)
  /\ state_ c' = ConnectionState.Disconnected
  /\ trace c' = trace c.
Proof.
  cbn zeta.
  assert (state_ Session.exhausted = ConnectionState.Reconnecting) as Hstate by (vm_compute; reflexivity).
  assert (ReconnectPolicy.shouldReconnect (reconnectPolicy_ Session.exhausted) = false)
    as Hshould by (vm_compute; reflexivity).
  pose proof (reconnection_gives_up_silently Scenario.env Established 0%Q Session.exhausted
                Hstate Hshould) as (Hafter & _ & _ & Htrace).
  split; [split; assumption|]. split; [exact Hafter|].
  rewrite Htrace. vm_compute. reflexivity.
Defined.
End Reconnection.

(** ** The URL of the gateway *)

Section Urls.
Import WebSocketTransport.

Lemma length_append (a b : string) :
  String.length (a ++ b)%string = (String.length a + String.length b)%nat.
Proof. induction a as [|c a IH]; [reflexivity|]. rewrite append_cons. cbn. now rewrite IH. Qed.

Lemma append_nil_l (s : string) : ("" ++ s)%string = s.
Proof. reflexivity. Qed.

Lemma substring_prefix (a b : string) :
  String.substring 0 (String.length a) (a ++ b)%string = a.
Proof.
  induction a as [|c a IH]; cbn [String.length].
  - now destruct b.
  - rewrite append_cons. cbn [String.substring]. now rewrite IH.
Qed.

Lemma substring_skip (a b : string) k m :
  String.substring (String.length a + k) m (a ++ b)%string = String.substring k m b.
Proof.
  induction a as [|c a IH]; [reflexivity|].
  rewrite append_cons. cbn [String.length Nat.add String.substring]. apply IH.
Qed.

Lemma find_char_skip ch (a b : string) k :
  find_char ch (String.length a + k) (a ++ b)%string
  = option_map (Nat.add (String.length a)) (find_char ch k b).
Proof.
  induction a as [|c a IH].
  - rewrite append_nil_l. cbn [String.length Nat.add]. now destruct (find_char ch k b).
  - rewrite append_cons. cbn [String.length Nat.add find_char]. rewrite IH.
    now destruct (find_char ch k b).
Qed.

Lemma find_char_lacks ch (a b : string) :
  lacks ch a = true ->
  find_char ch 0 (a ++ b)%string
  = option_map (Nat.add (String.length a)) (find_char ch 0 b).
Proof.
  unfold lacks. induction a as [|c a IH]; intros Hlacks.
  - rewrite append_nil_l. cbn [String.length]. now destruct (find_char ch 0 b).
  - rewrite append_cons. cbn [list_ascii_of_string forallb] in Hlacks.
    apply andb_prop in Hlacks as [Hc Ha]. cbn [find_char String.length].
    apply negb_true_iff in Hc. rewrite Hc, (IH Ha).
    now destruct (find_char ch 0 b).
Qed.

Lemma scheme_found scheme rest flags :
  known_scheme scheme = Some flags ->
  Protocol.find_substring "://" (scheme ++ "://" ++ rest)%string = Some (String.length scheme).
Proof.
  unfold known_scheme.
  destruct (String.eqb_spec scheme "wss") as [->|_]; [now destruct rest|].
  destruct (String.eqb_spec scheme "ws") as [->|_]; [now destruct rest|discriminate].
Qed.

Lemma parse_path path :
  path_or_nothing path = true ->
  find_char "/" 0 path = (if String.eqb path "" then None else Some 0%nat).
Proof.
  destruct path as [|c path]; [reflexivity|]. cbn [path_or_nothing find_char].
  now intros ->.
Qed.


Lemma substring_skip0 (a b : string) m :
  String.substring (String.length a) m (a ++ b)%string = String.substring 0 m b.
Proof. rewrite <- (substring_skip a b 0 m). now rewrite Nat.add_0_r. Qed.

Lemma find_char_skip0 ch (a b : string) :
  find_char ch (String.length a) (a ++ b)%string
  = option_map (Nat.add (String.length a)) (find_char ch 0 b).
Proof. rewrite <- (find_char_skip ch a b 0). now rewrite Nat.add_0_r. Qed.

Lemma substr_from_skip (a b : string) p :
  substr_from (String.length a + p) (a ++ b)%string = substr_from p b.
Proof.
  unfold substr_from. rewrite length_append, substring_skip. f_equal. lia.
Qed.

Lemma parseUrl_rest scheme rest useTls port :
  known_scheme scheme = Some (useTls, port) ->
  parseUrl (scheme ++ "://" ++ rest)%string = parse_rest useTls port rest.
Proof.
  intros Hscheme. unfold parseUrl, parse_rest.
  rewrite (scheme_found _ _ _ Hscheme), substring_prefix.
  fold (known_scheme scheme). rewrite Hscheme.
  rewrite <- (append_assoc scheme "://" rest).
  assert (String.length scheme + 3 = String.length (scheme ++ "://")%string)%nat as ->
      by (rewrite length_append; reflexivity).
  set (pre := (scheme ++ "://")%string).
  rewrite !find_char_skip0, length_append.
  destruct (find_char "/" 0 rest) as [p|], (find_char ":" 0 rest) as [ps|];
    cbn [option_map].
  - replace (String.length pre + ps <? String.length pre + p)%nat with (ps <? p)%nat
      by (destruct (Nat.ltb_spec ps p), (Nat.ltb_spec (String.length pre + ps)
                                                      (String.length pre + p)); lia).
    destruct (ps <? p)%nat.
    + replace (String.length pre + ps + 1)%nat with (String.length pre + (ps + 1))%nat by lia.
      replace (String.length pre + p - (String.length pre + ps) - 1)%nat
        with (p - ps - 1)%nat by lia.
      replace (String.length pre + ps - String.length pre)%nat with ps by lia.
      now rewrite substring_skip, substr_from_skip, substring_skip0.
    + replace (String.length pre + p - String.length pre)%nat with p by lia.
      now rewrite substr_from_skip, substring_skip0.
  - replace (String.length pre + p - String.length pre)%nat with p by lia.
    now rewrite substr_from_skip, substring_skip0.
  - replace (String.length pre + ps + 1)%nat with (String.length pre + (ps + 1))%nat by lia.
    replace (String.length pre + String.length rest - (String.length pre + ps) - 1)%nat
      with (String.length rest - ps - 1)%nat by lia.
    replace (String.length pre + ps - String.length pre)%nat with ps by lia.
    now rewrite substring_skip, substring_skip0.
  - replace (String.length pre + String.length rest - String.length pre)%nat
      with (String.length rest) by lia.
    now rewrite substring_skip0.
Qed.

Lemma substring_all (a : string) : String.substring 0 (String.length a) a = a.
Proof. rewrite <- (append_nil_r a) at 2. apply substring_prefix. Qed.

Lemma substr_from_0 (a : string) : substr_from 0 a = a.
Proof. unfold substr_from. rewrite Nat.sub_0_r. apply substring_all. Qed.

Lemma find_char_after_slash ch path :
  path_or_nothing path = true -> Ascii.eqb "/" ch = false ->
  match find_char ch 0 path with Some i => (0 < i)%nat | None => True end.
Proof.
  destruct path as [|c path]; [easy|]. cbn [path_or_nothing find_char].
  intros Hc Hch. apply Ascii.eqb_eq in Hc. subst c. rewrite Hch.
  destruct (find_char ch 0 path); cbn; [lia|exact I].
Qed.

(** X21.  [parseUrl] on a URL made of the scheme [ws] or [wss], a host
    without colon or slash, and nothing or a path: it succeeds with the
    scheme's TLS flag and default port (80, 443), the host as written, and
    the path, [/] when none is written.  A colon inside the path is no port
    separator. *)
Theorem parseUrl_default_port scheme host path useTls port :
  known_scheme scheme = Some (useTls, port) ->
  plain_host host = true ->
  path_or_nothing path = true ->
  parseUrl (url_text scheme host None path)
  = Parsed (mkUrl useTls host port (if String.eqb path "" then "/" else path)).
Proof.
  intros Hscheme Hhost Hpath. unfold plain_host in Hhost.
  apply andb_prop in Hhost as [Hcolon Hslash].
  unfold url_text. rewrite append_nil_l, (parseUrl_rest _ _ _ _ Hscheme).
  unfold parse_rest.
  rewrite (find_char_lacks _ _ _ Hslash), (find_char_lacks _ _ _ Hcolon), (parse_path _ Hpath).
  pose proof (find_char_after_slash ":" path Hpath eq_refl) as Hafter.
  destruct (String.eqb_spec path "") as [->|Hne]; cbn [option_map].
  - cbn [find_char option_map]. rewrite append_nil_r. now rewrite substring_all.
  - destruct (find_char ":" 0 path) as [i|]; cbn [option_map].
    + destruct (Nat.ltb_spec (String.length host + i) (String.length host + 0)); [lia|].
      rewrite Nat.add_0_r, substring_prefix.
      rewrite <- (Nat.add_0_r (String.length host)), substr_from_skip. now rewrite substr_from_0.
    + rewrite Nat.add_0_r, substring_prefix.
      rewrite <- (Nat.add_0_r (String.length host)), substr_from_skip. now rewrite substr_from_0.
Qed.

(** X22.  With a colon after the host, the text up to the path (or to the
    end) goes to [std::stoi], and its value is the port.  When [std::stoi]
    throws, [parseUrl] neither succeeds nor returns false: the exception
    leaves it, and so [connect] reports no invalid URL. *)
Theorem parseUrl_explicit_port scheme host text path useTls port :
  known_scheme scheme = Some (useTls, port) ->
  plain_host host = true ->
  lacks "/" text = true ->
  path_or_nothing path = true ->
  parseUrl (url_text scheme host (Some text) path)
  = match stoi text with
    | Some explicit =>
        Parsed (mkUrl useTls host explicit (if String.eqb path "" then "/" else path))
    | None => Thrown
    end.
Proof.
  intros Hscheme Hhost Htext Hpath. unfold plain_host in Hhost.
  apply andb_prop in Hhost as [Hcolon Hslash].
  unfold url_text. rewrite (parseUrl_rest _ _ _ _ Hscheme).
  rewrite append_assoc, append_cons, append_nil_l.
  unfold parse_rest.
  rewrite (find_char_lacks _ _ _ Hslash), (find_char_lacks _ _ _ Hcolon).
  cbn [find_char Ascii.eqb Bool.eqb option_map].
  rewrite (find_char_lacks _ _ _ Htext), (parse_path _ Hpath).
  rewrite length_append. cbn [String.length]. rewrite length_append.
  destruct (String.eqb_spec path "") as [->|Hne]; cbn [option_map String.length].
  - replace (String.length host + 0 + 1)%nat with (String.length host + 1)%nat by lia.
    replace (String.length host + S (String.length text + 0) - (String.length host + 0) - 1)%nat
      with (String.length text) by lia.
    rewrite substring_skip. cbn [String.substring].
    rewrite append_nil_r, substring_all.
    destruct (stoi text); [|reflexivity].
    now rewrite Nat.add_0_r, substring_prefix.
  - destruct (Nat.ltb_spec (String.length host + 0)
                           (String.length host + S (String.length text + 0))); [|lia].
    replace (String.length host + 0 + 1)%nat with (String.length host + 1)%nat by lia.
    replace (String.length host + S (String.length text + 0) - (String.length host + 0) - 1)%nat
      with (String.length text) by lia.
    rewrite substring_skip. cbn [String.substring]. rewrite substring_prefix.
    destruct (stoi text); [|reflexivity].
    rewrite Nat.add_0_r, substring_prefix, substr_from_skip.
    unfold substr_from. cbn [String.length Nat.sub String.substring].
    replace (String.length text + 0)%nat with (String.length text + 0)%nat by lia.
    rewrite length_append.
    replace (String.length text + String.length path - (String.length text + 0))%nat
      with (String.length path) by lia.
    now rewrite substring_skip, substring_all.
Qed.

Lemma parseUrl_default_port_witness :
  (known_scheme "wss" = Some (true, 443)
   /\ plain_host "gateway.example.com" = true
   /\ path_or_nothing "/ws" = true)
  /\ parseUrl "wss://gateway.example.com/ws"
     = Parsed (mkUrl true "gateway.example.com" 443 "/ws").
Proof.
  assert (known_scheme "wss" = Some (true, 443)) as Hscheme by reflexivity.
  assert (plain_host "gateway.example.com" = true) as Hhost by reflexivity.
  assert (path_or_nothing "/ws" = true) as Hpath by reflexivity.
  split; [repeat split; assumption|].
  exact (parseUrl_default_port "wss" "gateway.example.com" "/ws" true 443 Hscheme Hhost Hpath).
Defined.

Lemma parseUrl_explicit_port_witness :
  (known_scheme "ws" = Some (false, 80)
   /\ plain_host "localhost" = true
   /\ lacks "/" "" = true
   /\ path_or_nothing "/ws" = true)
  /\ parseUrl "ws://localhost:/ws" = Thrown.
Proof.
  assert (known_scheme "ws" = Some (false, 80)) as Hscheme by reflexivity.
  assert (plain_host "localhost" = true) as Hhost by reflexivity.
  assert (lacks "/" "" = true) as Htext by reflexivity.
  assert (path_or_nothing "/ws" = true) as Hpath by reflexivity.
  split; [repeat split; assumption|].
  exact (parseUrl_explicit_port "ws" "localhost" "" "/ws" false 80 Hscheme Hhost Htext Hpath).
Defined.
End Urls.

(** ** The tokens of a valid subject *)

Section ValidSubjects.
Import Protocol AuthManager.

Lemma no_double_dot_cons c rest :
  find_substring ".." (String c rest) = None ->
  find_substring ".." rest = None
  /\ (c = "."%char -> front rest <> Some "."%char).
Proof.
  unfold find_substring, front. cbn [String.index].
  destruct (String.prefix ".." (String c rest)) eqn:Hprefix; [discriminate|].
  intros Hnone. split.
  - destruct (String.index 0 ".." rest); [discriminate|reflexivity].
  - intros -> Hfront. destruct rest as [|c' rest]; [discriminate|].
    cbn in Hfront. injection Hfront as ->. now destruct rest.
Qed.

Lemma back_rest c rest :
  back (String c rest) <> Some "."%char -> rest <> "" -> back rest <> Some "."%char.
Proof. destruct rest as [|c' rest]; [easy|]. now rewrite back_cons. Qed.

Lemma split_dots_nonempty s : forall current,
  current <> "" \/ (s <> "" /\ front s <> Some "."%char) ->
  find_substring ".." s = None ->
  back s <> Some "."%char ->
  Forall (fun token => token <> "") (Spec.split_dots current s).
Proof.
  induction s as [|c rest IH]; intros current Hstart Hdots Hback.
  - cbn. constructor; [|constructor]. destruct Hstart as [Hcurrent|[Hs _]]; easy.
  - rewrite split_dots_cons. apply no_double_dot_cons in Hdots as [Hdots Hnext].
    destruct (Ascii.eqb_spec c ".") as [->|Hc].
    + assert (rest <> "") as Hrest by (intros ->; now apply Hback).
      constructor.
      * destruct Hstart as [Hcurrent|[_ Hfront]]; [assumption|]. now contradiction Hfront.
      * apply IH; [right; split; auto|assumption|now apply (back_rest "."%char)].
    + apply IH; [left; now destruct current|assumption|].
      destruct rest as [|c' rest]; [easy|]. now apply (back_rest c).
Qed.

(** X24.  A subject that [isValidSubject] accepts has at least one token,
    no empty token, and its tokens are exactly the pieces between its dots:
    on valid subjects the tokenizer of [matchesPattern] drops nothing. *)
Theorem valid_subject_tokens subject :
  isValidSubject subject = true ->
  splitTokens subject = Spec.split_dots "" subject
  /\ splitTokens subject <> []
  /\ Forall (fun token => token <> "") (splitTokens subject).
Proof.
  unfold isValidSubject.
  destruct (String.eqb_spec subject "") as [|Hne]; [discriminate|].
  destruct (256 <? String.length subject)%nat; [discriminate|].
  destruct (bool_decide (front subject = Some "."%char)) eqn:Hfront; [discriminate|].
  destruct (bool_decide (back subject = Some "."%char)) eqn:Hback; [discriminate|].
  apply bool_decide_eq_false in Hfront, Hback. cbn [orb].
  destruct (find_substring ".." subject) eqn:Hdots.
  { rewrite bool_decide_eq_true_2 by (now eexists). discriminate. }
  intros _.
  destruct (splitTokens_no_trailing_dot subject Hne Hback) as [Hsplit _].
  rewrite Hsplit. repeat split.
  - destruct subject as [|c rest]; [contradiction|]. rewrite <- Hsplit.
    apply splitTokens_nonempty.
  - now apply split_dots_nonempty; [right| |].
Qed.

Lemma valid_subject_tokens_witness :
  isValidSubject "factory.line1.>" = true
  /\ splitTokens "factory.line1.>" = ["factory"; "line1"; ">"].
Proof.
  assert (isValidSubject "factory.line1.>" = true) as Hvalid by reflexivity.
  split; [exact Hvalid|].
  now rewrite (proj1 (valid_subject_tokens "factory.line1.>" Hvalid)).
Defined.
End ValidSubjects.

(** ** The Auth request of [connect] *)

Section Handshake.
Import Impl.

Lemma request_well_formed config :
  Spec2.well_formed (payload (AuthManager.createAuthRequest config)).
Proof. cbn. repeat split; repeat constructor. Qed.

(** X25.  Once the transport is connected, [connect()] goes on to
    [doAuthentication] and the manager becomes Authenticating.  When the
    device id, the device type and the token of the configuration are valid
    UTF-8, exactly one frame is sent, the serialized request of
    [createAuthRequest], which decodes to the Auth envelope with these three
    in its payload, and the call waits.  When one of them is not valid
    UTF-8, [serialize] throws: nothing is sent, and the exception leaves
    [connect()] with the engine and the manager both in Authenticating. *)
Theorem connect_sends_auth_request env utc c :
  state_ c = ConnectionState.Authenticating ->
  transport_ c = TransportState.Connected ->
  let request := AuthManager.createAuthRequest (config_ c) in
  let frame := Protocol.serialize (system_now env) request in
  let r := connect_resume env c in
  state_ (snd r) = ConnectionState.Authenticating
  /\ AuthManager.state_ (authManager_ (snd r)) = AuthState.Authenticating
  /\ (Spec2.utf8_message request = true ->
      fst r = Returns None
      /\ trace (snd r) = trace c ++ [TransportSend frame true]
      /\ exists ts,
          Protocol.deserialize utc (Some frame) = Ok (Message.with_timestamp ts request))
  /\ (Spec2.utf8_message request = false ->
      fst r = Throws /\ trace (snd r) = trace c).
Proof.
  intros Hstate Htransport. cbn zeta. unfold connect_resume, doAuthentication.
  rewrite Hstate, transport_send_eq. unfold Spec.transport_connected, Protocol.serialize_throws.
  rewrite setState_trace. unfold Spec.setState_effects. rewrite Hstate.
  cbn [ConnectionState.eqb transport_ state_ authManager_ config_ trace emit set_trace
       set_state set_authManager]. rewrite Htransport, app_nil_r.
  rewrite (serialize_dumps _ _ (request_well_formed (config_ c))).
  destruct (Spec2.utf8_message (AuthManager.createAuthRequest (config_ c)));
    cbn [negb failed fst snd transport_ state_ authManager_ config_ trace emit set_trace
         set_state set_authManager AuthManager.startAuth AuthManager.state_].
  - repeat split; try assumption; try discriminate.
    apply deserialize_serialize; [reflexivity|apply request_well_formed].
  - repeat split; try assumption; try discriminate.
Qed.

Lemma connect_sends_auth_request_witness :
  let c := Session.transport_up in
  (state_ c = ConnectionState.Authenticating /\ transport_ c = TransportState.Connected)
  /\ state_ (snd (connect_resume Scenario.env c)) = ConnectionState.Authenticating
  /\ AuthManager.state_ (authManager_ (snd (connect_resume Scenario.env c)))
     = AuthState.Authenticating.
Proof.
  cbn zeta.
  assert (state_ Session.transport_up = ConnectionState.Authenticating) as Hstate
      by (vm_compute; reflexivity).
  assert (transport_ Session.transport_up = TransportState.Connected) as Htransport
      by (vm_compute; reflexivity).
  pose proof (connect_sends_auth_request Scenario.env 0 Session.transport_up Hstate Htransport)
    as (Hwaits & Hauth & _).
  split; [split; assumption|]. split; [exact Hwaits|exact Hauth].
Defined.
End Handshake.

(** ** What [publish] puts on the wire *)

Section Publishing.
Import Impl.

(** X26.  What [publish] puts on the wire.  In the Connected state, for a
    valid subject and a payload as the SDK builds it: when the strings of
    the payload are valid UTF-8, [publish] hands exactly one frame to the
    transport, which decodes to the Publish envelope of that subject and
    payload; it returns the transport's answer and counts the message as
    sent only when the transport took it.  When a string of the payload is
    not valid UTF-8, [serialize] throws and [publish] changes nothing. *)
Theorem publish_sends_decodable_frame env utc subj data c :
  state_ c = ConnectionState.Connected ->
  Protocol.isValidSubject subj = true ->
  Spec2.well_formed data ->
  let msg := Message.publish subj data in
  let frame := Protocol.serialize (system_now env) msg in
  let r := publish env subj data c in
  (Spec2.utf8 data = true ->
   fst r = Returns (if Spec.transport_connected c then Ok tt
                    else Err ErrorCode.NotConnected "Not connected")
   /\ trace (snd r) = trace c ++ [TransportSend frame (Spec.transport_connected c)]
   /\ ClientStats.messagesSent (stats_ (snd r))
      = (if Spec.transport_connected c
         then wrap_u64 (ClientStats.messagesSent (stats_ c) + 1)
         else ClientStats.messagesSent (stats_ c))
   /\ exists ts, Protocol.deserialize utc (Some frame) = Ok (Message.with_timestamp ts msg))
  /\ (Spec2.utf8 data = false -> r = (Throws, c)).
Proof.
  intros Hstate Hvalid Hwf. cbn zeta. unfold publish, Protocol.serialize_throws.
  rewrite Hstate, Hvalid. cbn [negb].
  rewrite (serialize_dumps (system_now env) (Message.publish subj data) Hwf).
  unfold Spec2.utf8_message.
  cbn [subject payload correlationId msg_deviceId Message.publish
       Message.with_payload Message.with_subject Message.with_type Message.default].
  rewrite (valid_subject_utf8 _ Hvalid). cbn [andb]. rewrite !andb_true_r.
  split; intros ->; cbn [negb]; [|reflexivity].
  rewrite transport_send_eq.
  destruct (Spec.transport_connected c);
    cbn [failed fst snd trace stats_ emit set_trace note_sent set_stats
         ClientStats.messagesSent];
    repeat split; now apply deserialize_serialize.
Qed.

Lemma publish_sends_decodable_frame_witness :
  let c := Scenario.connected Scenario.config Scenario.auth_ok_device in
  let r := publish Scenario.env "telemetry.temp" (JString "21.5") c in
  (state_ c = ConnectionState.Connected
   /\ Protocol.isValidSubject "telemetry.temp" = true
   /\ Spec2.well_formed (JString "21.5")
   /\ Spec2.utf8 (JString "21.5") = true)
  /\ fst r = Returns (Ok tt).
Proof.
  cbn zeta.
  assert (state_ (Scenario.connected Scenario.config Scenario.auth_ok_device)
          = ConnectionState.Connected) as Hstate by (vm_compute; reflexivity).
  assert (Protocol.isValidSubject "telemetry.temp" = true) as Hvalid by reflexivity.
  assert (Spec2.well_formed (JString "21.5")) as Hwf by exact I.
  assert (Spec2.utf8 (JString "21.5") = true) as Hutf8 by reflexivity.
  split; [repeat split; assumption|].
  destruct (proj1 (publish_sends_decodable_frame Scenario.env 0 "telemetry.temp"
                     (JString "21.5") _ Hstate Hvalid Hwf) Hutf8) as [Hresult _].
  exact Hresult.
Defined.
End Publishing.

(** ** [connectAsync] *)

Section Async.
Import Impl.

(** X27.  [connectAsync] connects the transport and no more.  From
    Disconnected, with the transport neither connected nor connecting and
    against a peer that accepts the connection, it returns success and the
    engine enters Authenticating; no Auth request is sent, the
    authentication manager is left as it was, and [connect()] then returns
    false.  Unless the manager was left Authenticating by an earlier
    [connect()], an Auth response is not handled afterwards; if it was, a
    response with success takes the engine to Connected. *)
Theorem connectAsync_sends_no_auth_request env c :
  state_ c = ConnectionState.Disconnected ->
  transport_ c <> TransportState.Connected ->
  transport_ c <> TransportState.Connecting ->
  let r := connectAsync env Established c in
  fst r = Ok tt
  /\ state_ (snd r) = ConnectionState.Authenticating
  /\ transport_ (snd r) = TransportState.Connected
  /\ authManager_ (snd r) = authManager_ c
  /\ trace (snd r)
     = trace c
       ++ (if ClientCallbacks.onStateChanged (callbacks_ c)
           then [OnStateChanged ConnectionState.Disconnected ConnectionState.Connecting]
           else [])
       ++ [TransportConnect (GatewayConfig.gatewayUrl (config_ c))
                            (GatewayConfig.connectTimeout (config_ c))]
       ++ (if ClientCallbacks.onStateChanged (callbacks_ c)
           then [OnStateChanged ConnectionState.Connecting ConnectionState.Authenticating]
           else [])
  /\ (AuthManager.state_ (authManager_ c) <> AuthState.Authenticating ->
      forall env' msg, handleAuthMessage env' msg (snd r) = snd r)
  /\ (AuthManager.state_ (authManager_ c) = AuthState.Authenticating ->
      forall env' msg,
        Spec.auth_success msg = true ->
        state_ (handleAuthMessage env' msg (snd r)) = ConnectionState.Connected)
  /\ (forall env' outcome, fst (connect_begin env' outcome (snd r)) = Some false).
Proof.
  intros Hstate Hconnected Hconnecting. cbn zeta.
  unfold connectAsync, transport_connect. rewrite Hstate.
  cbn [transport_ config_ emit set_trace].
  rewrite transport_setState.
  destruct (fields_setState env ConnectionState.Connecting c) as (_ & _ & _ & _ & Hcallbacks).
  assert (config_ (setState env ConnectionState.Connecting c) = config_ c) as ->
      by now rewrite setState_trace.
  destruct (transport_ c) eqn:Htransport; try contradiction;
    cbn [failed fst snd]; unfold onTransportConnected;
    rewrite state_setState, transport_setState, authManager_setState, trace_setState;
    unfold Spec.setState_effects;
    cbn [state_ transport_ authManager_ callbacks_ trace emit set_trace set_transport];
    rewrite state_setState, authManager_setState, trace_setState, Hcallbacks;
    unfold Spec.setState_effects; rewrite Hstate;
    cbn [ConnectionState.eqb]; rewrite ?app_nil_r, <- ?app_assoc.
  all: repeat split.
  all: try (intros Hauth env' msg; apply handleAuthMessage_ignored;
            rewrite authManager_setState; cbn [authManager_ set_transport emit set_trace];
            now rewrite authManager_setState).
  all: try (intros env' outcome; unfold connect_begin; now rewrite state_setState).
  all: intros Hauth env' msg Hsuccess;
    match goal with
    | |- state_ (handleAuthMessage _ _ ?x) = _ =>
        assert (AuthManager.state_ (authManager_ x) = AuthState.Authenticating) as Hx
            by (rewrite authManager_setState; cbn [authManager_ set_transport emit set_trace];
                now rewrite authManager_setState);
        assert (state_ x <> ConnectionState.Connected) as Hne
            by (rewrite state_setState; discriminate);
        destruct (handleAuthMessage_success env' msg x Hx Hne Hsuccess) as [Hdone _];
        exact Hdone
    end.
Qed.

Lemma connectAsync_sends_no_auth_request_witness :
  let c := Impl.init Scenario.config in
  let r := connectAsync Scenario.env Established c in
  (state_ c = ConnectionState.Disconnected
   /\ transport_ c <> TransportState.Connected
   /\ transport_ c <> TransportState.Connecting)
  /\ fst r = Ok tt
  /\ state_ (snd r) = ConnectionState.Authenticating
  /\ authManager_ (snd r) = authManager_ c.
Proof.
  cbn zeta.
  assert (state_ (Impl.init Scenario.config) = ConnectionState.Disconnected) as Hstate
      by reflexivity.
  assert (transport_ (Impl.init Scenario.config) <> TransportState.Connected) as Hconnected
      by discriminate.
  assert (transport_ (Impl.init Scenario.config) <> TransportState.Connecting) as Hconnecting
      by discriminate.
  pose proof (connectAsync_sends_no_auth_request Scenario.env (Impl.init Scenario.config)
                Hstate Hconnected Hconnecting)
    as (Hok & Hafter & _ & Hmanager & _).
  split; [repeat split; assumption|]. split; [exact Hok|]. split; [exact Hafter|exact Hmanager].
Defined.
End Async.

(** ** A heartbeat timeout *)

Section HeartbeatTimeout.
Import Impl.

Ltac fields :=
  cbn [config_ transport_ state_ authManager_ reconnectPolicy_ subscriptions_ subjectToId_
       nextSubscriptionId_ callbacks_ stats_ lastPingSent_ lastPongReceived_ missedPongs_
       trace set_transport set_state set_authManager set_reconnectPolicy set_subscriptions
       set_subjectToId set_nextSubscriptionId set_callbacks set_stats set_lastPingSent
       set_lastPongReceived set_missedPongs set_trace emit fst snd].

Lemma shouldReconnect_on p :
  ReconnectPolicy.shouldReconnect p = true -> ReconnectPolicy.enabled_ p = true.
Proof. unfold ReconnectPolicy.shouldReconnect. now destruct (ReconnectPolicy.enabled_ p). Qed.

(** X28.  A heartbeat timeout is a reconnection within the same [poll].
    When the tick counts the last allowed missed pong and the policy allows
    an attempt, the poll closes the transport with "Heartbeat timeout",
    enters Reconnecting without [onDisconnected], fires [onReconnecting],
    sleeps the policy's delay and connects again; against a peer that
    accepts, the engine ends in Authenticating with the authentication
    manager untouched. *)
Theorem heartbeat_timeout_reconnects env sample c :
  state_ c = ConnectionState.Connected ->
  transport_ c = TransportState.Connected ->
  HeartbeatConfig.enabled (GatewayConfig.heartbeat (config_ c)) = true ->
  lastPongReceived_ c <> 0 ->
  HeartbeatConfig.timeout (GatewayConfig.heartbeat (config_ c))
  < steady_now env - lastPongReceived_ c ->
  (HeartbeatConfig.missedPongsBeforeDisconnect (GatewayConfig.heartbeat (config_ c))
   <= wrap_u32 (missedPongs_ c + 1))%N ->
  ReconnectPolicy.shouldReconnect (reconnectPolicy_ c) = true ->
  let next := ReconnectPolicy.getNextDelay sample (reconnectPolicy_ c) in
  let c' := poll env [] Established sample c in
  state_ c' = ConnectionState.Authenticating
  /\ authManager_ c' = authManager_ c
  /\ exists pings,
      Forall Spec2.is_ping pings
      /\ trace c'
         = trace c ++ pings
           ++ [TransportDisconnect 1000 "Heartbeat timeout"]
           ++ (if ClientCallbacks.onStateChanged (callbacks_ c)
               then [OnStateChanged ConnectionState.Connected ConnectionState.Reconnecting]
               else [])
           ++ (if ClientCallbacks.onReconnecting (callbacks_ c)
               then [OnReconnecting (ReconnectPolicy.attemptCount_ (snd next))] else [])
           ++ [Sleep (fst next);
               TransportConnect (GatewayConfig.gatewayUrl (config_ c))
                                (GatewayConfig.connectTimeout (config_ c))]
           ++ (if ClientCallbacks.onStateChanged (callbacks_ c)
               then [OnStateChanged ConnectionState.Reconnecting
                                    ConnectionState.Authenticating]
               else []).
Proof.
  intros Hstate Htransport Henabled Hpong Hlate Hmissed Hshould. cbn zeta.
  pose proof (shouldReconnect_on _ Hshould) as Hon.
  destruct c as [config transport state auth policy subs index next callbacks stats
                 lastPing lastPong missed tr].
  cbn [state_ transport_ config_ lastPongReceived_ missedPongs_ reconnectPolicy_
       authManager_ callbacks_ trace] in *.
  subst state transport.
  unfold poll. cbn [fold_left]. fields. rewrite Henabled.
  unfold processHeartbeat. fields. unfold Spec.transport_connected. fields.
  set (due := HeartbeatConfig.interval (GatewayConfig.heartbeat config)
              <=? steady_now env - lastPing).
  destruct due;
    rewrite ?transport_send_eq; unfold Spec.transport_connected; fields;
    (destruct (Z.eqb_spec lastPong 0) as [|_]; [contradiction|]); cbn [negb];
    (destruct (Z.ltb_spec (HeartbeatConfig.timeout (GatewayConfig.heartbeat config))
                          (steady_now env - lastPong)) as [_|]; [|lia]);
    fields;
    (destruct (N.leb_spec (HeartbeatConfig.missedPongsBeforeDisconnect
                             (GatewayConfig.heartbeat config))
                          (wrap_u32 (missed + 1))) as [_|]; [|lia]);
    unfold transport_disconnect, transport_close, onTransportDisconnected,
      ReconnectPolicy.isEnabled;
    fields; rewrite Hon, Hshould; cbn [andb];
    rewrite !setState_trace; unfold Spec.setState_effects;
    fields; cbn [ConnectionState.eqb];
    unfold processReconnection;
    fields; rewrite Hshould; cbn [negb];
    destruct (ReconnectPolicy.getNextDelay sample policy) as [delay policy'];
    unfold fire, transport_connect, onTransportConnected, ReconnectPolicy.getAttemptCount;
    fields;
    destruct (ClientCallbacks.onReconnecting callbacks);
    fields;
    rewrite !setState_trace; unfold Spec.setState_effects;
    fields; cbn [ConnectionState.eqb]; rewrite ?app_nil_r;
    (split; [reflexivity|split; [reflexivity|]]).
  1, 2: exists [TransportSend (Protocol.serialize (system_now env) Message.ping) true].
  3, 4: exists [].
  all: split; [repeat constructor; try now eexists _, _|].
  all: now rewrite <- ?app_assoc.
Qed.

Lemma heartbeat_timeout_reconnects_witness :
  let c := Session.missed_once in
  let env := Scenario.at_steady 130000 in
  (state_ c = ConnectionState.Connected
   /\ transport_ c = TransportState.Connected
   /\ HeartbeatConfig.enabled (GatewayConfig.heartbeat (config_ c)) = true
   /\ lastPongReceived_ c <> 0
   /\ HeartbeatConfig.timeout (GatewayConfig.heartbeat (config_ c))
      < steady_now env - lastPongReceived_ c
   /\ (HeartbeatConfig.missedPongsBeforeDisconnect (GatewayConfig.heartbeat (config_ c))
       <= wrap_u32 (missedPongs_ c + 1))%N
   /\ ReconnectPolicy.shouldReconnect (reconnectPolicy_ c) = true)
  /\ state_ (poll env [] Established 0%Q c) = ConnectionState.Authenticating.
Proof.
  cbn zeta.
  assert (state_ Session.missed_once = ConnectionState.Connected) as H1
      by (vm_compute; reflexivity).
  assert (transport_ Session.missed_once = TransportState.Connected) as H2
      by (vm_compute; reflexivity).
  assert (HeartbeatConfig.enabled (GatewayConfig.heartbeat (config_ Session.missed_once))
          = true) as H3 by (vm_compute; reflexivity).
  assert (lastPongReceived_ Session.missed_once <> 0) as H4 by (vm_compute; discriminate).
  assert (HeartbeatConfig.timeout (GatewayConfig.heartbeat (config_ Session.missed_once))
          < steady_now (Scenario.at_steady 130000) - lastPongReceived_ Session.missed_once)
    as H5 by (vm_compute; reflexivity).
  assert ((HeartbeatConfig.missedPongsBeforeDisconnect
             (GatewayConfig.heartbeat (config_ Session.missed_once))
           <= wrap_u32 (missedPongs_ Session.missed_once + 1))%N) as H6
      by (vm_compute; discriminate).
  assert (ReconnectPolicy.shouldReconnect (reconnectPolicy_ Session.missed_once) = true)
    as H7 by (vm_compute; reflexivity).
  split; [repeat split; assumption|].
  exact (proj1 (heartbeat_timeout_reconnects (Scenario.at_steady 130000) 0%Q
                  Session.missed_once H1 H2 H3 H4 H5 H6 H7)).
Defined.
End HeartbeatTimeout.

(** ** The frame of [serializeAuthRequest] *)

Section AuthRequests.

(** X29.  [Protocol::serializeAuthRequest] on a request whose device id,
    token and device type are valid UTF-8 returns a frame that decodes to an
    Auth envelope without subject whose payload holds the three fields as
    strings; when one of them is not valid UTF-8, it throws. *)
Theorem auth_request_frame utc now request :
  let printable :=
    Utf8.valid (AuthRequest.deviceId request) && Utf8.valid (AuthRequest.deviceType request)
    && Utf8.valid (AuthRequest.token request) in
  (printable = true ->
   exists frame msg,
     ProtocolAuth.serializeAuthRequest now request = Returns frame
     /\ Protocol.deserialize utc (Some frame) = Ok msg
     /\ type msg = MessageType.Auth
     /\ subject msg = ""
     /\ JsonValue.at_key (payload msg) "deviceId" = JString (AuthRequest.deviceId request)
     /\ JsonValue.at_key (payload msg) "token" = JString (AuthRequest.token request)
     /\ JsonValue.at_key (payload msg) "deviceType"
        = JString (AuthRequest.deviceType request))
  /\ (printable = false -> ProtocolAuth.serializeAuthRequest now request = Throws).
Proof.
  cbn zeta. unfold ProtocolAuth.serializeAuthRequest, Protocol.serialize_throws.
  match goal with
  | |- context [Protocol.serialize now ?m] =>
      assert (Spec2.well_formed (payload m)) as Hwf
        by (cbn; repeat split; repeat constructor);
      rewrite (serialize_dumps now m Hwf);
      destruct (deserialize_serialize utc now m eq_refl Hwf) as [ts Hdecoded]
  end.
  unfold Spec2.utf8_message.
  cbn -[Utf8.valid Protocol.serialize Protocol.deserialize] in *.
  change (Utf8.valid "") with true. change (Utf8.valid "deviceId") with true.
  change (Utf8.valid "deviceType") with true. change (Utf8.valid "token") with true.
  destruct (Utf8.valid (AuthRequest.deviceId request)),
    (Utf8.valid (AuthRequest.deviceType request)),
    (Utf8.valid (AuthRequest.token request));
    cbn [andb negb]; (split; [|intros; reflexivity || discriminate]);
    intros Hprintable; try discriminate.
  eexists _, _. split; [reflexivity|]. split; [exact Hdecoded|]. repeat split.
Qed.
End AuthRequests.
